(** * scripts/update.js: the nightly segment-dashboard updater

    A shallow embedding of [scripts/update.js] and the properties its
    specification states about it.

    - JavaScript strings are sequences of UTF-16 code units ([list N]).
    - JavaScript numbers are IEEE-754 binary64 values, taken from the
      Standard Library's executable specification [SpecFloat]
      ([prec = 53], [emax = 1024]).
    - An [async] function is a computation that produces a log of the
      effects it performed together with a completion: it returned, it threw
      (its promise rejected), or it is still awaiting a promise that never
      settles.
    - What lies outside the script (environment variables, the clock, the two
      remote services, [JSON.parse], the file system) is an explicit
      argument. *)

From Stdlib Require Import Ascii String.
From Stdlib Require Import ZArith NArith List Bool Lia.
From Stdlib Require Import Floats.SpecFloat.
Import ListNotations.

Local Open Scope N_scope.

(* ================================================================== *)
(** * JavaScript strings *)

Abbreviation code_unit := N (only parsing).
Abbreviation jsstring := (list N) (only parsing).

(** [js "abc"] is the JavaScript string literal ['abc']. *)
Definition js (s : string) : jsstring :=
  map N_of_ascii (list_ascii_of_string s).

(** The code unit of the double quote, and the literal ['rel="next"']. *)
Definition dquote : code_unit := 34.
Definition rel_next : jsstring := js "rel=" ++ [dquote] ++ js "next" ++ [dquote].

(** A string is truthy when it is not empty. *)
Definition truthy (s : jsstring) : bool :=
  match s with [] => false | _ :: _ => true end.

(** [process.env.X], [headers.get(..)]: a string or [undefined]/[null]. *)
Definition truthy_opt (o : option jsstring) : bool :=
  match o with Some s => truthy s | None => false end.

Definition jseq (a b : jsstring) : bool :=
  if list_eq_dec N.eq_dec a b then true else false.

(** [s.split(sep)] for a one-character separator: never an empty array. *)
Fixpoint split (sep : code_unit) (s : jsstring) : list jsstring :=
  match s with
  | [] => [[]]
  | c :: s' =>
      if c =? sep then [] :: split sep s'
      else match split sep s' with
           | [] => [[c]]
           | p :: ps => (c :: p) :: ps
           end
  end.

(** WhiteSpace and LineTerminator code points of ECMAScript. *)
Definition is_space (c : code_unit) : bool :=
  (c =? 9) || (c =? 10) || (c =? 11) || (c =? 12) || (c =? 13) || (c =? 32)
  || (c =? 160) || (c =? 5760) || ((8192 <=? c) && (c <=? 8202))
  || (c =? 8232) || (c =? 8233) || (c =? 8239) || (c =? 8287)
  || (c =? 12288) || (c =? 65279).

Fixpoint trimStart (s : jsstring) : jsstring :=
  match s with
  | c :: s' => if is_space c then trimStart s' else s
  | [] => []
  end.

Definition trimEnd (s : jsstring) : jsstring := rev (trimStart (rev s)).

Definition trim (s : jsstring) : jsstring := trimEnd (trimStart s).

(** [strip_prefix p s] is [Some r] when [s = p ++ r]. *)
Fixpoint strip_prefix (p s : jsstring) : option jsstring :=
  match p, s with
  | [], _ => Some s
  | a :: p', b :: s' => if a =? b then strip_prefix p' s' else None
  | _ :: _, [] => None
  end.

Fixpoint take_while (f : code_unit -> bool) (s : jsstring) : jsstring :=
  match s with
  | c :: s' => if f c then c :: take_while f s' else []
  | [] => []
  end.

Fixpoint drop_while (f : code_unit -> bool) (s : jsstring) : jsstring :=
  match s with
  | c :: s' => if f c then drop_while f s' else s
  | [] => []
  end.

(** ** The regular expression [/page_info=([^&>]+)/] *)

(** The class [[^&>]]. *)
Definition cursor_char (c : code_unit) : bool :=
  negb ((c =? 38) || (c =? 62)).

(** The expression tried at the start of [s]: the literal, then the greedy
    non-empty capture group. *)
Definition match_here (s : jsstring) : option jsstring :=
  match strip_prefix (js "page_info=") s with
  | Some r =>
      match take_while cursor_char r with
      | [] => None
      | tok => Some tok
      end
  | None => None
  end.

(** [s.match(/page_info=([^&>]+)/)]: the capture group of the leftmost
    match, or [None] for [null]. *)
Fixpoint match_page_info (s : jsstring) : option jsstring :=
  match match_here s with
  | Some tok => Some tok
  | None =>
      match s with
      | [] => None
      | _ :: s' => match_page_info s'
      end
  end.

(** [key.replace(/\\n/g, '\n')]: every backslash followed by [n] becomes a
    line feed. *)
Fixpoint unescape_newlines (s : jsstring) : jsstring :=
  match s with
  | 92 :: 110 :: s' => 10 :: unescape_newlines s'
  | c :: s' => c :: unescape_newlines s'
  | [] => []
  end.

(* ================================================================== *)
(** * Completions and effects *)

(** The exceptions the script and the built-ins it calls can raise. *)
Inductive js_error :=
  | Error (message : jsstring)
  | TypeError
  | URIError
  | SyntaxError.

(** How an evaluation ends. [Pending] is an [await] on a promise that never
    settles. *)
Inductive completion (A : Type) :=
  | Return (a : A)
  | Throw (e : js_error)
  | Pending.
Arguments Return {A} a.
Arguments Throw {A} e.
Arguments Pending {A}.

Definition bindC {A B} (c : completion A) (k : A -> completion B) : completion B :=
  match c with
  | Return a => k a
  | Throw e => Throw e
  | Pending => Pending
  end.

(* ================================================================== *)
(** * [decodeURIComponent] and [encodeURIComponent] *)

Definition hex_digit (c : code_unit) : option N :=
  if (48 <=? c) && (c <=? 57) then Some (c - 48)
  else if (65 <=? c) && (c <=? 70) then Some (c - 55)
  else if (97 <=? c) && (c <=? 102) then Some (c - 87)
  else None.

(** ParseHexOctet on two code units. *)
Definition ParseHexOctet (h l : code_unit) : option N :=
  match hex_digit h, hex_digit l with
  | Some a, Some b => Some (16 * a + b)
  | _, _ => None
  end.

(** A [%XX] escape that continues a multi-octet sequence. *)
Definition escape_octet (p h l : code_unit) : option N :=
  if p =? 37 then ParseHexOctet h l else None.

(** The number of leading 1 bits of an octet. *)
Definition leading_ones (b : N) : nat :=
  if b <? 128 then 0%nat
  else if b <? 192 then 1%nat
  else if b <? 224 then 2%nat
  else if b <? 240 then 3%nat
  else if b <? 248 then 4%nat
  else 5%nat.

Definition is_continuation (b : N) : bool := (128 <=? b) && (b <? 192).

(** The code point of a well-formed UTF-8 sequence of two, three or four
    octets: continuation octets in range, no overlong form, no surrogate,
    nothing above U+10FFFF. *)
Definition utf8_code_point (octets : list N) : option N :=
  match octets with
  | [b0; b1] =>
      let v := (b0 - 192) * 64 + (b1 - 128) in
      if is_continuation b1 && (128 <=? v) then Some v else None
  | [b0; b1; b2] =>
      let v := (b0 - 224) * 4096 + (b1 - 128) * 64 + (b2 - 128) in
      if is_continuation b1 && is_continuation b2 && (2048 <=? v)
         && negb ((55296 <=? v) && (v <=? 57343))
      then Some v else None
  | [b0; b1; b2; b3] =>
      let v := (b0 - 240) * 262144 + (b1 - 128) * 4096
               + (b2 - 128) * 64 + (b3 - 128) in
      if is_continuation b1 && is_continuation b2 && is_continuation b3
         && (65536 <=? v) && (v <=? 1114111)
      then Some v else None
  | _ => None
  end.

Definition UTF16EncodeCodePoint (cp : N) : jsstring :=
  if cp <? 65536 then [cp]
  else [55296 + (cp - 65536) / 1024; 56320 + (cp - 65536) mod 1024].

Definition decoded (octets : list (option N)) (rest : completion jsstring)
  : completion jsstring :=
  match fold_right (fun o acc =>
                      match o, acc with
                      | Some b, Some l => Some (b :: l)
                      | _, _ => None
                      end) (Some []) octets with
  | Some bs =>
      match utf8_code_point bs with
      | Some v => bindC rest (fun r => Return (UTF16EncodeCodePoint v ++ r))
      | None => Throw URIError
      end
  | None => Throw URIError
  end.

(** [decodeURIComponent(s)]: the abstract operation Decode with an empty
    set of preserved escapes. *)
Fixpoint decodeURIComponent (s : jsstring) : completion jsstring :=
  match s with
  | [] => Return []
  | c :: r =>
      if c =? 37 then
        match r with
        | h :: l :: r1 =>
            match ParseHexOctet h l with
            | None => Throw URIError
            | Some b =>
                match leading_ones b with
                | 0%nat => bindC (decodeURIComponent r1) (fun t => Return (b :: t))
                | 2%nat =>
                    match r1 with
                    | p1 :: h1 :: l1 :: r2 =>
                        decoded [Some b; escape_octet p1 h1 l1]
                                (decodeURIComponent r2)
                    | _ => Throw URIError
                    end
                | 3%nat =>
                    match r1 with
                    | p1 :: h1 :: l1 :: p2 :: h2 :: l2 :: r2 =>
                        decoded [Some b; escape_octet p1 h1 l1;
                                 escape_octet p2 h2 l2]
                                (decodeURIComponent r2)
                    | _ => Throw URIError
                    end
                | 4%nat =>
                    match r1 with
                    | p1 :: h1 :: l1 :: p2 :: h2 :: l2 :: p3 :: h3 :: l3 :: r2 =>
                        decoded [Some b; escape_octet p1 h1 l1;
                                 escape_octet p2 h2 l2; escape_octet p3 h3 l3]
                                (decodeURIComponent r2)
                    | _ => Throw URIError
                    end
                | _ => Throw URIError
                end
            end
        | _ => Throw URIError
        end
      else bindC (decodeURIComponent r) (fun t => Return (c :: t))
  end.

(** The characters [encodeURIComponent] leaves alone: letters, digits and
    [- _ . ! ~ * ' ( )]. *)
Definition uri_unescaped (c : code_unit) : bool :=
  ((65 <=? c) && (c <=? 90)) || ((97 <=? c) && (c <=? 122))
  || ((48 <=? c) && (c <=? 57))
  || (c =? 45) || (c =? 95) || (c =? 46) || (c =? 33) || (c =? 126)
  || (c =? 42) || (c =? 39) || (c =? 40) || (c =? 41).

Definition hex_char (d : N) : code_unit :=
  if d <? 10 then 48 + d else 55 + d.

Definition percent (b : N) : jsstring := [37; hex_char (b / 16); hex_char (b mod 16)].

Definition utf8_octets (cp : N) : list N :=
  if cp <? 128 then [cp]
  else if cp <? 2048 then [192 + cp / 64; 128 + cp mod 64]
  else if cp <? 65536 then
    [224 + cp / 4096; 128 + (cp / 64) mod 64; 128 + cp mod 64]
  else [240 + cp / 262144; 128 + (cp / 4096) mod 64;
        128 + (cp / 64) mod 64; 128 + cp mod 64].

Definition percent_encode (cp : N) : jsstring :=
  concat (map percent (utf8_octets cp)).

Definition is_lead_surrogate (c : code_unit) : bool := (55296 <=? c) && (c <=? 56319).
Definition is_trail_surrogate (c : code_unit) : bool := (56320 <=? c) && (c <=? 57343).

(** [encodeURIComponent(s)]: the abstract operation Encode; a lone surrogate
    raises URIError. *)
Fixpoint encodeURIComponent (s : jsstring) : completion jsstring :=
  match s with
  | [] => Return []
  | c :: r =>
      if uri_unescaped c then
        bindC (encodeURIComponent r) (fun t => Return (c :: t))
      else if is_trail_surrogate c then Throw URIError
      else if is_lead_surrogate c then
        match r with
        | d :: r' =>
            if is_trail_surrogate d then
              bindC (encodeURIComponent r')
                    (fun t => Return (percent_encode
                                        (65536 + (c - 55296) * 1024 + (d - 56320)) ++ t))
            else Throw URIError
        | [] => Throw URIError
        end
      else bindC (encodeURIComponent r) (fun t => Return (percent_encode c ++ t))
  end.

(* ================================================================== *)
(** * JavaScript numbers *)

Local Open Scope Z_scope.

Definition number := spec_float.
Definition prec : Z := 53.
Definition emax : Z := 1024.

Definition NaN : number := S754_nan.
Definition Number_add : number -> number -> number := SFadd prec emax.
Definition Number_mul : number -> number -> number := SFmul prec emax.

(** The Number value of an integer. *)
Definition Z2num (n : Z) : number := binary_normalize prec emax n 0 false.

(** The Number value of the decimal numeral [± M × 10^E], [0 <= M]: the
    quotient of two integers is rounded once, to nearest, ties to even. *)
Definition round_decimal (neg : bool) (M E : Z) : number :=
  if M =? 0 then S754_zero neg
  else if 0 <=? E then
    binary_normalize prec emax (cond_Zopp neg (M * 10 ^ E)) 0 neg
  else
    SFdiv prec emax (S754_finite neg (Z.to_pos M) 0)
                    (S754_finite false (Z.to_pos (10 ^ (- E))) 0).

(** [orders++] on a counter that holds a non-negative integer: exact below
    [2^53], where adding one rounds back to [2^53]. *)
Definition increment (n : Z) : Z := if n <? 2 ^ 53 then n + 1 else n.

(** ** [parseFloat] *)

Definition is_digit (c : code_unit) : bool := ((48 <=? c) && (c <=? 57))%N.

Definition digits_value (ds : jsstring) : Z :=
  fold_left (fun acc c => 10 * acc + (Z.of_N c - 48)) ds 0.

(** SignedInteger: an optional sign and at least one digit. *)
Definition signed_integer (s : jsstring) : option Z :=
  let '(neg, r) :=
    match s with
    | c :: r' =>
        if (c =? 43)%N then (false, r')
        else if (c =? 45)%N then (true, r') else (false, s)
    | [] => (false, s)
    end in
  match take_while is_digit r with
  | [] => None
  | ds => Some (cond_Zopp neg (digits_value ds))
  end.

(** The value of the ExponentPart at the start of [s], 0 when there is
    none. *)
Definition exponent_part (s : jsstring) : Z :=
  match s with
  | c :: r =>
      if ((c =? 101) || (c =? 69))%N then
        match signed_integer r with Some e => e | None => 0 end
      else 0
  | [] => 0
  end.

(** The longest prefix of [s] that is a StrUnsignedDecimalLiteral, as a
    Number of sign [neg]; [NaN] when there is none. *)
Definition unsigned_decimal (neg : bool) (s : jsstring) : number :=
  match strip_prefix (js "Infinity") s with
  | Some _ => S754_infinity neg
  | None =>
      let ip := take_while is_digit s in
      let r1 := drop_while is_digit s in
      let '(fp, r2) :=
        match r1 with
        | c :: r =>
            if (c =? 46)%N then (take_while is_digit r, drop_while is_digit r)
            else ([], r1)
        | [] => ([], r1)
        end in
      match ip ++ fp with
      | [] => NaN
      | ds => round_decimal neg (digits_value ds)
                (exponent_part r2 - Z.of_nat (length fp))
      end
  end.

(** [parseFloat(s)] for a string [s]. *)
Definition parseFloat (s : jsstring) : number :=
  match trimStart s with
  | c :: r =>
      if (c =? 43)%N then unsigned_decimal false r
      else if (c =? 45)%N then unsigned_decimal true r
      else unsigned_decimal false (c :: r)
  | [] => NaN
  end.

(** ** [Math.round] *)

(** [floor (num / den + 1/2)], for [0 < den]. *)
Definition round_half_up (num den : Z) : Z := (2 * num + den) / (2 * den).

(** A finite Number [± m × 2^e] as a fraction with a positive denominator. *)
Definition numerator (neg : bool) (m : positive) (e : Z) : Z :=
  cond_Zopp neg (Zpos m * 2 ^ Z.max e 0).
Definition denominator (e : Z) : Z := 2 ^ Z.max (- e) 0.

(** [Math.round(x)]: an integral or non-finite [x] is returned as it is; a
    result of zero keeps the sign of [x]; a tie goes towards +Infinity. *)
Definition Math_round (x : number) : number :=
  match x with
  | S754_finite s m e =>
      if 0 <=? e then x
      else
        let n := round_half_up (numerator s m e) (denominator e) in
        if n =? 0 then S754_zero s else Z2num n
  | _ => x
  end.

(** ** Decimal digits *)

Fixpoint decimal_digits (fuel : nat) (n : Z) (acc : jsstring) : jsstring :=
  match fuel with
  | O => acc
  | S f =>
      let acc' := Z.to_N (48 + n mod 10) :: acc in
      if n / 10 =? 0 then acc' else decimal_digits f (n / 10) acc'
  end.

(** The decimal representation of a non-negative integer, without leading
    zeros ([0] is the single digit 0). *)
Definition decimal (n : Z) : jsstring :=
  decimal_digits (S (Z.to_nat (Z.log2 n))) n [].

(** ** [Number.prototype.toString] from [10^21] on *)

Definition number_eqb (x y : number) : bool :=
  match x, y with
  | S754_zero a, S754_zero b => Bool.eqb a b
  | S754_infinity a, S754_infinity b => Bool.eqb a b
  | S754_nan, S754_nan => true
  | S754_finite a m e, S754_finite b m' e' =>
      Bool.eqb a b && Pos.eqb m m' && (e =? e')
  | _, _ => false
  end.

(** The shortest decimal [(s, p)], meaning [s × 10^p], that reads back as
    the Number of the integer [X]; [k] is the number of digits tried, [n] the
    number of digits of [X]. Of two candidates of one length, the closer to
    [X] is taken, the even one on a tie. *)
Fixpoint shortest_decimal (fuel : nat) (k n X : Z) : Z * Z :=
  match fuel with
  | O => (X, 0)
  | S f =>
      let p := n - k in
      let lo := X / 10 ^ p in
      let hi := lo + 1 in
      let ok_lo := (0 <? lo) && number_eqb (Z2num (lo * 10 ^ p)) (Z2num X) in
      let ok_hi := number_eqb (Z2num (hi * 10 ^ p)) (Z2num X) in
      if ok_lo && ok_hi then
        match (X - lo * 10 ^ p) ?= (hi * 10 ^ p - X) with
        | Lt => (lo, p)
        | Gt => (hi, p)
        | Eq => if Z.even lo then (lo, p) else (hi, p)
        end
      else if ok_lo then (lo, p)
      else if ok_hi then (hi, p)
      else shortest_decimal f (k + 1) n X
  end.

Fixpoint strip_zeros (fuel : nat) (s p : Z) : Z * Z :=
  match fuel with
  | O => (s, p)
  | S f => if (s mod 10 =? 0) && negb (s =? 0)
           then strip_zeros f (s / 10) (p + 1) else (s, p)
  end.

(** [String(x)] for an integral [x = X >= 10^21]: exponential notation,
    [d.ddde+NN]. *)
Definition toString_large (X : Z) : jsstring :=
  let n := Z.of_nat (length (decimal X)) in
  let '(s0, p0) := shortest_decimal 17 1 n X in
  let '(s, p) := strip_zeros 17 s0 p0 in
  let ds := decimal s in
  let e := Z.of_nat (length ds) + p - 1 in
  match ds with
  | [] => []
  | d :: [] => d :: js "e+" ++ decimal e
  | d :: rest => d :: 46%N :: rest ++ js "e+" ++ decimal e
  end.

(** ** [Number.prototype.toFixed(2)] *)

(** The digits of [n], padded on the left to three, with the point before
    the last two. *)
Definition fixed2 (n : Z) : jsstring :=
  let m := decimal n in
  let m' := repeat 48%N (3 - length m) ++ m in
  firstn (length m' - 2) m' ++ 46%N :: skipn (length m' - 2) m'.

Definition toFixed2 (x : number) : jsstring :=
  match x with
  | S754_nan => js "NaN"
  | S754_infinity s => (if s then js "-" else []) ++ js "Infinity"
  | S754_zero _ => fixed2 0
  | S754_finite s m e =>
      (if s then js "-" else []) ++
      (if 10 ^ 21 * denominator e <=? numerator false m e
       then toString_large (numerator false m e / denominator e)
       else fixed2 (round_half_up (100 * numerator false m e) (denominator e)))
  end.

(* ================================================================== *)
(** * The data of the script *)

(** [process.env]: each variable is a string or [undefined]. *)
Record environment := {
  SHOPIFY_STORE : option jsstring;
  SHOPIFY_ADMIN_TOKEN : option jsstring;
  GA4_PROPERTY_ID : option jsstring;
  GA4_CLIENT_EMAIL : option jsstring;
  GA4_PRIVATE_KEY : option jsstring;
  SEGMENT_SHOPIFY_QUERY : option jsstring;
  SEGMENT_GA_FILTER : option jsstring
}.

(** The window of the query, [start.toISOString()] and [end.toISOString()],
    as the clock gives them. *)
Record window := {
  processed_at_min : jsstring;
  processed_at_max : jsstring
}.

(** An order of the Admin API with the two fields the query selects; money
    amounts are strings, and a field that is absent reads as [undefined]. *)
Record order := {
  total_price : option jsstring;
  created_at : option jsstring
}.

Module Page.
(** The body of an order page, [await res.json()]; [orders] is [None] when
    the object has no such property. *)
Record t := { orders : option (list order) }.
End Page.

(** What the script reads of a [fetch] response: [res.status],
    [res.headers.get('link')], [await res.text()], and [await res.json()],
    which is [None] when the body is not JSON. *)
Record response := {
  status : N;
  link : option jsstring;
  text : jsstring;
  json : option Page.t
}.

(** [res.ok] *)
Definition ok (res : response) : bool :=
  ((200 <=? status res) && (status res <=? 299))%N.

(** The promise of a [fetch] call fulfils with a response or rejects. *)
Inductive fetch_reply :=
  | Responds (res : response)
  | Fails (e : js_error).

Module Shopify.
(** What [fetchShopify] returns. *)
Record result := { orders : Z; sales : number }.
End Shopify.

(** A value produced by [JSON.parse]. *)
#[local] Unset Elimination Schemes.
Inductive json_value :=
  | JNull
  | JBool (b : bool)
  | JNumber (x : number)
  | JString (s : jsstring)
  | JArray (items : list json_value)
  | JObject (members : list (jsstring * json_value)).
#[local] Set Elimination Schemes.

(** The request of [runReport]. *)
Record report_request := {
  property : jsstring;
  dateRanges : list (jsstring * jsstring);
  metrics : list jsstring;
  dimensionFilter : option json_value
}.

(** A row of a report: [metricValues] holds the [value] of each metric. *)
Record report_row := { metricValues : list jsstring }.

(** The report: [rows] is [None] when the property is missing. *)
Record report := { rows : option (list report_row) }.

Module GA.
(** What [fetchGA4] returns. *)
Record result := { sessions : number; conversionRate : number }.
End GA.

Module Output.
(** The record written to [public/data/segment.json]; [None] is [null]. *)
Record t := {
  sessions : number;
  orders : Z;
  sales : number;
  conversionRate : number;
  sessionsDelta : option number;
  ordersDelta : option number;
  salesDelta : option number;
  conversionRateDelta : option number;
  labels : option (list jsstring);
  series : option (list number)
}.
End Output.

(** The observable effects of a run. *)
Inductive event :=
  | Fetch (url access_token : jsstring)
  | RunReport (client_email private_key : jsstring) (request : report_request)
  | ConsoleWarn (message : jsstring)
  | ConsoleLog (message dest : jsstring)
  | ConsoleError (e : js_error)
  | MkdirSync (dir : jsstring)
  | WriteFileSync (dest : jsstring) (output : Output.t)
  | ProcessExit (code : Z).

(** ** Computations with a log of effects *)

Definition M (A : Type) : Type := (list event * completion A)%type.

Definition ret {A} (a : A) : M A := ([], Return a).
Definition throw {A} (e : js_error) : M A := ([], Throw e).
Definition lift {A} (c : completion A) : M A := ([], c).
Definition emit (ev : event) : M unit := ([ev], Return tt).

Definition bind {A B} (m : M A) (k : A -> M B) : M B :=
  match m with
  | (log, Return a) => let (log', c) := k a in (log ++ log', c)
  | (log, Throw e) => (log, Throw e)
  | (log, Pending) => (log, Pending)
  end.

Declare Scope js_scope.
Delimit Scope js_scope with js.
Notation "x <- m ;; k" := (bind m (fun x => k))
  (at level 61, m at next level, right associativity) : js_scope.
Notation "m ;; k" := (bind m (fun _ => k))
  (at level 61, right associativity) : js_scope.
Local Open Scope js_scope.

(* ================================================================== *)
(** * [getNextPage] *)

(** The [for] loop over the parts, each already trimmed. *)
Fixpoint next_in_parts (parts : list jsstring) : completion (option jsstring) :=
  match parts with
  | [] => Return None
  | part :: rest =>
      let pieces := map trim (split 59%N part) in
      let urlPart := hd [] pieces in
      let relPart := nth_error pieces 1 in
      if match relPart with Some r => jseq r rel_next | None => false end then
        match match_page_info urlPart with
        | Some token => bindC (decodeURIComponent token) (fun t => Return (Some t))
        | None => Return None
        end
      else next_in_parts rest
  end.

Definition getNextPage (linkHeader : option jsstring) : completion (option jsstring) :=
  match linkHeader with
  | None => Return None
  | Some h =>
      if truthy h then next_in_parts (map trim (split 44%N h)) else Return None
  end.

(* ================================================================== *)
(** * [fetchShopify] *)

(** The body of the [for] loop over [data.orders]; [order.total_price || 0]
    is the string itself when it is not empty and the number 0, which
    [parseFloat] reads as the string ['0'], otherwise. *)
Definition add_order (acc : Z * number) (o : order) : Z * number :=
  let price :=
    match total_price o with
    | Some s => if truthy s then s else js "0"
    | None => js "0"
    end in
  (increment (fst acc), Number_add (snd acc) (parseFloat price)).

Definition missing_shopify : jsstring :=
  js "Missing SHOPIFY_STORE or SHOPIFY_ADMIN_TOKEN environment variables".

Definition api_error (res : response) : js_error :=
  Error (js "Shopify API error " ++ decimal (Z.of_N (status res)) ++ js ": " ++ text res).

(** The [do ... while (pageInfo)] loop; [net] holds the replies the network
    gives to the successive calls of [fetch], and a call beyond the last of
    them is never answered. *)
Fixpoint fetch_pages (url token : jsstring) (net : list fetch_reply)
    (pageInfo : option jsstring) (orders : Z) (sales : number)
  : M Shopify.result :=
  fetchUrl <- lift (if truthy_opt pageInfo
                    then bindC (encodeURIComponent (match pageInfo with Some p => p | None => [] end))
                               (fun q => Return (url ++ js "&page_info=" ++ q))
                    else Return url) ;;
  emit (Fetch fetchUrl token) ;;
  match net with
  | [] => lift Pending
  | Fails e :: _ => throw e
  | Responds res :: net' =>
      if negb (ok res) then throw (api_error res)
      else
        data <- match json res with
                | Some d => ret d
                | None => throw SyntaxError
                end ;;
        list_orders <- match Page.orders data with
                       | Some l => ret l
                       | None => throw TypeError
                       end ;;
        let acc := fold_left add_order list_orders (orders, sales) in
        next <- lift (getNextPage (link res)) ;;
        if truthy_opt next
        then fetch_pages url token net' next (fst acc) (snd acc)
        else ret {| Shopify.orders := fst acc; Shopify.sales := snd acc |}
  end.

Definition orders_url (store : jsstring) : jsstring :=
  js "https://" ++ store
  ++ js "/admin/api/2024-07/orders.json?status=any&limit=250&fields=total_price,created_at".

(** The request URL of the first page: the endpoint, the window and the
    optional query. *)
Definition request_url (env : environment) (w : window) : completion jsstring :=
  let store := match SHOPIFY_STORE env with Some s => s | None => [] end in
  let queryString := match SEGMENT_SHOPIFY_QUERY env with Some q => q | None => [] end in
  bindC (encodeURIComponent (processed_at_min w)) (fun lo =>
  bindC (encodeURIComponent (processed_at_max w)) (fun hi =>
  let url := orders_url store ++ js "&processed_at_min=" ++ lo
             ++ js "&processed_at_max=" ++ hi in
  if truthy queryString
  then bindC (encodeURIComponent queryString) (fun q => Return (url ++ js "&query=" ++ q))
  else Return url)).

Definition fetchShopify (env : environment) (w : window) (net : list fetch_reply)
  : M Shopify.result :=
  if negb (truthy_opt (SHOPIFY_STORE env)) || negb (truthy_opt (SHOPIFY_ADMIN_TOKEN env))
  then throw (Error missing_shopify)
  else
    let token := match SHOPIFY_ADMIN_TOKEN env with Some s => s | None => [] end in
    url <- lift (request_url env w) ;;
    fetch_pages url token net None 0 (S754_zero false).

(* ================================================================== *)
(** * [fetchGA4] *)

(** The reporting service as the script uses it: [JSON.parse], which is
    [None] when it throws SyntaxError, and the promise of
    [analyticsDataClient.runReport(request)]. *)
Record analytics := {
  JSON_parse : jsstring -> option json_value;
  runReport : report_request -> completion report
}.

Definition missing_ga4 : jsstring := js "Missing GA4 service account credentials.".
Definition filter_warning : jsstring := js "Invalid SEGMENT_GA_FILTER JSON, ignoring".

(** [process.env.GA4_PRIVATE_KEY && process.env.GA4_PRIVATE_KEY.replace(..)] *)
Definition private_key (env : environment) : option jsstring :=
  match GA4_PRIVATE_KEY env with
  | Some k => if truthy k then Some (unescape_newlines k) else Some k
  | None => None
  end.

Definition base_request (propertyId : jsstring) : report_request :=
  {| property := js "properties/" ++ propertyId;
     dateRanges := [(js "90daysAgo", js "today")];
     metrics := [js "sessions"; js "sessionConversionRate"];
     dimensionFilter := None |}.

Definition with_filter (request : report_request) (f : json_value) : report_request :=
  {| property := property request;
     dateRanges := dateRanges request;
     metrics := metrics request;
     dimensionFilter := Some f |}.

(** [parseFloat(row.metricValues[i].value)]: TypeError when the row has no
    such metric value. *)
Definition metric (row : report_row) (i : nat) : M number :=
  match nth_error (metricValues row) i with
  | Some v => ret (parseFloat v)
  | None => throw TypeError
  end.

(** The request with the optional dimension filter applied: a filter that
    [JSON.parse] rejects is reported with [console.warn] and left out. *)
Definition report_request_of (env : environment) (ga : analytics) : M report_request :=
  let propertyId := match GA4_PROPERTY_ID env with Some s => s | None => [] end in
  let request := base_request propertyId in
  if truthy_opt (SEGMENT_GA_FILTER env) then
    match JSON_parse ga (match SEGMENT_GA_FILTER env with Some f => f | None => [] end) with
    | Some f => ret (with_filter request f)
    | None => emit (ConsoleWarn filter_warning) ;; ret request
    end
  else ret request.

(** What [fetchGA4] returns for a report. *)
Definition summary (response : report) : M GA.result :=
  let row := match rows response with
             | Some (r :: _) => Some r
             | _ => None
             end in
  sessions <- match row with
              | Some r => metric r 0
              | None => ret (S754_zero false)
              end ;;
  conversionRate <- match row with
                    | Some r => metric r 1
                    | None => ret (S754_zero false)
                    end ;;
  ret {| GA.sessions := sessions; GA.conversionRate := conversionRate |}.

Definition fetchGA4 (env : environment) (ga : analytics) : M GA.result :=
  if negb (truthy_opt (GA4_PROPERTY_ID env)) || negb (truthy_opt (GA4_CLIENT_EMAIL env))
     || negb (truthy_opt (private_key env))
  then throw (Error missing_ga4)
  else
    let clientEmail := match GA4_CLIENT_EMAIL env with Some s => s | None => [] end in
    let privateKey := match private_key env with Some s => s | None => [] end in
    request <- report_request_of env ga ;;
    emit (RunReport clientEmail privateKey request) ;;
    response <- lift (runReport ga request) ;;
    summary response.

(* ================================================================== *)
(** * [main] *)

(** The record [main] composes from the two results. *)
Definition compose (shopify : Shopify.result) (ga : GA.result) : Output.t :=
  {| Output.sessions := Math_round (GA.sessions ga);
     Output.orders := Shopify.orders shopify;
     Output.sales := parseFloat (toFixed2 (Shopify.sales shopify));
     Output.conversionRate :=
       parseFloat (toFixed2 (Number_mul (GA.conversionRate ga) (Z2num 100)));
     Output.sessionsDelta := None;
     Output.ordersDelta := None;
     Output.salesDelta := None;
     Output.conversionRateDelta := None;
     Output.labels := None;
     Output.series := None |}.

(** The file system: [dest] is [path.join(__dirname, '../public/data/segment.json')],
    [dest_dir] is [path.dirname(dest)], and each operation succeeds ([None])
    or throws. *)
Record file_system := {
  dest : jsstring;
  dest_dir : jsstring;
  mkdirSync : jsstring -> option js_error;
  writeFileSync : jsstring -> Output.t -> option js_error
}.

(** Which of the two promises settles first. *)
Inductive side := ShopifyFirst | AnalyticsFirst.

(** [await Promise.all([a, b])]: fulfilled when both are, rejected as soon
    as one is, with the reason of the first to reject. *)
Definition Promise_all {A B} (first : side) (a : completion A) (b : completion B)
  : completion (A * B) :=
  match a, b with
  | Return x, Return y => Return (x, y)
  | Throw e, Throw e' =>
      Throw (match first with ShopifyFirst => e | AnalyticsFirst => e' end)
  | Throw e, _ => Throw e
  | _, Throw e => Throw e
  | _, _ => Pending
  end.

Definition fs_call (r : option js_error) (ev : event) : M unit :=
  match r with
  | None => emit ev
  | Some e => throw e
  end.

(** The body of [main], given how the two fetches complete. *)
Definition main (fs : file_system) (first : side)
    (shopify : completion Shopify.result) (ga : completion GA.result) : M unit :=
  results <- lift (Promise_all first shopify ga) ;;
  let output := compose (fst results) (snd results) in
  fs_call (mkdirSync fs (dest_dir fs)) (MkdirSync (dest_dir fs)) ;;
  fs_call (writeFileSync fs (dest fs) output) (WriteFileSync (dest fs) output) ;;
  emit (ConsoleLog (js "Updated") (dest fs)).

(** Everything a run depends on. *)
Record world := {
  env : environment;
  clock : window;
  shopify_api : list fetch_reply;
  ga_api : analytics;
  disk : file_system;
  settles_first : side
}.

(** What a run does: the effects of each fetch when nothing cuts it short
    (a process that exits stops the fetch that is still under way), the
    effects of [main] and of its [catch] handler, and the exit status, [None]
    when the process never ends. *)
Record run_result := {
  shopify_log : list event;
  ga_log : list event;
  main_log : list event;
  exit_status : option Z
}.

(** [main().catch(err => { console.error(err); process.exit(1); })] *)
Definition run (w : world) : run_result :=
  let shopify := fetchShopify (env w) (clock w) (shopify_api w) in
  let ga := fetchGA4 (env w) (ga_api w) in
  let m := main (disk w) (settles_first w) (snd shopify) (snd ga) in
  {| shopify_log := fst shopify;
     ga_log := fst ga;
     main_log :=
       match snd m with
       | Throw e => fst m ++ [ConsoleError e; ProcessExit 1]
       | _ => fst m
       end;
     exit_status :=
       match snd m with
       | Return _ => Some 0
       | Throw _ => Some 1
       | Pending => None
       end |}.

(* ================================================================== *)
(** * Vocabulary of the specification *)

(** An environment variable that is unset or blank. *)
Definition absent (v : option jsstring) : Prop := truthy_opt v = false.

Definition shopify_credentials (env : environment) : Prop :=
  truthy_opt (SHOPIFY_STORE env) = true /\ truthy_opt (SHOPIFY_ADMIN_TOKEN env) = true.

Definition ga4_credentials (env : environment) : Prop :=
  truthy_opt (GA4_PROPERTY_ID env) = true
  /\ truthy_opt (GA4_CLIENT_EMAIL env) = true
  /\ truthy_opt (GA4_PRIVATE_KEY env) = true.

(** The environment with the analytics filter left unset. *)
Definition without_filter (env : environment) : environment :=
  {| SHOPIFY_STORE := SHOPIFY_STORE env;
     SHOPIFY_ADMIN_TOKEN := SHOPIFY_ADMIN_TOKEN env;
     GA4_PROPERTY_ID := GA4_PROPERTY_ID env;
     GA4_CLIENT_EMAIL := GA4_CLIENT_EMAIL env;
     GA4_PRIVATE_KEY := GA4_PRIVATE_KEY env;
     SEGMENT_SHOPIFY_QUERY := SEGMENT_SHOPIFY_QUERY env;
     SEGMENT_GA_FILTER := None |}.

(** A report whose first row, if there is one, carries the two metric
    values the request asks for. *)
Definition well_formed_report (r : report) : Prop :=
  match rows r with
  | Some (row :: _) => (2 <= length (metricValues row))%nat
  | _ => True
  end.

Definition is_write (ev : event) : bool :=
  match ev with WriteFileSync _ _ => true | _ => false end.

(** All the effects of a run, without their interleaving. *)
Definition effects (r : run_result) : list event :=
  shopify_log r ++ ga_log r ++ main_log r.

(** ** Link headers *)


Definition url_part (seg : jsstring) : jsstring := hd [] (map trim (split 59%N seg)).

Definition rel_part (seg : jsstring) : option jsstring :=
  nth_error (map trim (split 59%N seg)) 1.

(** The relation part of the segment is exactly [rel="next"]. *)
Definition is_next (seg : jsstring) : bool :=
  match rel_part seg with
  | Some r => jseq r rel_next
  | None => false
  end.

(** A run of cursor characters stops at [post]: at the end of the text or
    in front of [&] or [>]. *)
Definition stops (post : jsstring) : Prop :=
  match post with
  | [] => True
  | c :: _ => cursor_char c = false
  end.

(** [u] reads [pre], then [page_info=], then the non-empty cursor token
    [tok], then [post]. *)
Definition occurrence (u pre tok post : jsstring) : Prop :=
  u = pre ++ js "page_info=" ++ tok ++ post
  /\ tok <> []
  /\ Forall (fun c => cursor_char c = true) tok
  /\ stops post.

(** The occurrence that starts leftmost. *)
Definition first_occurrence (u pre tok post : jsstring) : Prop :=
  occurrence u pre tok post
  /\ forall pre' tok' post', occurrence u pre' tok' post' ->
                             (length pre <= length pre')%nat.


(** ** Order pages *)

(** The orders of a response that is a success and carries an [orders]
    array. *)
Definition orders_of (res : response) : option (list order) :=
  if ok res then
    match json res with
    | Some data => Page.orders data
    | None => None
    end
  else None.

Definition successful (res : response) : bool :=
  match orders_of res with Some _ => true | None => false end.

Definition page_orders (res : response) : list order :=
  match orders_of res with Some l => l | None => [] end.

(** The Link header of the response names a next page, with a cursor that
    can be put in a URL. *)
Definition has_cursor (res : response) : bool :=
  match getNextPage (link res) with
  | Return (Some c) =>
      match encodeURIComponent c with Return _ => true | _ => false end
  | _ => false
  end.

(** The Link header of the response names no next page. *)
Definition last_page (res : response) : bool :=
  match getNextPage (link res) with
  | Return None => true
  | _ => false
  end.

(** Successful pages, each of which names a next page. *)
Definition chained (pages : list response) : bool :=
  forallb (fun res => successful res && has_cursor res) pages.

(** A sequence of successful paged responses: every page but the last names
    a next page, and the last names none. *)
Fixpoint paged (pages : list response) : bool :=
  match pages with
  | [] => false
  | res :: rest =>
      successful res
      && match rest with
         | [] => last_page res
         | _ :: _ => has_cursor res && paged rest
         end
  end.

Definition all_orders (pages : list response) : list order :=
  concat (map page_orders pages).

(** The value of an order: its parsed price, and 0 when the price is
    missing or empty. *)
Definition price_value (o : order) : number :=
  match total_price o with
  | Some (c :: s) => parseFloat (c :: s)
  | _ => S754_zero false
  end.

(** The sum of the prices in the order of the pages, from 0. *)
Definition total_sales (os : list order) : number :=
  fold_left Number_add (map price_value os) (S754_zero false).

(** The value the specification gives an order: 0 as well when the price is
    not numeric. *)
Definition claimed_value (o : order) : number :=
  match price_value o with
  | S754_nan => S754_zero false
  | v => v
  end.

Definition claimed_sales (os : list order) : number :=
  fold_left Number_add (map claimed_value os) (S754_zero false).

(** The cursor can be sent: [fetchUrl] is computed without an exception. *)
Definition sendable (pageInfo : option jsstring) : bool :=
  if truthy_opt pageInfo then
    match encodeURIComponent (match pageInfo with Some p => p | None => [] end) with
    | Return _ => true
    | _ => false
    end
  else true.

Definition is_fetch (ev : event) : bool :=
  match ev with Fetch _ _ => true | _ => false end.

(** The text after the digits of a numeral: nothing, or something that is
    no digit. *)
Definition ends_digits (t : jsstring) : Prop :=
  match t with
  | [] => True
  | c :: _ => is_digit c = false
  end.

(** ** Rounding *)

(** [n] is the integer nearest to [num / den], the larger of the two at a
    tie; [0 < den]. *)
Definition nearest_integer (num den n : Z) : Prop :=
  (2 * n - 1) * den <= 2 * num < (2 * n + 1) * den.

(** The value of the Number [y] is exactly the integer [n]. *)
Definition is_integer (y : number) (n : Z) : Prop :=
  match y with
  | S754_zero _ => n = 0
  | S754_finite s m e => numerator s m e = n * denominator e
  | _ => False
  end.

(** [y] is [x] rounded to the nearest integer; NaN, the infinities and the
    zeros are left as they are. *)
Definition rounded_to_integer (x y : number) : Prop :=
  match x with
  | S754_finite s m e =>
      exists n, nearest_integer (numerator s m e) (denominator e) n /\ is_integer y n
  | _ => y = x
  end.

(** [y] is [x] rounded to two decimals: the Number of [n / 100] for the
    integer [n] nearest to [100 |x|], with the sign of [x]. From [10^21] on
    [x] is an integer, and [y] is the Number of that integer. NaN and the
    infinities are left as they are, and a zero becomes [+0]. *)
Definition rounded_to_cents (x y : number) : Prop :=
  match x with
  | S754_finite s m e =>
      let num := numerator false m e in
      let den := denominator e in
      if 10 ^ 21 * den <=? num then y = Z2num (cond_Zopp s (num / den))
      else exists n, nearest_integer (100 * num) den n /\ y = round_decimal s n (-2)
  | S754_zero _ => y = S754_zero false
  | _ => y = x
  end.

(** A completion that returned or raised URIError. *)
Definition settled (c : completion jsstring) : Prop :=
  (exists t, c = Return t) \/ c = Throw URIError.

(** ** Examples of the specification *)

Definition quoted (s : string) : jsstring := dquote :: js s ++ [dquote].

(** [<url1>; rel="prev", <url2?page_info=ABC>; rel="next"] *)
Definition link_prev_next : jsstring :=
  js "<https://shop.example/admin/api/2024-07/orders.json?page_info=PREV>; rel="
  ++ quoted "prev"
  ++ js ", <https://shop.example/admin/api/2024-07/orders.json?limit=250&page_info=ABC>; rel="
  ++ quoted "next".

(** A header whose cursor is percent-encoded. *)
Definition link_encoded : jsstring :=
  js "<https://shop.example/orders.json?page_info=a%2Fb%3D%3D&limit=250>; rel=" ++ quoted "next".

(** A header with relation "prev" only. *)
Definition link_prev_only : jsstring :=
  js "<https://shop.example/orders.json?page_info=PREV>; rel=" ++ quoted "prev".





(** An environment with every variable set, and one with none. *)
Definition env_full : environment :=
  {| SHOPIFY_STORE := Some (js "example.myshopify.com");
     SHOPIFY_ADMIN_TOKEN := Some (js "shpat_token");
     GA4_PROPERTY_ID := Some (js "123456");
     GA4_CLIENT_EMAIL := Some (js "svc@example.iam.gserviceaccount.com");
     GA4_PRIVATE_KEY := Some (js "-----BEGIN KEY-----\nabc\n-----END KEY-----");
     SEGMENT_SHOPIFY_QUERY := Some (js "tag:Wholesale");
     SEGMENT_GA_FILTER := Some (js "{not json") |}.

Definition env_empty : environment :=
  {| SHOPIFY_STORE := None;
     SHOPIFY_ADMIN_TOKEN := None;
     GA4_PROPERTY_ID := None;
     GA4_CLIENT_EMAIL := None;
     GA4_PRIVATE_KEY := None;
     SEGMENT_SHOPIFY_QUERY := None;
     SEGMENT_GA_FILTER := None |}.

Definition window_example : window :=
  {| processed_at_min := js "2024-01-02T03:04:05.678Z";
     processed_at_max := js "2024-03-31T03:04:05.678Z" |}.

(** A reporting service that answers every request with one row,
    [sessions = 1000] and [conversionRate = 0.025], followed by a second row,
    and whose [JSON.parse] accepts [null] alone. *)
Definition ga_example : analytics :=
  {| JSON_parse := fun s => if jseq s (js "null") then Some JNull else None;
     runReport := fun _ =>
       Return {| rows := Some [ {| metricValues := [js "1000"; js "0.025"] |};
                                {| metricValues := [js "7"; js "0.5"] |} ] |} |}.

Definition disk_example : file_system :=
  {| dest := js "/repo/public/data/segment.json";
     dest_dir := js "/repo/public/data";
     mkdirSync := fun _ => None;
     writeFileSync := fun _ _ => None |}.

(** A run with no Shopify credentials. *)
Definition world_no_shopify : world :=
  {| env := {| SHOPIFY_STORE := None;
               SHOPIFY_ADMIN_TOKEN := None;
               GA4_PROPERTY_ID := GA4_PROPERTY_ID env_full;
               GA4_CLIENT_EMAIL := GA4_CLIENT_EMAIL env_full;
               GA4_PRIVATE_KEY := GA4_PRIVATE_KEY env_full;
               SEGMENT_SHOPIFY_QUERY := None;
               SEGMENT_GA_FILTER := None |};
     clock := window_example;
     shopify_api := [];
     ga_api := ga_example;
     disk := disk_example;
     settles_first := AnalyticsFirst |}.

(** The two pages of the specification: two orders that sum to 19.98 and a
    next cursor, then one order of 5.00 and no cursor. *)
Definition priced (p : string) : order :=
  {| total_price := Some (js p); created_at := Some (js "2024-02-03T04:05:06-05:00") |}.

Definition page_one : response :=
  {| status := 200;
     link := Some link_prev_next;
     text := [];
     json := Some {| Page.orders := Some [priced "9.99"; priced "9.99"] |} |}.

Definition page_two : response :=
  {| status := 200;
     link := Some link_prev_only;
     text := [];
     json := Some {| Page.orders := Some [priced "5.00"] |} |}.

(** A first page whose two orders also sum to 19.98. *)
Definition page_one_uneven : response :=
  {| status := 200;
     link := Some link_prev_next;
     text := [];
     json := Some {| Page.orders := Some [priced "0.08"; priced "19.90"] |} |}.

(** A page with one order whose price is not numeric. *)
Definition page_not_numeric : response :=
  {| status := 200;
     link := None;
     text := [];
     json := Some {| Page.orders := Some [priced "n/a"] |} |}.


Definition page_no_orders : response :=
  {| status := 200;
     link := None;
     text := js "{}";
     json := Some {| Page.orders := None |} |}.

(** The two results of the specification: 10 orders for 199.996, and 500.4
    sessions converting at 0.03333. *)
Definition shopify_example : Shopify.result :=
  {| Shopify.orders := 10; Shopify.sales := parseFloat (js "199.996") |}.

Definition analytics_example : GA.result :=
  {| GA.sessions := parseFloat (js "500.4");
     GA.conversionRate := parseFloat (js "0.03333") |}.

(** ** Further vocabulary *)

(** A string of UTF-16 code units. *)
Definition well_formed (s : jsstring) : Prop := Forall (fun c => (c < 65536)%N) s.

(** The characters [encodeURIComponent] can produce: the unreserved ones and
    the percent sign. *)
Definition url_safe (c : code_unit) : bool := uri_unescaped c || (c =? 37)%N.

(** The text [p] occurs in [s]. *)
Fixpoint contains (p s : jsstring) : bool :=
  match strip_prefix p s with
  | Some _ => true
  | None =>
      match s with
      | [] => false
      | _ :: s' => contains p s'
      end
  end.

(** A Link header with one segment of relation "next", in which [before] is
    followed by the [page_info] parameter with the value [q]. *)
Definition next_link (before q : jsstring) : jsstring :=
  before ++ js "&page_info=" ++ q ++ js ">; rel=" ++ quoted "next".

(** The text after the semicolon of a next segment. *)
Definition rel_tail : jsstring := js " rel=" ++ quoted "next".

(** The request URL of the script up to its last parameter, as a next link
    would repeat it; its [fields] value holds a comma. *)
Definition link_before : jsstring :=
  js "<https://shop.example/admin/api/2024-07/orders.json?status=any&limit=250&fields=total_price,created_at".

Definition cursor_example : jsstring := js "a b/c=".

Definition cursor_encoded : jsstring := js "a%20b%2Fc%3D".

(** A next link whose cursor stands in front of a comma of the URL. *)
Definition link_cursor_before_comma : jsstring :=
  js "<https://shop.example/admin/api/2024-07/orders.json?page_info=ABC&fields=total_price".

(** A next link with a parameter between the URL and the relation. *)
Definition link_url : jsstring :=
  js "<https://shop.example/admin/api/2024-07/orders.json?page_info=ABC>".

Definition link_title : jsstring := js " title=orders".

(** [fetchUrl] at a turn of the loop. *)
Definition fetch_url (url : jsstring) (pageInfo : option jsstring) : completion jsstring :=
  if truthy_opt pageInfo
  then bindC (encodeURIComponent (match pageInfo with Some p => p | None => [] end))
             (fun q => Return (url ++ js "&page_info=" ++ q))
  else Return url.

(** What a turn of the loop does once its request is answered by [res]:
    it goes on with a cursor, returns, or throws; [Hangs] stands for a call
    of [getNextPage] that does not complete, which never happens. *)
Inductive turn :=
  | Goes_on (cursor : jsstring) (orders : list order)
  | Stops (orders : list order)
  | Breaks (e : js_error)
  | Hangs.

Definition turn_of (res : response) : turn :=
  if ok res then
    match json res with
    | None => Breaks SyntaxError
    | Some data =>
        match Page.orders data with
        | None => Breaks TypeError
        | Some l =>
            match getNextPage (link res) with
            | Return (Some c) => if truthy c then Goes_on c l else Stops l
            | Return None => Stops l
            | Throw e => Breaks e
            | Pending => Hangs
            end
        end
    end
  else Breaks (api_error res).

(** The request URL of [env_full] over [window_example]. *)
Definition url_example : jsstring :=
  js "https://example.myshopify.com/admin/api/2024-07/orders.json?status=any&limit=250&fields=total_price,created_at&processed_at_min=2024-01-02T03%3A04%3A05.678Z&processed_at_max=2024-03-31T03%3A04%3A05.678Z&query=tag%3AWholesale".

(** The two characters the key replacement looks for: a backslash and [n]. *)
Definition escaped_newline : jsstring := [92%N; 110%N].

(** A reporting service whose [JSON.parse] accepts [null] and which answers
    with a first row of one metric value only. *)
Definition ga_short_row : analytics :=
  {| JSON_parse := fun s => if jseq s (js "null") then Some JNull else None;
     runReport := fun _ => Return {| rows := Some [ {| metricValues := [js "1000"] |} ] |} |}.

(** The environment with the analytics filter [null]. *)
Definition env_filter_null : environment :=
  {| SHOPIFY_STORE := SHOPIFY_STORE env_full;
     SHOPIFY_ADMIN_TOKEN := SHOPIFY_ADMIN_TOKEN env_full;
     GA4_PROPERTY_ID := GA4_PROPERTY_ID env_full;
     GA4_CLIENT_EMAIL := GA4_CLIENT_EMAIL env_full;
     GA4_PRIVATE_KEY := GA4_PRIVATE_KEY env_full;
     SEGMENT_SHOPIFY_QUERY := SEGMENT_SHOPIFY_QUERY env_full;
     SEGMENT_GA_FILTER := Some (js "null") |}.

(** A disk on which the directory cannot be made, and one that is full. *)
Definition disk_no_directory : file_system :=
  {| dest := js "/repo/public/data/segment.json";
     dest_dir := js "/repo/public/data";
     mkdirSync := fun _ => Some (Error (js "EACCES"));
     writeFileSync := fun _ _ => None |}.

Definition disk_full : file_system :=
  {| dest := js "/repo/public/data/segment.json";
     dest_dir := js "/repo/public/data";
     mkdirSync := fun _ => None;
     writeFileSync := fun _ _ => Some (Error (js "ENOSPC")) |}.

(** The run of [env_full] on the disk [fs] against the replies [net]. *)
Definition world_on (fs : file_system) (net : list fetch_reply) : world :=
  {| env := env_full;
     clock := window_example;
     shopify_api := net;
     ga_api := ga_example;
     disk := fs;
     settles_first := ShopifyFirst |}.

(* ================================================================== *)
(** * Order pages of any shape *)

(** [Page.t] reads the body of a response through the schema of the Admin
    API. The script itself checks no schema: it reads [data.orders] of
    whatever [res.json()] gives, runs over it with [for ... of] and reads
    [total_price] of each element. This part embeds the loop over every
    value of [JSON.parse], with the conversions of the language written
    out; on the bodies of the schema it is the loop over typed pages
    ([raw_fetchShopify_typed]). *)

(** ** [Number.prototype.toString] *)

(** [10^t <= num / den], for positive [num] and [den]. *)
Definition pow10_le (t num den : Z) : bool :=
  if 0 <=? t then 10 ^ t * den <=? num else den <=? num * 10 ^ (- t).

(** [floor (num / (den × 10^p))] *)
Definition scaled_floor (num den p : Z) : Z :=
  if 0 <=? p then num / (den * 10 ^ p) else (num * 10 ^ (- p)) / den.

(** The [q] with [10^q <= num / den < 10^(q+1)]: the difference of the
    numbers of digits, or one less. *)
Definition floor_log10 (num den : Z) : Z :=
  let t := Z.of_nat (length (decimal num)) - Z.of_nat (length (decimal den)) in
  if pow10_le t num den then t else t - 1.

(** The shortest decimal [(s, p)], meaning [s × 10^p], that reads back as
    the positive Number [x = num / den]; [k] is the number of digits tried.
    Of two candidates of one length, the closer to [x] is taken, the even
    one on a tie. *)
Fixpoint shortest_digits (fuel : nat) (k q num den : Z) (x : number) : Z * Z :=
  match fuel with
  | O => (0, 0)
  | S f =>
      let p := q + 1 - k in
      let lo := scaled_floor num den p in
      let hi := lo + 1 in
      let a := if 0 <=? p then num else num * 10 ^ (- p) in
      let b := if 0 <=? p then den * 10 ^ p else den in
      let ok_lo := number_eqb (round_decimal false lo p) x in
      let ok_hi := number_eqb (round_decimal false hi p) x in
      if ok_lo && ok_hi then
        match (a - lo * b) ?= (hi * b - a) with
        | Lt => (lo, p)
        | Gt => (hi, p)
        | Eq => if Z.even lo then (lo, p) else (hi, p)
        end
      else if ok_lo then (lo, p)
      else if ok_hi then (hi, p)
      else shortest_digits f (k + 1) q num den x
  end.

(** [String(x)]: with [k] digits [ds] and the decimal point after the
    [n]-th of them, plain notation for [-6 < n <= 21] and exponential
    notation otherwise. *)
Definition Number_toString (x : number) : jsstring :=
  match x with
  | S754_nan => js "NaN"
  | S754_zero _ => js "0"
  | S754_infinity s => (if s then js "-" else []) ++ js "Infinity"
  | S754_finite s m e =>
      let num := numerator false m e in
      let den := denominator e in
      let '(s0, p0) := shortest_digits 17 1 (floor_log10 num den) num den
                         (binary_normalize prec emax (Zpos m) e false) in
      let '(d, p) := strip_zeros 17 s0 p0 in
      let ds := decimal d in
      let k := Z.of_nat (length ds) in
      let n := k + p in
      (if s then js "-" else []) ++
      if (k <=? n) && (n <=? 21) then ds ++ repeat 48%N (Z.to_nat (n - k))
      else if (0 <? n) && (n <=? 21) then
        firstn (Z.to_nat n) ds ++ 46%N :: skipn (Z.to_nat n) ds
      else if (-6 <? n) && (n <=? 0) then
        js "0." ++ repeat 48%N (Z.to_nat (- n)) ++ ds
      else
        let es := (if 0 <=? n - 1 then js "+" else js "-") ++ decimal (Z.abs (n - 1)) in
        match ds with
        | [] => []
        | c :: [] => c :: js "e" ++ es
        | c :: rest => c :: 46%N :: rest ++ js "e" ++ es
        end
  end.

(** ** Values of [JSON.parse] under the operations of the loop *)

(** The own property [key] of an object, the last of its members of that
    name. *)
Definition lookup (key : jsstring) (members : list (jsstring * json_value))
  : option json_value :=
  fold_left (fun found m => if jseq (fst m) key then Some (snd m) else found)
            members None.

(** [v.key] for a key that no built-in prototype defines and that is no
    index, as [orders] and [total_price] are: TypeError on [null],
    [undefined] ([None]) on a Boolean, a Number, a String, an Array and on an
    object without the key. *)
Definition get (v : json_value) (key : jsstring) : completion (option json_value) :=
  match v with
  | JNull => Throw TypeError
  | JObject members => Return (lookup key members)
  | _ => Return None
  end.

(** The strings the iterator of a String yields: one per code point, a
    surrogate pair together. *)
Fixpoint code_points (s : jsstring) : list jsstring :=
  match s with
  | [] => []
  | c :: s' =>
      match s' with
      | d :: s'' =>
          if is_lead_surrogate c && is_trail_surrogate d
          then [c; d] :: code_points s''
          else [c] :: code_points s'
      | [] => [[c]]
      end
  end.

(** Arrays and Strings are the iterable values of [JSON.parse]. *)
Definition iterable (v : option json_value) : bool :=
  match v with
  | Some (JArray _) | Some (JString _) => true
  | _ => false
  end.

(** The values [for (const order of v)] runs over; TypeError when [v] is
    not iterable. *)
Definition iterate (v : option json_value) : completion (list json_value) :=
  match v with
  | Some (JArray items) => Return items
  | Some (JString s) => Return (map JString (code_points s))
  | _ => Throw TypeError
  end.

(** ToBoolean *)
Definition truthy_value (v : option json_value) : bool :=
  match v with
  | None => false
  | Some JNull => false
  | Some (JBool b) => b
  | Some (JNumber x) =>
      match x with
      | S754_zero _ | S754_nan => false
      | _ => true
      end
  | Some (JString s) => truthy s
  | Some (JArray _) => true
  | Some (JObject _) => true
  end.

(** ToString. An Array joins its elements with commas, [null] counting as
    the empty string. An object has no callable [toString] of its own: it
    is [[object Object]] by [Object.prototype.toString], unless a member
    named [toString] hides that method, in which case no method gives a
    primitive and the conversion throws TypeError. *)
Fixpoint ToString (v : json_value) : completion jsstring :=
  match v with
  | JNull => Return (js "null")
  | JBool b => Return (if b then js "true" else js "false")
  | JNumber x => Return (Number_toString x)
  | JString s => Return s
  | JArray items =>
      (fix join (l : list json_value) : completion jsstring :=
         match l with
         | [] => Return []
         | x :: rest =>
             bindC (match x with JNull => Return [] | _ => ToString x end)
               (fun first =>
                  match rest with
                  | [] => Return first
                  | _ :: _ => bindC (join rest)
                                (fun others => Return (first ++ 44%N :: others))
                  end)
         end) items
  | JObject members =>
      match lookup (js "toString") members with
      | Some _ => Throw TypeError
      | None => Return (js "[object Object]")
      end
  end.

(** [parseFloat(order.total_price || 0)] *)
Definition price (order : json_value) : completion number :=
  bindC (get order (js "total_price")) (fun p =>
  let v := match p with
           | Some x => if truthy_value p then x else JNumber (S754_zero false)
           | None => JNumber (S754_zero false)
           end in
  bindC (ToString v) (fun s => Return (parseFloat s))).

(** The price of the order can be read. *)
Definition readable (order : json_value) : bool :=
  match price order with Return _ => true | _ => false end.

(** What the order adds to the sales, NaN standing for an order that cannot
    be read. *)
Definition price_of (order : json_value) : number :=
  match price order with Return x => x | _ => NaN end.

(** Count and sum after the orders [l], from [acc]. *)
Definition tally (l : list json_value) (acc : Z * number) : Z * number :=
  fold_left (fun a o => (increment (fst a), Number_add (snd a) (price_of o))) l acc.

Module Raw.

(** What the script reads of a [fetch] response, with the two reads of the
    body as the promises they are: [await res.text()], and [await res.json()]
    which rejects with SyntaxError when the body is not JSON and fulfils with
    a value of any shape otherwise. *)
Record response := {
  status : N;
  link : option jsstring;
  text : completion jsstring;
  json : completion json_value
}.

(** [res.ok] *)
Definition ok (res : response) : bool :=
  ((200 <=? status res) && (status res <=? 299))%N.

Inductive reply :=
  | Responds (res : response)
  | Fails (e : js_error).

Definition api_error (res : response) (body : jsstring) : js_error :=
  Error (js "Shopify API error " ++ decimal (Z.of_N (status res)) ++ js ": " ++ body).

(** The body of the [for] loop over [data.orders]. *)
Definition add_order (acc : Z * number) (order : json_value) : completion (Z * number) :=
  bindC (price order)
        (fun x => Return (increment (fst acc), Number_add (snd acc) x)).

Fixpoint add_orders (l : list json_value) (acc : Z * number) : completion (Z * number) :=
  match l with
  | [] => Return acc
  | order :: rest => bindC (add_order acc order) (add_orders rest)
  end.

(** The [do ... while (pageInfo)] loop over replies of any shape. *)
Fixpoint fetch_pages (url token : jsstring) (net : list reply)
    (pageInfo : option jsstring) (orders : Z) (sales : number)
  : M Shopify.result :=
  fetchUrl <- lift (fetch_url url pageInfo) ;;
  emit (Fetch fetchUrl token) ;;
  match net with
  | [] => lift Pending
  | Fails e :: _ => throw e
  | Responds res :: net' =>
      if negb (ok res) then
        body <- lift (text res) ;;
        throw (api_error res body)
      else
        data <- lift (json res) ;;
        list_orders <- lift (bindC (get data (js "orders")) iterate) ;;
        acc <- lift (add_orders list_orders (orders, sales)) ;;
        next <- lift (getNextPage (link res)) ;;
        if truthy_opt next
        then fetch_pages url token net' next (fst acc) (snd acc)
        else ret {| Shopify.orders := fst acc; Shopify.sales := snd acc |}
  end.

Definition fetchShopify (env : environment) (w : window) (net : list reply)
  : M Shopify.result :=
  if negb (truthy_opt (SHOPIFY_STORE env)) || negb (truthy_opt (SHOPIFY_ADMIN_TOKEN env))
  then throw (Error missing_shopify)
  else
    let token := match SHOPIFY_ADMIN_TOKEN env with Some s => s | None => [] end in
    url <- lift (request_url env w) ;;
    fetch_pages url token net None 0 (S754_zero false).

(** *** Vocabulary *)

(** [data.orders] of the body. *)
Definition orders_value (res : response) : completion (option json_value) :=
  bindC (json res) (fun data => get data (js "orders")).

(** The orders the loop runs over. *)
Definition orders_of (res : response) : completion (list json_value) :=
  bindC (orders_value res) iterate.

Definition page_orders (res : response) : list json_value :=
  match orders_of res with Return l => l | _ => [] end.

(** A success whose orders can all be read. *)
Definition successful (res : response) : bool :=
  ok res && match orders_of res with
            | Return l => forallb readable l
            | _ => false
            end.

Definition has_cursor (res : response) : bool :=
  match getNextPage (link res) with
  | Return (Some c) =>
      match encodeURIComponent c with Return _ => true | _ => false end
  | _ => false
  end.

Definition last_page (res : response) : bool :=
  match getNextPage (link res) with
  | Return None => true
  | _ => false
  end.

Definition chained (pages : list response) : bool :=
  forallb (fun res => successful res && has_cursor res) pages.

Fixpoint paged (pages : list response) : bool :=
  match pages with
  | [] => false
  | res :: rest =>
      successful res
      && match rest with
         | [] => last_page res
         | _ :: _ => has_cursor res && paged rest
         end
  end.

Definition all_orders (pages : list response) : list json_value :=
  concat (map page_orders pages).

(** What a turn of the loop does once its request is answered by [res],
    with the count and the sum so far. *)
Inductive turn :=
  | Goes_on (cursor : jsstring) (acc : Z * number)
  | Stops (acc : Z * number)
  | Breaks (e : js_error)
  | Hangs.

Definition turn_of (res : response) (acc : Z * number) : turn :=
  if ok res then
    match bindC (orders_of res) (fun l => add_orders l acc) with
    | Return acc' =>
        match getNextPage (link res) with
        | Return (Some c) => if truthy c then Goes_on c acc' else Stops acc'
        | Return None => Stops acc'
        | Throw e => Breaks e
        | Pending => Hangs
        end
    | Throw e => Breaks e
    | Pending => Hangs
    end
  else
    match text res with
    | Return body => Breaks (api_error res body)
    | Throw e => Breaks e
    | Pending => Hangs
    end.

(** Why the response [res] makes the fetch fail with [e]: it is an error
    status, reported with its body unless reading the body fails; the body
    of a success cannot be read as JSON; [data.orders] cannot be read or
    run over, or the price of one of its elements cannot be read; the next
    page is named by a cursor that cannot be decoded or encoded. *)
Definition page_failure (res : response) (e : js_error) : Prop :=
  (ok res = false
   /\ ((exists body, text res = Return body /\ e = api_error res body)
       \/ text res = Throw e))
  \/ (ok res = true /\ json res = Throw e)
  \/ (ok res = true /\ e = TypeError
      /\ exists data, json res = Return data
         /\ (get data (js "orders") = Throw TypeError
             \/ (exists v, get data (js "orders") = Return v /\ iterable v = false)
             \/ exists items, orders_of res = Return items
                              /\ Exists (fun o => readable o = false) items))
  \/ (successful res = true /\ e = URIError
      /\ (getNextPage (link res) = Throw URIError
          \/ exists c, getNextPage (link res) = Return (Some c)
                       /\ encodeURIComponent c = Throw URIError)).

End Raw.

(** ** Pages of the Admin API as pages of any shape *)

Definition order_json (o : order) : json_value :=
  JObject ((match total_price o with
            | Some s => [(js "total_price", JString s)]
            | None => []
            end)
           ++ match created_at o with
              | Some s => [(js "created_at", JString s)]
              | None => []
              end).

Definition page_json (data : Page.t) : json_value :=
  JObject match Page.orders data with
          | Some l => [(js "orders", JArray (map order_json l))]
          | None => []
          end.

Definition raw_response (res : response) : Raw.response :=
  {| Raw.status := status res;
     Raw.link := link res;
     Raw.text := Return (text res);
     Raw.json := match json res with
                 | Some data => Return (page_json data)
                 | None => Throw SyntaxError
                 end |}.

Definition raw_reply (r : fetch_reply) : Raw.reply :=
  match r with
  | Responds res => Raw.Responds (raw_response res)
  | Fails e => Raw.Fails e
  end.

(** ** Bodies that carry no orders array *)

(** A success with the body [body] and no Link header. *)
Definition page_with (body : json_value) : Raw.response :=
  {| Raw.status := 200;
     Raw.link := None;
     Raw.text := Return [];
     Raw.json := Return body |}.

(** [{"orders": ""}], [{"orders": "ab"}], [{"orders": null}] and
    [{"orders": [null]}]. *)
Definition orders_empty_string : json_value := JObject [(js "orders", JString [])].
Definition orders_string : json_value := JObject [(js "orders", JString (js "ab"))].
Definition orders_null : json_value := JObject [(js "orders", JNull)].
Definition orders_null_element : json_value := JObject [(js "orders", JArray [JNull])].

(* ================================================================== *)
(** * Properties *)

(** ** Strings *)

Lemma truthy_true_iff (s : jsstring) : truthy s = true <-> s <> [].
Proof. destruct s; simpl; split; congruence. Qed.

Lemma unescape_newlines_truthy (k : jsstring) :
  truthy (unescape_newlines k) = truthy k.
Proof.
  destruct k as [|c k]; [reflexivity|].
  cbn [unescape_newlines truthy].
  repeat match goal with
         | |- context [match ?x with _ => _ end] => destruct x
         end; reflexivity.
Qed.

Lemma private_key_truthy (env : environment) :
  truthy_opt (private_key env) = truthy_opt (GA4_PRIVATE_KEY env).
Proof.
  unfold private_key. destruct (GA4_PRIVATE_KEY env) as [k|]; [|reflexivity].
  destruct (truthy k) eqn:E; simpl; [|reflexivity].
  apply unescape_newlines_truthy.
Qed.

(** ** Missing credentials *)

(** C7: each client fails with its descriptive error, and with no effect at
    all (so before any network call), whenever one of its required
    variables is unset or blank. *)
Theorem missing_credentials_fail_fast (env : environment) (w : window)
    (net : list fetch_reply) (ga : analytics) :
  (absent (SHOPIFY_STORE env) \/ absent (SHOPIFY_ADMIN_TOKEN env) ->
   fetchShopify env w net = ([], Throw (Error missing_shopify)))
  /\ (absent (GA4_PROPERTY_ID env) \/ absent (GA4_CLIENT_EMAIL env)
      \/ absent (GA4_PRIVATE_KEY env) ->
      fetchGA4 env ga = ([], Throw (Error missing_ga4))).
Proof.
  unfold absent, fetchShopify, fetchGA4. rewrite private_key_truthy. split.
  - intros [H|H]; rewrite H; simpl; rewrite ?orb_true_r; reflexivity.
  - intros [H|[H|H]]; rewrite H; simpl; rewrite ?orb_true_r; reflexivity.
Qed.

(** ** Computations *)

Lemma snd_bind {A B} (m : M A) (k : A -> M B) :
  snd (bind m k) = bindC (snd m) (fun a => snd (k a)).
Proof.
  destruct m as [log [a|e|]]; simpl; [|reflexivity|reflexivity].
  destruct (k a); reflexivity.
Qed.

Lemma fst_bind {A B} (m : M A) (k : A -> M B) :
  fst (bind m k) =
  fst m ++ match snd m with Return a => fst (k a) | _ => [] end.
Proof.
  destruct m as [log [a|e|]]; simpl; rewrite ?app_nil_r; try reflexivity.
  destruct (k a); reflexivity.
Qed.

Lemma bind_ret {A B} (a : A) (k : A -> M B) : bind (ret a) k = k a.
Proof. unfold bind, ret. destruct (k a); reflexivity. Qed.

Lemma bind_lift_return {A B} (a : A) (k : A -> M B) : bind (lift (Return a)) k = k a.
Proof. apply bind_ret. Qed.

Lemma bind_throw {A B} (e : js_error) (k : A -> M B) : bind (throw e) k = throw e.
Proof. reflexivity. Qed.

Lemma bind_emit {B} (ev : event) (k : unit -> M B) :
  bind (emit ev) k = (ev :: fst (k tt), snd (k tt)).
Proof. unfold bind, emit. destruct (k tt); reflexivity. Qed.

Create Rewrite HintDb js_monad.
#[local] Hint Rewrite @bind_ret @bind_lift_return @bind_emit : js_monad.

(** ** The analytics client *)

Lemma fetchGA4_with_credentials (env : environment) (ga : analytics) :
  ga4_credentials env ->
  fetchGA4 env ga =
  (request <- report_request_of env ga ;;
   emit (RunReport (match GA4_CLIENT_EMAIL env with Some s => s | None => [] end)
                   (match private_key env with Some s => s | None => [] end)
                   request) ;;
   response <- lift (runReport ga request) ;;
   summary response).
Proof.
  intros (Hp & He & Hk). unfold fetchGA4.
  rewrite private_key_truthy, Hp, He, Hk. reflexivity.
Qed.

Lemma report_request_of_returns (env : environment) (ga : analytics) :
  exists request, snd (report_request_of env ga) = Return request.
Proof.
  unfold report_request_of.
  destruct (truthy_opt (SEGMENT_GA_FILTER env)); [|eexists; reflexivity].
  destruct (JSON_parse ga _); eexists; reflexivity.
Qed.

Lemma summary_no_rows (response : report) :
  rows response = None \/ rows response = Some [] ->
  summary response =
  ([], Return {| GA.sessions := S754_zero false; GA.conversionRate := S754_zero false |}).
Proof. unfold summary. intros [H|H]; rewrite H; reflexivity. Qed.

Lemma summary_first_row (response : report) v0 v1 others more :
  rows response = Some ({| metricValues := v0 :: v1 :: others |} :: more) ->
  summary response =
  ([], Return {| GA.sessions := parseFloat v0; GA.conversionRate := parseFloat v1 |}).
Proof. unfold summary. intros H; rewrite H; reflexivity. Qed.

Lemma summary_well_formed (response : report) :
  well_formed_report response -> exists r, summary response = ([], Return r).
Proof.
  unfold well_formed_report. destruct (rows response) as [[|[mv] more]|] eqn:E.
  - intros _. eexists. apply summary_no_rows. now right.
  - simpl. destruct mv as [|v0 [|v1 others]]; simpl; try lia. intros _.
    eexists. eapply summary_first_row. exact E.
  - intros _. eexists. apply summary_no_rows. now left.
Qed.

Lemma fetchGA4_completion (env : environment) (ga : analytics) request :
  ga4_credentials env ->
  snd (report_request_of env ga) = Return request ->
  snd (fetchGA4 env ga) = bindC (runReport ga request) (fun r => snd (summary r)).
Proof.
  intros Hc Hr. rewrite (fetchGA4_with_credentials _ _ Hc).
  rewrite snd_bind, Hr. cbn [bindC]. rewrite snd_bind. cbn [emit snd bindC].
  rewrite snd_bind. reflexivity.
Qed.

(** C8: the result is read from the two metric values of the first row of
    the report, whatever rows follow it, and is zero for both when the
    report has no row. *)
Theorem fetchGA4_reads_first_row (env : environment) (ga : analytics)
    (request : report_request) (response : report) :
  ga4_credentials env ->
  snd (report_request_of env ga) = Return request ->
  runReport ga request = Return response ->
  (rows response = None \/ rows response = Some [] ->
   snd (fetchGA4 env ga) =
   Return {| GA.sessions := S754_zero false; GA.conversionRate := S754_zero false |})
  /\ (forall v0 v1 others more,
        rows response = Some ({| metricValues := v0 :: v1 :: others |} :: more) ->
        snd (fetchGA4 env ga) =
        Return {| GA.sessions := parseFloat v0; GA.conversionRate := parseFloat v1 |}).
Proof.
  intros Hc Hr Hrun.
  rewrite (fetchGA4_completion _ _ _ Hc Hr), Hrun. cbn [bindC]. split.
  - intros H. now rewrite (summary_no_rows _ H).
  - intros v0 v1 others more H. now rewrite (summary_first_row _ _ _ _ _ H).
Qed.

(** C6: with a filter that is set and is not JSON, the client warns once,
    sends the request without a dimension filter, and then completes exactly
    as it does with no filter: the failure to parse is never what makes it
    fail, and the result has the same shape. *)
Theorem invalid_filter_is_ignored (env : environment) (ga : analytics) (f : jsstring) :
  ga4_credentials env ->
  SEGMENT_GA_FILTER env = Some f -> f <> [] ->
  JSON_parse ga f = None ->
  let request :=
    base_request (match GA4_PROPERTY_ID env with Some s => s | None => [] end) in
  fst (fetchGA4 env ga) =
    [ConsoleWarn filter_warning;
     RunReport (match GA4_CLIENT_EMAIL env with Some s => s | None => [] end)
               (match private_key env with Some s => s | None => [] end)
               request]
  /\ dimensionFilter request = None
  /\ fetchGA4 env ga =
     (ConsoleWarn filter_warning :: fst (fetchGA4 (without_filter env) ga),
      snd (fetchGA4 (without_filter env) ga))
  /\ (forall response,
        runReport ga request = Return response -> well_formed_report response ->
        exists result, snd (fetchGA4 env ga) = Return result).
Proof.
  intros Hc Hf Hne Hparse request.
  assert (Ht : truthy f = true) by now apply truthy_true_iff.
  assert (Hc' : ga4_credentials (without_filter env)) by exact Hc.
  assert (Hreq : report_request_of env ga = ([ConsoleWarn filter_warning], Return request)).
  { unfold report_request_of. rewrite Hf. cbn [truthy_opt]. rewrite Ht, Hparse. reflexivity. }
  assert (Hreq' : report_request_of (without_filter env) ga = ([], Return request)) by reflexivity.
  assert (Hrun : fetchGA4 env ga =
                 (ConsoleWarn filter_warning :: fst (fetchGA4 (without_filter env) ga),
                  snd (fetchGA4 (without_filter env) ga))).
  { rewrite (fetchGA4_with_credentials _ _ Hc), (fetchGA4_with_credentials _ _ Hc').
    rewrite Hreq, Hreq'. cbn [bind ret emit app]. fold request.
    destruct (runReport ga request) as [r| |]; cbn [lift bind app fst snd]; try reflexivity.
    destruct (summary r); reflexivity. }
  split; [|split; [reflexivity|split; [exact Hrun|]]].
  - rewrite (fetchGA4_with_credentials _ _ Hc), Hreq. cbn [bind emit app]. fold request.
    destruct (runReport ga request) as [r| |] eqn:E; cbn [lift bind app fst snd]; try reflexivity.
    destruct (summary r) as [l c] eqn:Es.
    assert (Hl : l = []).
    { unfold summary in Es. destruct (match rows r with Some (r0 :: _) => Some r0 | _ => None end).
      - unfold metric in Es.
        destruct (nth_error (metricValues r0) 0), (nth_error (metricValues r0) 1);
          inversion Es; reflexivity.
      - inversion Es; reflexivity. }
    subst l. reflexivity.
  - intros response Hr Hwf.
    assert (Hs : snd (report_request_of env ga) = Return request) by now rewrite Hreq.
    rewrite (fetchGA4_completion _ _ _ Hc Hs), Hr. cbn [bindC].
    destruct (summary_well_formed _ Hwf) as [r Hr']. exists r. now rewrite Hr'.
Qed.

(** ** The aggregator *)

Lemma main_rejected (fs : file_system) (first : side)
    (s : completion Shopify.result) (g : completion GA.result) :
  (exists e, s = Throw e) \/ (exists e, g = Throw e) ->
  exists err, (s = Throw err \/ g = Throw err) /\ main fs first s g = ([], Throw err).
Proof.
  unfold main. intros [[e ->]|[e ->]].
  - destruct g as [y|e'|]; [exists e|destruct first; [exists e|exists e']|exists e];
      split; auto.
  - destruct s as [x|e'|]; [exists e|destruct first; [exists e'|exists e]|exists e];
      split; auto.
Qed.

Lemma main_writes_only_on_success (fs : file_system) (first : side)
    (s : completion Shopify.result) (g : completion GA.result) d o :
  In (WriteFileSync d o) (fst (main fs first s g)) ->
  exists rs rg, s = Return rs /\ g = Return rg /\ d = dest fs /\ o = compose rs rg.
Proof.
  unfold main. rewrite fst_bind. cbn [lift fst snd app].
  destruct s as [rs|e|], g as [rg|e'|]; cbn [Promise_all]; try (cbn; tauto).
  - intros H. exists rs, rg. cbn [fst snd] in H.
    destruct (mkdirSync fs (dest_dir fs)); cbn in H; [tauto|].
    destruct (writeFileSync fs (dest fs) (compose rs rg)); cbn in H.
    + destruct H as [H|[]]; discriminate.
    + destruct H as [H|[H|[H|[]]]]; try discriminate.
      inversion H; subst; auto.
Qed.

Lemma fetch_pages_never_writes url token net pageInfo orders sales ev :
  In ev (fst (fetch_pages url token net pageInfo orders sales)) -> is_write ev = false.
Proof.
  revert pageInfo orders sales.
  induction net as [|reply net IH]; intros pageInfo orders sales; cbn [fetch_pages];
    destruct (if truthy_opt pageInfo then _ else _) as [fetchUrl| |];
    try (cbn; tauto); rewrite bind_lift_return, bind_emit; cbn [fst In].
  - intros [<-|[]]; reflexivity.
  - intros [<-|H]; [reflexivity|]. revert H.
    destruct reply as [res|e]; [|cbn; tauto].
    destruct (ok res); [|cbn; tauto]. cbn [negb].
    destruct (json res) as [data|]; [|cbn; tauto]. rewrite bind_ret.
    destruct (Page.orders data) as [l|]; [|cbn; tauto]. rewrite bind_ret.
    destruct (getNextPage (link res)) as [next| |]; try (cbn; tauto).
    rewrite bind_lift_return.
    destruct (truthy_opt next); [|cbn; tauto].
    apply IH.
Qed.

Lemma fetchShopify_never_writes env w net ev :
  In ev (fst (fetchShopify env w net)) -> is_write ev = false.
Proof.
  unfold fetchShopify. destruct (_ || _); [cbn; tauto|].
  rewrite fst_bind. cbn [lift fst snd app].
  destruct (request_url env w); cbn; try tauto.
  apply fetch_pages_never_writes.
Qed.

Lemma fetchGA4_never_writes env ga ev :
  In ev (fst (fetchGA4 env ga)) -> is_write ev = false.
Proof.
  unfold fetchGA4. destruct (_ || _); [cbn; tauto|].
  rewrite fst_bind. intros H. apply in_app_or in H. destruct H as [H|H].
  - unfold report_request_of in H.
    destruct (truthy_opt (SEGMENT_GA_FILTER env)); [|destruct H].
    destruct (JSON_parse ga _); cbn in H; [tauto|].
    destruct H as [<-|[]]; reflexivity.
  - destruct (snd (report_request_of env ga)) as [request| |]; try destruct H.
    rewrite fst_bind in H. cbn [emit fst snd app In] in H.
    destruct H as [<-|H]; [reflexivity|].
    rewrite fst_bind in H. cbn [lift fst snd app] in H.
    destruct (runReport ga request) as [r| |]; try destruct H.
    unfold summary in H.
    destruct (match rows r with Some (r0 :: _) => Some r0 | _ => None end);
      [|destruct H].
    unfold metric in H.
    destruct (nth_error (metricValues r0) 0), (nth_error (metricValues r0) 1);
      destruct H.
Qed.

(** C4: when either fetch rejects, the run fails: the reason of a rejected
    fetch is printed, the process exits with status 1, and no effect of the
    run writes the output file. Conversely the file is written only when
    both fetches returned, and then with the record composed from both. *)
Theorem rejected_fetch_fails_the_run (w : world) :
  let shopify := snd (fetchShopify (env w) (clock w) (shopify_api w)) in
  let ga := snd (fetchGA4 (env w) (ga_api w)) in
  ((exists e, shopify = Throw e) \/ (exists e, ga = Throw e) ->
   (exists err, (shopify = Throw err \/ ga = Throw err)
                /\ main_log (run w) = [ConsoleError err; ProcessExit 1])
   /\ exit_status (run w) = Some 1
   /\ forall ev, In ev (effects (run w)) -> is_write ev = false)
  /\ (forall d o, In (WriteFileSync d o) (effects (run w)) ->
      exists rs rg, shopify = Return rs /\ ga = Return rg
                    /\ d = dest (disk w) /\ o = compose rs rg).
Proof.
  intros shopify ga. split.
  - intros H.
    destruct (main_rejected (disk w) (settles_first w) shopify ga H) as (err & Herr & Hm).
    unfold run, effects. cbn [shopify_log ga_log main_log exit_status].
    fold shopify ga. rewrite Hm. cbn [fst snd app].
    split; [exists err; auto|split; [reflexivity|]].
    intros ev Hin. apply in_app_or in Hin. destruct Hin as [Hin|Hin].
    + eapply fetchShopify_never_writes; eauto.
    + apply in_app_or in Hin. destruct Hin as [Hin|Hin].
      * eapply fetchGA4_never_writes; eauto.
      * destruct Hin as [<-|[<-|[]]]; reflexivity.
  - intros d o Hin. unfold run, effects in Hin.
    cbn [shopify_log ga_log main_log] in Hin. fold shopify ga in Hin.
    apply in_app_or in Hin. destruct Hin as [Hin|Hin].
    { apply fetchShopify_never_writes in Hin. discriminate. }
    apply in_app_or in Hin. destruct Hin as [Hin|Hin].
    { apply fetchGA4_never_writes in Hin. discriminate. }
    apply (main_writes_only_on_success (disk w) (settles_first w)).
    destruct (snd (main (disk w) (settles_first w) shopify ga)); auto.
    apply in_app_or in Hin. destruct Hin as [Hin|[Hin|[Hin|[]]]]; auto; discriminate.
Qed.

(** ** Scanning *)

Lemma take_drop_while (f : code_unit -> bool) (s : jsstring) :
  take_while f s ++ drop_while f s = s.
Proof.
  induction s as [|c s IH]; [reflexivity|]. simpl.
  destruct (f c); simpl; [now rewrite IH|reflexivity].
Qed.

Lemma take_while_all (f : code_unit -> bool) (s : jsstring) :
  Forall (fun c => f c = true) (take_while f s).
Proof.
  induction s as [|c s IH]; simpl; [constructor|].
  destruct (f c) eqn:E; constructor; assumption.
Qed.

Lemma drop_while_head (f : code_unit -> bool) (s : jsstring) :
  match drop_while f s with [] => True | c :: _ => f c = false end.
Proof.
  induction s as [|c s IH]; simpl; [exact I|].
  destruct (f c) eqn:E; [exact IH|exact E].
Qed.

Lemma take_while_app (f : code_unit -> bool) (a b : jsstring) :
  Forall (fun c => f c = true) a ->
  match b with [] => True | c :: _ => f c = false end ->
  take_while f (a ++ b) = a /\ drop_while f (a ++ b) = b.
Proof.
  intros Ha Hb. induction Ha as [|c a Hc Ha IH]; simpl.
  - destruct b as [|c b]; [auto|]. simpl. now rewrite Hb.
  - rewrite Hc. destruct IH as [-> ->]. auto.
Qed.

Lemma strip_prefix_spec (p s r : jsstring) :
  strip_prefix p s = Some r <-> s = p ++ r.
Proof.
  revert s. induction p as [|a p IH]; intros s; simpl.
  - split; congruence.
  - destruct s as [|b s]; [split; discriminate|].
    destruct (N.eqb_spec a b) as [->|Hne].
    + rewrite IH. split; congruence.
    + split; [discriminate|congruence].
Qed.

Lemma match_here_spec (s tok : jsstring) :
  match_here s = Some tok <-> exists post, occurrence s [] tok post.
Proof.
  unfold match_here, occurrence. split.
  - destruct (strip_prefix (js "page_info=") s) as [r|] eqn:E; [|discriminate].
    apply strip_prefix_spec in E.
    destruct (take_while cursor_char r) as [|c t] eqn:Et; [discriminate|].
    intros H; inversion H; subst tok. exists (drop_while cursor_char r).
    rewrite <- Et. split; [|split; [|split]].
    + cbn [app]. now rewrite take_drop_while.
    + rewrite Et. discriminate.
    + apply take_while_all.
    + apply drop_while_head.
  - intros (post & Hs & Hne & Hall & Hstop). cbn [app] in Hs.
    apply strip_prefix_spec in Hs. rewrite Hs.
    destruct (take_while_app _ _ _ Hall Hstop) as [-> _].
    destruct tok; [now elim Hne|reflexivity].
Qed.

Lemma occurrence_cons (c : code_unit) (u pre tok post : jsstring) :
  occurrence (c :: u) (c :: pre) tok post <-> occurrence u pre tok post.
Proof.
  unfold occurrence. cbn [app]. split; intros (H & ?); (split; [congruence|assumption]).
Qed.

Lemma occurrence_head (c : code_unit) (u pre tok post : jsstring) :
  occurrence (c :: u) pre tok post ->
  pre = [] \/ exists pre', pre = c :: pre' /\ occurrence u pre' tok post.
Proof.
  destruct pre as [|d pre]; [now left|]. intros H. right.
  assert (d = c) by (destruct H as [H _]; simpl in H; injection H; auto). subst d.
  exists pre. split; [reflexivity|]. exact (proj1 (occurrence_cons c u pre tok post) H).
Qed.

Lemma match_page_info_some (u tok : jsstring) :
  match_page_info u = Some tok -> exists pre post, first_occurrence u pre tok post.
Proof.
  induction u as [|c u IH]; cbn [match_page_info].
  - destruct (match_here []) eqn:E; [|discriminate].
    intros H; inversion H; subst. apply match_here_spec in E. destruct E as [post E].
    exists [], post. split; [exact E|]. intros; simpl; lia.
  - destruct (match_here (c :: u)) eqn:E.
    + intros H; inversion H; subst. apply match_here_spec in E. destruct E as [post E].
      exists [], post. split; [exact E|]. intros; simpl; lia.
    + intros H. destruct (IH H) as (pre & post & Hocc & Hfirst).
      exists (c :: pre), post. split; [now apply occurrence_cons|].
      intros pre' tok' post' H'.
      destruct (occurrence_head _ _ _ _ _ H') as [->|(p & -> & H'')].
      * assert (Hm : match_here (c :: u) = Some tok')
          by (apply match_here_spec; eauto). congruence.
      * simpl. apply Hfirst in H''. lia.
Qed.


Lemma app_eq_length (a a' b b' : jsstring) :
  length a = length a' -> a ++ b = a' ++ b' -> a = a' /\ b = b'.
Proof.
  revert a'. induction a as [|c a IH]; intros [|c' a'] Hl H; simpl in *;
    try discriminate; [auto|].
  injection H as -> H. destruct (IH a') as [-> ->]; auto.
Qed.

(** The leftmost occurrence is unique. *)
Lemma first_occurrence_unique (u pre tok post pre' tok' post' : jsstring) :
  first_occurrence u pre tok post -> first_occurrence u pre' tok' post' ->
  pre = pre' /\ tok = tok' /\ post = post'.
Proof.
  intros [H1 L1] [H2 L2].
  assert (Hlen : length pre = length pre') by (apply L1 in H2; apply L2 in H1; lia).
  destruct H1 as (E1 & _ & A1 & S1), H2 as (E2 & _ & A2 & S2).
  rewrite E1 in E2.
  destruct (app_eq_length _ _ _ _ Hlen E2) as [-> E].
  split; [reflexivity|].
  apply app_inv_head in E.
  destruct (take_while_app cursor_char _ _ A1 S1) as [T1 D1].
  destruct (take_while_app cursor_char _ _ A2 S2) as [T2 D2].
  rewrite E in T1, D1. split; congruence.
Qed.

(** ** Decoding *)

Lemma settled_cons (b : code_unit) (c : completion jsstring) :
  settled c -> settled (bindC c (fun t => Return (b :: t))).
Proof. intros [[t ->]| ->]; [left; eexists; reflexivity|now right]. Qed.

Lemma settled_decoded (octets : list (option N)) (c : completion jsstring) :
  settled c -> settled (decoded octets c).
Proof.
  intros H. unfold decoded.
  destruct (fold_right _ _ octets) as [bs|]; [|now right].
  destruct (utf8_code_point bs); [|now right].
  destruct H as [[t ->]| ->]; [left; eexists; reflexivity|now right].
Qed.

Lemma decodeURIComponent_settled (s : jsstring) : settled (decodeURIComponent s).
Proof.
  remember (length s) as n eqn:Hn. revert s Hn.
  induction n as [n IH] using lt_wf_ind. intros s ->.
  assert (IH' : forall r, (length r < length s)%nat -> settled (decodeURIComponent r))
    by (intros r Hr; exact (IH _ Hr r eq_refl)).
  clear IH. destruct s as [|c r]; [left; eexists; reflexivity|].
  cbn [decodeURIComponent length] in *.
  destruct (c =? 37)%N; [|apply settled_cons, IH'; lia].
  destruct r as [|h [|l r1]]; try now right.
  destruct (ParseHexOctet h l) as [b|]; [|now right].
  cbn [length] in IH'.
  destruct (leading_ones b) as [|[|[|[|[|k]]]]]; try now right.
  - apply settled_cons, IH'. lia.
  - destruct r1 as [|p1 [|h1 [|l1 r2]]]; try now right.
    apply settled_decoded, IH'. simpl. lia.
  - destruct r1 as [|p1 [|h1 [|l1 [|p2 [|h2 [|l2 r2]]]]]]; try now right.
    apply settled_decoded, IH'. simpl. lia.
  - destruct r1 as [|p1 [|h1 [|l1 [|p2 [|h2 [|l2 [|p3 [|h3 [|l3 r2]]]]]]]]];
      try now right.
    apply settled_decoded, IH'. simpl. lia.
Qed.

Lemma decoded_nonempty (octets : list (option N)) (c : completion jsstring) t :
  decoded octets c = Return t -> t <> [].
Proof.
  unfold decoded.
  destruct (fold_right _ _ octets) as [bs|]; [|discriminate].
  destruct (utf8_code_point bs) as [v|]; [|discriminate].
  destruct c as [r| |]; cbn [bindC]; try discriminate.
  intros H; inversion H. unfold UTF16EncodeCodePoint.
  destruct (v <? 65536)%N; discriminate.
Qed.

(** A cursor that decodes is not the empty string. *)
Lemma decodeURIComponent_nonempty (s t : jsstring) :
  s <> [] -> decodeURIComponent s = Return t -> t <> [].
Proof.
  destruct s as [|c r]; [congruence|]. intros _. cbn [decodeURIComponent].
  destruct (c =? 37)%N.
  - destruct r as [|h [|l r1]]; try discriminate.
    destruct (ParseHexOctet h l) as [b|]; [|discriminate].
    destruct (leading_ones b) as [|[|[|[|[|k]]]]]; try discriminate.
    + destruct (decodeURIComponent r1); cbn [bindC]; try discriminate.
      intros H; inversion H; discriminate.
    + destruct r1 as [|p1 [|h1 [|l1 r2]]]; try discriminate.
      apply decoded_nonempty.
    + destruct r1 as [|p1 [|h1 [|l1 [|p2 [|h2 [|l2 r2]]]]]]; try discriminate.
      apply decoded_nonempty.
    + destruct r1 as [|p1 [|h1 [|l1 [|p2 [|h2 [|l2 [|p3 [|h3 [|l3 r2]]]]]]]]];
        try discriminate.
      apply decoded_nonempty.
  - destruct (decodeURIComponent r); cbn [bindC]; try discriminate.
    intros H; inversion H; discriminate.
Qed.

(** Text without a percent sign decodes to itself. *)
Lemma decodeURIComponent_plain (s : jsstring) :
  Forall (fun c => c <> 37%N) s -> decodeURIComponent s = Return s.
Proof.
  induction 1 as [|c s Hc Hs IH]; [reflexivity|]. cbn [decodeURIComponent].
  destruct (N.eqb_spec c 37); [contradiction|]. now rewrite IH.
Qed.

(** ** The paginator *)

Lemma next_in_parts_find (parts : list jsstring) :
  next_in_parts parts =
  match find is_next parts with
  | None => Return None
  | Some seg =>
      match match_page_info (url_part seg) with
      | Some tok => bindC (decodeURIComponent tok) (fun t => Return (Some t))
      | None => Return None
      end
  end.
Proof.
  induction parts as [|part rest IH]; [reflexivity|].
  cbn [next_in_parts find]. unfold is_next at 1, rel_part, url_part.
  destruct (match nth_error (map trim (split 59%N part)) 1 with
            | Some r => jseq r rel_next
            | None => false
            end); [reflexivity|exact IH].
Qed.


Lemma find_first (parts pre post : list jsstring) (seg : jsstring) :
  parts = pre ++ seg :: post ->
  Forall (fun s => is_next s = false) pre -> is_next seg = true ->
  find is_next parts = Some seg.
Proof.
  intros -> Hpre Hseg. induction Hpre as [|s pre Hs Hpre IH]; simpl.
  - now rewrite Hseg.
  - now rewrite Hs.
Qed.



(** The header of the specification yields its cursor. *)
Example getNextPage_prev_next :
  getNextPage (Some link_prev_next) = Return (Some (js "ABC")).
Proof. reflexivity. Qed.

(** A percent-encoded cursor comes back decoded. *)
Example getNextPage_encoded :
  getNextPage (Some link_encoded) = Return (Some (js "a/b==")).
Proof. reflexivity. Qed.

Example getNextPage_prev_only : getNextPage (Some link_prev_only) = Return None.
Proof. reflexivity. Qed.




Lemma missing_credentials_fail_fast_witness :
  absent (SHOPIFY_STORE env_empty)
  /\ fetchShopify env_empty window_example [] = ([], Throw (Error missing_shopify))
  /\ absent (GA4_PRIVATE_KEY env_empty)
  /\ fetchGA4 env_empty ga_example = ([], Throw (Error missing_ga4)).
Proof.
  split; [reflexivity|split; [|split; [reflexivity|]]].
  - apply (proj1 (missing_credentials_fail_fast env_empty window_example [] ga_example)).
    left. reflexivity.
  - apply (proj2 (missing_credentials_fail_fast env_empty window_example [] ga_example)).
    right. right. reflexivity.
Defined.

Lemma fetchGA4_reads_first_row_witness :
  snd (fetchGA4 env_full ga_example) =
  Return {| GA.sessions := Z2num 1000; GA.conversionRate := round_decimal false 25 (-3) |}.
Proof.
  refine (proj2 (fetchGA4_reads_first_row env_full ga_example
                   (base_request (js "123456")) _ _ _ _)
                (js "1000") (js "0.025") [] _ _).
  - repeat split.
  - reflexivity.
  - reflexivity.
  - reflexivity.
Defined.

Lemma invalid_filter_is_ignored_witness :
  fst (fetchGA4 env_full ga_example) =
  [ConsoleWarn filter_warning;
   RunReport (js "svc@example.iam.gserviceaccount.com")
             (js "-----BEGIN KEY-----" ++ [10%N] ++ js "abc" ++ [10%N] ++ js "-----END KEY-----")
             (base_request (js "123456"))]
  /\ exists result, snd (fetchGA4 env_full ga_example) = Return result.
Proof.
  assert (Hc : ga4_credentials env_full) by (repeat split).
  assert (Hne : js "{not json" <> []) by discriminate.
  destruct (invalid_filter_is_ignored env_full ga_example (js "{not json")
              Hc eq_refl Hne eq_refl) as (H1 & _ & _ & H4).
  split; [exact H1|].
  apply (H4 {| rows := Some [ {| metricValues := [js "1000"; js "0.025"] |};
                              {| metricValues := [js "7"; js "0.5"] |} ] |}).
  - reflexivity.
  - unfold well_formed_report. cbn. lia.
Defined.

Lemma rejected_fetch_fails_the_run_witness :
  snd (fetchShopify (env world_no_shopify) (clock world_no_shopify)
         (shopify_api world_no_shopify)) = Throw (Error missing_shopify)
  /\ main_log (run world_no_shopify) =
     [ConsoleError (Error missing_shopify); ProcessExit 1]
  /\ exit_status (run world_no_shopify) = Some 1.
Proof.
  split; [reflexivity|].
  assert (H : (exists e, snd (fetchShopify (env world_no_shopify) (clock world_no_shopify)
                                 (shopify_api world_no_shopify)) = Throw e)
              \/ (exists e, snd (fetchGA4 (env world_no_shopify) (ga_api world_no_shopify))
                            = Throw e))
    by (left; eexists; reflexivity).
  destruct (proj1 (rejected_fetch_fails_the_run world_no_shopify) H) as (_ & H2 & _).
  split; [reflexivity|exact H2].
Defined.

(** ** The order client *)

(** A cursor that [getNextPage] returns is never the empty string, so the
    loop goes on exactly when a cursor is returned. *)
Lemma getNextPage_truthy (h : option jsstring) (c : jsstring) :
  getNextPage h = Return (Some c) -> truthy c = true.
Proof.
  destruct h as [h|]; [|discriminate]. unfold getNextPage.
  destruct (truthy h); [|discriminate]. rewrite next_in_parts_find.
  destruct (find is_next _) as [seg|]; [|discriminate].
  destruct (match_page_info (url_part seg)) as [tok|] eqn:E; [|discriminate].
  destruct (match_page_info_some _ _ E) as (pre & post & (_ & Hne & _) & _).
  destruct (decodeURIComponent tok) as [t| |] eqn:Ht; cbn [bindC]; try discriminate.
  intros H; inversion H; subst. apply truthy_true_iff.
  exact (decodeURIComponent_nonempty _ _ Hne Ht).
Qed.

Lemma successful_orders (res : response) :
  successful res = true ->
  exists data, ok res = true /\ json res = Some data
               /\ Page.orders data = Some (page_orders res).
Proof.
  unfold successful, page_orders, orders_of.
  destruct (ok res); [|discriminate].
  destruct (json res) as [data|]; [|discriminate].
  destruct (Page.orders data) eqn:E; [|discriminate]. eauto.
Qed.

Lemma has_cursor_next (res : response) :
  has_cursor res = true ->
  exists c, getNextPage (link res) = Return (Some c)
            /\ truthy c = true /\ sendable (Some c) = true.
Proof.
  unfold has_cursor.
  destruct (getNextPage (link res)) as [[c|]| |] eqn:E; try discriminate.
  destruct (encodeURIComponent c) eqn:Ec; try discriminate. intros _.
  pose proof (getNextPage_truthy _ _ E) as Ht.
  exists c. repeat split; [exact Ht|]. unfold sendable. cbn [truthy_opt].
  now rewrite Ht, Ec.
Qed.

(** The loop is studied for a fixed request URL and access token. *)
Section Loop.

Variables url token : jsstring.

(** The URL of a turn of the loop is computed without an exception. *)
Lemma sendable_url (pageInfo : option jsstring) :
  sendable pageInfo = true ->
  exists u,
    (if truthy_opt pageInfo
     then bindC (encodeURIComponent (match pageInfo with Some p => p | None => [] end))
                (fun q => Return (url ++ js "&page_info=" ++ q))
     else Return url) = Return u.
Proof.
  unfold sendable. destruct (truthy_opt pageInfo); [|eauto].
  destruct (encodeURIComponent _); try discriminate.
  intros _. eexists. reflexivity.
Qed.

(** The start of a turn: the URL is computed and the request is sent. *)
Ltac send_request Hu :=
  cbn [fetch_pages]; rewrite Hu; autorewrite with js_monad.

(** One turn of the loop on a successful page that names a next page. *)
Lemma fetch_pages_continue (res : response) (pageInfo : option jsstring) :
  sendable pageInfo = true -> successful res = true -> has_cursor res = true ->
  exists c u, sendable (Some c) = true /\
    forall net orders sales,
      let acc := fold_left add_order (page_orders res) (orders, sales) in
      fetch_pages url token (Responds res :: net) pageInfo orders sales =
      (Fetch u token :: fst (fetch_pages url token net (Some c) (fst acc) (snd acc)),
       snd (fetch_pages url token net (Some c) (fst acc) (snd acc))).
Proof.
  intros Hs Hok Hc.
  destruct (sendable_url _ Hs) as [u Hu].
  destruct (successful_orders _ Hok) as (data & Hokb & Hj & Ho).
  destruct (has_cursor_next _ Hc) as (c & Hn & Ht & Hsc).
  exists c, u. split; [exact Hsc|]. intros net orders sales acc.
  send_request Hu. rewrite Hokb. cbn [negb].
  rewrite Hj, bind_ret, Ho, bind_ret, Hn, bind_lift_return.
  cbn [truthy_opt]. rewrite Ht. reflexivity.
Qed.

(** The turn on a successful page that names no next page. *)
Lemma fetch_pages_last (res : response) (pageInfo : option jsstring) :
  sendable pageInfo = true -> successful res = true -> last_page res = true ->
  exists u,
    forall net orders sales,
      let acc := fold_left add_order (page_orders res) (orders, sales) in
      fetch_pages url token (Responds res :: net) pageInfo orders sales =
      ([Fetch u token],
       Return {| Shopify.orders := fst acc; Shopify.sales := snd acc |}).
Proof.
  intros Hs Hok Hl.
  destruct (sendable_url _ Hs) as [u Hu].
  destruct (successful_orders _ Hok) as (data & Hokb & Hj & Ho).
  exists u. intros net orders sales acc.
  unfold last_page in Hl.
  destruct (getNextPage (link res)) as [[c|]| |] eqn:Hn; try discriminate.
  send_request Hu. rewrite Hokb. cbn [negb].
  rewrite Hj, bind_ret, Ho, bind_ret, Hn, bind_lift_return.
  reflexivity.
Qed.


(** The turn on a success whose body has no [orders]. *)
Lemma fetch_pages_no_orders (res : response) (pageInfo : option jsstring)
    (data : Page.t) :
  sendable pageInfo = true ->
  ok res = true -> json res = Some data -> Page.orders data = None ->
  exists u,
    forall net orders sales,
      fetch_pages url token (Responds res :: net) pageInfo orders sales =
      ([Fetch u token], Throw TypeError).
Proof.
  intros Hs Hok Hj Ho. destruct (sendable_url _ Hs) as [u Hu].
  exists u. intros net orders sales.
  send_request Hu. rewrite Hok. cbn [negb].
  rewrite Hj, bind_ret, Ho. reflexivity.
Qed.

(** The loop over a chain of pages: one request per page, and the loop goes
    on with the orders of the chain accumulated. *)
Lemma fetch_pages_chained (pre : list response) :
  chained pre = true ->
  forall pageInfo, sendable pageInfo = true ->
  exists next log,
    sendable next = true /\ length log = length pre
    /\ Forall (fun ev => is_fetch ev = true) log
    /\ forall net orders sales,
         let acc := fold_left add_order (all_orders pre) (orders, sales) in
         fetch_pages url token (map Responds pre ++ net) pageInfo orders sales =
         (log ++ fst (fetch_pages url token net next (fst acc) (snd acc)),
          snd (fetch_pages url token net next (fst acc) (snd acc))).
Proof.
  induction pre as [|res pre IH]; intros Hch pageInfo Hs.
  - exists pageInfo, []. repeat split; [exact Hs|constructor|].
    intros net orders sales. cbn. now destruct (fetch_pages _ _ _ _ _ _).
  - cbn [chained forallb] in Hch. apply andb_prop in Hch. destruct Hch as [Hres Hch].
    apply andb_prop in Hres. destruct Hres as [Hok Hc].
    destruct (fetch_pages_continue res pageInfo Hs Hok Hc) as (c & u & Hsc & Hstep).
    destruct (IH Hch (Some c) Hsc) as (next & log & Hsn & Hlen & Hall & Hrest).
    exists next, (Fetch u token :: log).
    repeat split; [exact Hsn|simpl; now rewrite Hlen|now constructor|].
    intros net orders sales. cbn [map app].
    rewrite Hstep, Hrest. unfold all_orders. cbn [map concat].
    rewrite fold_left_app. cbn [fst snd app].
    destruct (fold_left add_order (page_orders res) (orders, sales)); reflexivity.
Qed.

(** A loop that returns was able to send its first request. *)
Lemma fetch_pages_return_sendable (net : list fetch_reply)
    (pageInfo : option jsstring) (orders : Z) (sales : number) r :
  snd (fetch_pages url token net pageInfo orders sales) = Return r ->
  sendable pageInfo = true.
Proof.
  unfold sendable.
  destruct net as [|reply net]; cbn [fetch_pages]; rewrite snd_bind; cbn [lift snd];
    destruct (truthy_opt pageInfo); try reflexivity;
    destruct (encodeURIComponent _); cbn [bindC]; try discriminate; reflexivity.
Qed.

(** A loop that returns has consumed a sequence of successful paged
    responses. *)
Lemma fetch_pages_return_paged (net : list fetch_reply) :
  forall pageInfo orders sales r,
    snd (fetch_pages url token net pageInfo orders sales) = Return r ->
    exists pages rest, net = map Responds pages ++ rest /\ paged pages = true.
Proof.
  induction net as [|reply net IH]; intros pageInfo orders sales r H.
  - exfalso. revert H. cbn [fetch_pages]. rewrite snd_bind. cbn [lift snd].
    destruct (if truthy_opt pageInfo then _ else _); cbn [bindC]; discriminate.
  - pose proof (fetch_pages_return_sendable _ _ _ _ _ H) as Hs.
    destruct (sendable_url _ Hs) as [u Hu].
    revert H. send_request Hu. cbn [snd].
    destruct reply as [res|e]; [|discriminate].
    destruct (ok res) eqn:Hok; [|discriminate]. cbn [negb].
    destruct (json res) as [data|] eqn:Hj; [|discriminate]. rewrite bind_ret.
    destruct (Page.orders data) as [l|] eqn:Ho; [|discriminate]. rewrite bind_ret.
    assert (Hsucc : successful res = true)
      by (unfold successful, orders_of; now rewrite Hok, Hj, Ho).
    destruct (getNextPage (link res)) as [next| |] eqn:Hn; try discriminate.
    rewrite bind_lift_return.
    destruct (truthy_opt next) eqn:Ht.
    + intros H. destruct next as [c|]; [|discriminate].
      pose proof (fetch_pages_return_sendable _ _ _ _ _ H) as Hsc.
      destruct (IH _ _ _ _ H) as (pages & rest & -> & Hp).
      exists (res :: pages), rest. split; [reflexivity|].
      cbn [paged]. rewrite Hsucc, Hp.
      assert (Hc : has_cursor res = true).
      { unfold has_cursor. rewrite Hn. unfold sendable in Hsc. rewrite Ht in Hsc.
        destruct (encodeURIComponent c); congruence. }
      rewrite Hc. destruct pages; [discriminate|reflexivity].
    + intros _. exists [res], net. split; [reflexivity|].
      cbn [paged]. rewrite Hsucc. unfold last_page. rewrite Hn.
      destruct next as [c|]; [|reflexivity].
      apply getNextPage_truthy in Hn. cbn [truthy_opt] in Ht. congruence.
Qed.

End Loop.

Lemma parseFloat_zero : parseFloat (js "0") = S754_zero false.
Proof. reflexivity. Qed.

Lemma add_order_value (orders : Z) (sales : number) (o : order) :
  add_order (orders, sales) o = (increment orders, Number_add sales (price_value o)).
Proof.
  unfold add_order, price_value. cbn [fst snd].
  destruct (total_price o) as [[|c s]|]; cbn [truthy]; now rewrite ?parseFloat_zero.
Qed.

Lemma increment_exact (n : Z) : n < 2 ^ 53 -> increment n = n + 1.
Proof. unfold increment. intros H. apply Z.ltb_lt in H. now rewrite H. Qed.

Lemma fold_add_order_count (os : list order) (orders : Z) (sales : number) :
  orders + Z.of_nat (length os) <= 2 ^ 53 ->
  fst (fold_left add_order os (orders, sales)) = orders + Z.of_nat (length os).
Proof.
  revert orders sales. induction os as [|o os IH]; intros orders sales H.
  - cbn. lia.
  - cbn [fold_left]. rewrite add_order_value. cbn [length] in *.
    rewrite increment_exact by lia. rewrite IH; lia.
Qed.

Lemma fold_add_order_sum (os : list order) (orders : Z) (sales : number) :
  snd (fold_left add_order os (orders, sales)) =
  fold_left Number_add (map price_value os) sales.
Proof.
  revert orders sales. induction os as [|o os IH]; intros orders sales; [reflexivity|].
  cbn [fold_left map]. rewrite add_order_value. apply IH.
Qed.

Lemma Number_add_nan_r (x : number) : Number_add x NaN = NaN.
Proof. now destruct x. Qed.

Lemma sum_from_nan (l : list number) : fold_left Number_add l NaN = NaN.
Proof. induction l as [|x l IH]; [reflexivity|exact IH]. Qed.

(** One price that is not a number makes the whole sum not a number. *)
Lemma sum_with_nan (l : list number) (s : number) :
  In NaN l -> fold_left Number_add l s = NaN.
Proof.
  revert s. induction l as [|x l IH]; intros s; [intros []|].
  intros [->|H]; cbn [fold_left].
  - rewrite Number_add_nan_r. apply sum_from_nan.
  - now apply IH.
Qed.

Lemma paged_split (pages : list response) :
  paged pages = true ->
  exists pre last,
    pages = pre ++ [last] /\ chained pre = true
    /\ successful last = true /\ last_page last = true.
Proof.
  induction pages as [|res rest IH]; [discriminate|]. cbn [paged].
  intros H. apply andb_prop in H. destruct H as [Hok H].
  destruct rest as [|res' rest].
  - exists [], res. auto.
  - apply andb_prop in H. destruct H as [Hc H].
    destruct (IH H) as (pre & last & E & Hch & Hl & Hp).
    exists (res :: pre), last. rewrite E. repeat split; auto.
    cbn [chained forallb]. fold (chained pre). now rewrite Hok, Hc, Hch.
Qed.

Lemma paged_nonempty (pages : list response) : paged pages = true -> pages <> [].
Proof. destruct pages; [discriminate|discriminate]. Qed.

Lemma fetchShopify_with_credentials (env : environment) (w : window) (url : jsstring)
    (net : list fetch_reply) :
  shopify_credentials env -> request_url env w = Return url ->
  fetchShopify env w net =
  fetch_pages url (match SHOPIFY_ADMIN_TOKEN env with Some s => s | None => [] end)
              net None 0 (S754_zero false).
Proof.
  intros [Hs Ht] Hu. unfold fetchShopify. rewrite Hs, Ht, Hu. cbn [negb orb].
  now rewrite bind_lift_return.
Qed.

(** C1, amended: over a sequence of successful paged responses the client
    sends one request per page and returns the number of orders of all the
    pages (a count up to [2^53]) and the sum, in page order, of their parsed
    prices, where a missing or empty price counts 0; a price that does not
    parse as a number makes the sum NaN. *)
Theorem fetchShopify_totals (env : environment) (w : window) (url : jsstring)
    (pages : list response) :
  shopify_credentials env -> request_url env w = Return url ->
  paged pages = true ->
  Z.of_nat (length (all_orders pages)) <= 2 ^ 53 ->
  snd (fetchShopify env w (map Responds pages)) =
    Return {| Shopify.orders := Z.of_nat (length (all_orders pages));
              Shopify.sales := total_sales (all_orders pages) |}
  /\ length (fst (fetchShopify env w (map Responds pages))) = length pages
  /\ (forall o, total_price o = None \/ total_price o = Some [] ->
                price_value o = S754_zero false)
  /\ (Exists (fun o => price_value o = NaN) (all_orders pages) ->
      total_sales (all_orders pages) = NaN).
Proof.
  intros Hc Hu Hp Hbound.
  rewrite (fetchShopify_with_credentials _ _ _ _ Hc Hu).
  set (token := match SHOPIFY_ADMIN_TOKEN env with Some s => s | None => [] end).
  destruct (paged_split _ Hp) as (pre & last & -> & Hch & Hok & Hl).
  destruct (fetch_pages_chained url token pre Hch None eq_refl)
    as (next & log & Hsn & Hlen & _ & Hrun).
  destruct (fetch_pages_last url token last next Hsn Hok Hl) as (u & Hlast).
  rewrite map_app. cbn [map]. rewrite Hrun, Hlast. cbn [fst snd].
  assert (Hall : all_orders (pre ++ [last]) = all_orders pre ++ page_orders last).
  { unfold all_orders. rewrite map_app, concat_app. cbn. now rewrite app_nil_r. }
  rewrite Hall in *. split; [|split; [|split]].
  - rewrite <- surjective_pairing, <- fold_left_app. do 2 f_equal.
    + rewrite fold_add_order_count; lia.
    + apply fold_add_order_sum.
  - rewrite !length_app, Hlen. reflexivity.
  - intros o [H|H]; unfold price_value; now rewrite H.
  - intros Hex. apply sum_with_nan. apply Exists_exists in Hex.
    destruct Hex as (o & Hin & Ho). rewrite <- Ho. now apply in_map.
Qed.


(** C1 as stated fails: an order whose price is not numeric does not count
    0, the sum is NaN; and the sum is a sum of binary64 numbers, so that two
    orders of 0.08 and 19.90 followed by one of 5.00 do not give 24.98. *)
Lemma non_numeric_price_is_not_zero :
  (paged [page_not_numeric] = true
   /\ snd (fetchShopify env_full window_example [Responds page_not_numeric])
      = Return {| Shopify.orders := 1; Shopify.sales := NaN |}
   /\ claimed_sales (all_orders [page_not_numeric]) = S754_zero false
   /\ snd (fetchShopify env_full window_example [Responds page_not_numeric])
      <> Return {| Shopify.orders := 1;
                   Shopify.sales := claimed_sales (all_orders [page_not_numeric]) |})
  /\ (paged [page_one_uneven; page_two] = true
      /\ snd (fetchShopify env_full window_example
                [Responds page_one_uneven; Responds page_two])
         = Return {| Shopify.orders := 3;
                     Shopify.sales := parseFloat (js "24.979999999999997") |}
      /\ parseFloat (js "24.979999999999997") <> parseFloat (js "24.98")).
Proof.
  split.
  - repeat split; try (vm_compute; reflexivity). vm_compute. discriminate.
  - repeat split; try (vm_compute; reflexivity). vm_compute. discriminate.
Qed.

(** Two orders of 9.99, then one of 5.00, give 3 orders and 24.98. *)
Lemma fetchShopify_totals_witness :
  paged [page_one; page_two] = true
  /\ snd (fetchShopify env_full window_example [Responds page_one; Responds page_two])
     = Return {| Shopify.orders := 3; Shopify.sales := parseFloat (js "24.98") |}.
Proof.
  split; [vm_compute; reflexivity|].
  assert (Hu : exists url, request_url env_full window_example = Return url)
    by (vm_compute; eexists; reflexivity).
  destruct Hu as [url Hu].
  assert (Hc : shopify_credentials env_full) by (split; reflexivity).
  assert (Hp : paged [page_one; page_two] = true) by (vm_compute; reflexivity).
  assert (Hb : Z.of_nat (length (all_orders [page_one; page_two])) <= 2 ^ 53)
    by (vm_compute; discriminate).
  destruct (fetchShopify_totals env_full window_example url [page_one; page_two]
              Hc Hu Hp Hb) as [H _].
  cbn [map] in H. rewrite H. vm_compute. reflexivity.
Defined.


(** ** Decimal digits *)

Lemma digits_value_acc (ds : jsstring) (acc : Z) :
  fold_left (fun a c => 10 * a + (Z.of_N c - 48)) ds acc =
  acc * 10 ^ Z.of_nat (length ds) + digits_value ds.
Proof.
  unfold digits_value. revert acc.
  induction ds as [|c ds IH]; intros acc.
  - cbn. lia.
  - cbn [fold_left length]. rewrite IH, (IH (10 * 0 + _)).
    rewrite Nat2Z.inj_succ, Z.pow_succ_r by lia. lia.
Qed.

Lemma digits_value_app (a b : jsstring) :
  digits_value (a ++ b) = digits_value a * 10 ^ Z.of_nat (length b) + digits_value b.
Proof.
  unfold digits_value at 1. rewrite fold_left_app. fold (digits_value a).
  apply digits_value_acc.
Qed.

Lemma digits_value_zeros (k : nat) (ds : jsstring) :
  digits_value (repeat 48%N k ++ ds) = digits_value ds.
Proof.
  induction k as [|k IH]; [reflexivity|].
  cbn [repeat app]. unfold digits_value in *. cbn [fold_left]. exact IH.
Qed.

Lemma digit_of_remainder (r : Z) :
  0 <= r < 10 ->
  is_digit (Z.to_N (48 + r)) = true /\ Z.of_N (Z.to_N (48 + r)) - 48 = r.
Proof.
  intros H. unfold is_digit. split.
  - apply andb_true_intro. split; apply N.leb_le; lia.
  - lia.
Qed.

Lemma decimal_digits_step (fuel : nat) (n : Z) (acc : jsstring) :
  decimal_digits (S fuel) n acc =
  if n / 10 =? 0 then Z.to_N (48 + n mod 10) :: acc
  else decimal_digits fuel (n / 10) (Z.to_N (48 + n mod 10) :: acc).
Proof. reflexivity. Qed.

Lemma decimal_digits_spec (fuel : nat) :
  forall n acc, 0 <= n < 2 ^ Z.of_nat (S fuel) ->
    exists ds, decimal_digits (S fuel) n acc = ds ++ acc
               /\ ds <> [] /\ Forall (fun c => is_digit c = true) ds
               /\ digits_value ds = n.
Proof.
  induction fuel as [|fuel IH]; intros n acc Hn.
  - assert (n / 10 = 0) by (apply Z.div_small; cbn in Hn; lia).
    assert (n mod 10 = n) by (apply Z.mod_small; cbn in Hn; lia).
    destruct (digit_of_remainder (n mod 10)) as [Hd Hv]; [lia|].
    exists [Z.to_N (48 + n mod 10)]. rewrite decimal_digits_step, H. cbn [Z.eqb].
    repeat split; [discriminate|now constructor|]. unfold digits_value. cbn [fold_left]. lia.
  - pose proof (Z.mod_pos_bound n 10 ltac:(lia)) as Hr.
    destruct (digit_of_remainder (n mod 10) Hr) as [Hd Hv].
    rewrite decimal_digits_step. destruct (Z.eqb_spec (n / 10) 0) as [E|E].
    + exists [Z.to_N (48 + n mod 10)].
      repeat split; [discriminate|now constructor|].
      unfold digits_value. cbn [fold_left]. pose proof (Z.div_mod n 10). lia.
    + assert (Hq : 0 <= n / 10 < 2 ^ Z.of_nat (S fuel)).
      { split; [apply Z.div_pos; lia|].
        apply Z.div_lt_upper_bound; [lia|].
        rewrite (Nat2Z.inj_succ (S fuel)), Z.pow_succ_r in Hn by lia. lia. }
      destruct (IH (n / 10) (Z.to_N (48 + n mod 10) :: acc) Hq)
        as (ds & Hds & Hne & Hall & Hval).
      exists (ds ++ [Z.to_N (48 + n mod 10)]).
      rewrite Hds, <- app_assoc. repeat split.
      * destruct ds; discriminate.
      * apply Forall_app. split; [exact Hall|now constructor].
      * rewrite digits_value_app, Hval. unfold digits_value. cbn [fold_left length].
        pose proof (Z.div_mod n 10). lia.
Qed.

Lemma decimal_spec (n : Z) :
  0 <= n ->
  decimal n <> [] /\ Forall (fun c => is_digit c = true) (decimal n)
  /\ digits_value (decimal n) = n.
Proof.
  intros Hn. unfold decimal.
  assert (Hb : 0 <= n < 2 ^ Z.of_nat (S (Z.to_nat (Z.log2 n)))).
  { split; [exact Hn|]. rewrite Nat2Z.inj_succ, Z2Nat.id by apply Z.log2_nonneg.
    destruct (Z.eq_dec n 0) as [->|Hz]; [cbn; lia|].
    apply Z.log2_spec. lia. }
  destruct (decimal_digits_spec _ n [] Hb) as (ds & -> & H).
  now rewrite app_nil_r.
Qed.

Lemma digits_value_bound (ds : jsstring) :
  Forall (fun c => is_digit c = true) ds ->
  0 <= digits_value ds < 10 ^ Z.of_nat (length ds).
Proof.
  induction ds as [|c ds IH] using rev_ind; intros H; [cbn; lia|].
  apply Forall_app in H. destruct H as [Hds Hc]. inversion Hc as [|? ? Hd _]; subst.
  specialize (IH Hds). rewrite digits_value_app, length_app. cbn [length].
  replace (Z.of_nat (length ds + 1)) with (Z.succ (Z.of_nat (length ds))) by lia.
  rewrite Z.pow_succ_r by lia. unfold is_digit in Hd.
  apply andb_prop in Hd. destruct Hd as [H1 H2].
  apply N.leb_le in H1, H2.
  change (digits_value [c]) with (10 * 0 + (Z.of_N c - 48)). lia.
Qed.

(** ** Rounding to an integer *)

Lemma round_half_up_nearest (num den : Z) :
  0 < den ->
  (2 * round_half_up num den - 1) * den <= 2 * num
  < (2 * round_half_up num den + 1) * den.
Proof.
  intros Hd. unfold round_half_up.
  pose proof (Z.div_mod (2 * num + den) (2 * den) ltac:(lia)) as E.
  pose proof (Z.mod_pos_bound (2 * num + den) (2 * den) ltac:(lia)) as B.
  nia.
Qed.

Lemma denominator_pos (e : Z) : 0 < denominator e.
Proof. unfold denominator. apply Z.pow_pos_nonneg; lia. Qed.

Lemma round_half_up_nonneg (num den : Z) :
  0 <= num -> 0 < den -> 0 <= round_half_up num den.
Proof. intros Hn Hd. unfold round_half_up. apply Z.div_pos; lia. Qed.

(** ** Reading back a printed number *)

Lemma digit_range (c : code_unit) :
  is_digit c = true -> (48 <= c <= 57)%N.
Proof.
  unfold is_digit. intros H. apply andb_prop in H. destruct H as [H1 H2].
  apply N.leb_le in H1, H2. lia.
Qed.

Lemma not_digit (c : code_unit) : (c < 48 \/ 57 < c)%N -> is_digit c = false.
Proof.
  intros H. unfold is_digit. apply andb_false_iff.
  destruct H; [left|right]; apply N.leb_gt; lia.
Qed.

Lemma digit_not_space (c : code_unit) : is_digit c = true -> is_space c = false.
Proof.
  intros H. apply digit_range in H. unfold is_space.
  repeat match goal with
         | |- context [(c =? ?k)%N] =>
             rewrite (proj2 (N.eqb_neq c k)) by lia
         end.
  rewrite (proj2 (N.leb_gt 8192 c)) by lia. reflexivity.
Qed.

Lemma take_digits (a t : jsstring) :
  Forall (fun c => is_digit c = true) a -> ends_digits t ->
  take_while is_digit (a ++ t) = a /\ drop_while is_digit (a ++ t) = t.
Proof. intros Ha Ht. apply take_while_app; [exact Ha|exact Ht]. Qed.

Lemma not_Infinity (neg : bool) (c : code_unit) (s : jsstring) :
  (c <> 73)%N -> strip_prefix (js "Infinity") (c :: s) = None.
Proof.
  intros H. change (js "Infinity") with (73%N :: js "nfinity").
  cbn [strip_prefix]. now rewrite (proj2 (N.eqb_neq 73 c)) by congruence.
Qed.

(** Digits, a point, digits, and a tail that starts with no digit. *)
Lemma unsigned_decimal_point (neg : bool) (a b t : jsstring) :
  a <> [] ->
  Forall (fun c => is_digit c = true) a -> Forall (fun c => is_digit c = true) b ->
  ends_digits t ->
  unsigned_decimal neg (a ++ 46%N :: b ++ t) =
  round_decimal neg (digits_value (a ++ b)) (exponent_part t - Z.of_nat (length b)).
Proof.
  intros Hne Ha Hb Ht. unfold unsigned_decimal.
  destruct a as [|c a]; [congruence|]. clear Hne.
  assert (Hc : is_digit c = true) by (inversion Ha; assumption).
  cbn [app]. rewrite (not_Infinity neg) by (apply digit_range in Hc; lia).
  change (c :: a ++ 46%N :: b ++ t) with ((c :: a) ++ 46%N :: b ++ t).
  destruct (take_digits (c :: a) (46%N :: b ++ t) Ha) as [-> ->];
    [apply not_digit; lia|].
  cbn [N.eqb Pos.eqb]. destruct (take_digits b t Hb Ht) as [-> ->].
  reflexivity.
Qed.

(** Digits and a tail that starts with neither a digit nor a point. *)
Lemma unsigned_decimal_integer (neg : bool) (a t : jsstring) :
  a <> [] -> Forall (fun c => is_digit c = true) a ->
  match t with [] => True | c :: _ => is_digit c = false /\ c <> 46%N end ->
  unsigned_decimal neg (a ++ t) = round_decimal neg (digits_value a) (exponent_part t).
Proof.
  intros Hne Ha Ht. unfold unsigned_decimal.
  destruct a as [|c a]; [congruence|]. clear Hne.
  assert (Hc : is_digit c = true) by (inversion Ha; assumption).
  cbn [app]. rewrite (not_Infinity neg) by (apply digit_range in Hc; lia).
  change (c :: a ++ t) with ((c :: a) ++ t).
  destruct (take_digits (c :: a) t Ha) as [-> ->].
  { destruct t; [exact I|apply Ht]. }
  destruct t as [|d t].
  - rewrite app_nil_r. cbn [length Z.of_nat]. now rewrite Z.sub_0_r.
  - destruct Ht as [_ Hd]. rewrite (proj2 (N.eqb_neq d 46)) by exact Hd.
    rewrite app_nil_r. cbn [length Z.of_nat]. now rewrite Z.sub_0_r.
Qed.

Lemma exponent_part_plus (e : Z) :
  0 <= e -> exponent_part (js "e+" ++ decimal e) = e.
Proof.
  intros He. destruct (decimal_spec e He) as (Hne & Hall & Hval).
  change (js "e+" ++ decimal e) with (101%N :: 43%N :: decimal e).
  unfold exponent_part, signed_integer. cbn [N.eqb Pos.eqb orb].
  rewrite <- (app_nil_r (decimal e)) at 1.
  destruct (take_digits (decimal e) [] Hall I) as [-> _].
  destruct (decimal e); [congruence|]. cbn [cond_Zopp]. exact Hval.
Qed.

Lemma parseFloat_unsigned (c : code_unit) (s : jsstring) :
  is_digit c = true -> parseFloat (c :: s) = unsigned_decimal false (c :: s).
Proof.
  intros Hc. unfold parseFloat. cbn [trimStart]. rewrite (digit_not_space c Hc).
  apply digit_range in Hc.
  now rewrite (proj2 (N.eqb_neq c 43)), (proj2 (N.eqb_neq c 45)) by lia.
Qed.

Lemma parseFloat_minus (s : jsstring) :
  parseFloat (45%N :: s) = unsigned_decimal true s.
Proof. reflexivity. Qed.

Lemma parseFloat_signed (neg : bool) (c : code_unit) (s : jsstring) :
  is_digit c = true ->
  parseFloat ((if neg then js "-" else []) ++ c :: s) = unsigned_decimal neg (c :: s).
Proof.
  intros Hc. destruct neg; [apply parseFloat_minus|now apply parseFloat_unsigned].
Qed.

(** [fixed2 n] is digits, a point and two digits. *)
Lemma fixed2_shape (n : Z) :
  0 <= n ->
  exists a b,
    fixed2 n = a ++ 46%N :: b /\ a <> [] /\ length b = 2%nat
    /\ Forall (fun c => is_digit c = true) a
    /\ Forall (fun c => is_digit c = true) b
    /\ digits_value (a ++ b) = n.
Proof.
  intros Hn. destruct (decimal_spec n Hn) as (Hne & Hall & Hval).
  unfold fixed2.
  set (m' := repeat 48%N (3 - length (decimal n)) ++ decimal n).
  assert (Hlen : (3 <= length m')%nat).
  { unfold m'. rewrite length_app, repeat_length. lia. }
  assert (Hd : Forall (fun c => is_digit c = true) m').
  { apply Forall_app. split; [|exact Hall]. apply Forall_forall.
    intros c Hc. apply repeat_spec in Hc. now subst c. }
  exists (firstn (length m' - 2) m'), (skipn (length m' - 2) m').
  rewrite <- (firstn_skipn (length m' - 2) m') in Hd.
  apply Forall_app in Hd. destruct Hd as [Hda Hdb].
  repeat split; try assumption.
  - intros E. apply (f_equal (@length _)) in E.
    rewrite length_firstn in E. cbn [length] in E. lia.
  - rewrite length_skipn. lia.
  - rewrite firstn_skipn. unfold m'. now rewrite digits_value_zeros.
Qed.

(** Reading back the two-decimal notation gives the Number of the cents. *)
Lemma parseFloat_fixed2 (neg : bool) (n : Z) :
  0 <= n ->
  parseFloat ((if neg then js "-" else []) ++ fixed2 n) = round_decimal neg n (-2).
Proof.
  intros Hn. destruct (fixed2_shape n Hn) as (a & b & -> & Hne & Hlen & Ha & Hb & Hv).
  destruct a as [|c a]; [congruence|].
  assert (Hc : is_digit c = true) by (inversion Ha; assumption).
  cbn [app]. rewrite (parseFloat_signed neg c _ Hc).
  change (c :: a ++ 46%N :: b) with ((c :: a) ++ 46%N :: b).
  rewrite <- (app_nil_r b) at 1.
  rewrite (unsigned_decimal_point neg (c :: a) b []); try assumption; try exact I.
  rewrite Hv, Hlen. reflexivity.
Qed.

(** ** Numbers from [10^21] on *)

Lemma number_eqb_eq (x y : number) : number_eqb x y = true -> x = y.
Proof.
  destruct x as [a|a| |a m e], y as [b|b| |b m' e']; cbn [number_eqb];
    try discriminate; try reflexivity.
  - intros H. apply eqb_prop in H. now subst.
  - intros H. apply eqb_prop in H. now subst.
  - intros H. apply andb_prop in H. destruct H as [H He].
    apply andb_prop in H. destruct H as [Hs Hm].
    apply eqb_prop in Hs. apply Pos.eqb_eq in Hm. apply Z.eqb_eq in He. now subst.
Qed.

Lemma shortest_decimal_reads_back (fuel : nat) :
  forall k n X, 0 < X -> Z.of_nat fuel + k - 1 <= n ->
    let '(s, p) := shortest_decimal fuel k n X in
    0 < s /\ 0 <= p /\ Z2num (s * 10 ^ p) = Z2num X.
Proof.
  induction fuel as [|fuel IH]; intros k n X HX Hk.
  - cbn [shortest_decimal]. rewrite Z.pow_0_r, Z.mul_1_r. repeat split; lia.
  - cbn [shortest_decimal].
    assert (Hp : 0 <= n - k) by lia.
    assert (Hlo : 0 <= X / 10 ^ (n - k))
      by (apply Z.div_pos; [lia|apply Z.pow_pos_nonneg; lia]).
    set (lo := X / 10 ^ (n - k)) in *.
    destruct ((0 <? lo) && number_eqb (Z2num (lo * 10 ^ (n - k))) (Z2num X)) eqn:Elo;
      destruct (number_eqb (Z2num ((lo + 1) * 10 ^ (n - k))) (Z2num X)) eqn:Ehi;
      cbn [andb].
    + apply andb_prop in Elo. destruct Elo as [Hpos Elo].
      apply Z.ltb_lt in Hpos. apply number_eqb_eq in Elo, Ehi.
      destruct (_ ?= _); [destruct (Z.even lo)| |]; repeat split; auto; lia.
    + apply andb_prop in Elo. destruct Elo as [Hpos Elo].
      apply Z.ltb_lt in Hpos. apply number_eqb_eq in Elo. repeat split; auto.
    + apply number_eqb_eq in Ehi. repeat split; auto; lia.
    + apply IH; [exact HX|lia].
Qed.

Lemma strip_zeros_value (fuel : nat) :
  forall s p, 0 < s -> 0 <= p ->
    let '(s', p') := strip_zeros fuel s p in
    0 < s' /\ 0 <= p' /\ s' * 10 ^ p' = s * 10 ^ p.
Proof.
  induction fuel as [|fuel IH]; intros s p Hs Hp; cbn [strip_zeros];
    [repeat split; lia|].
  destruct (Z.eqb_spec (s mod 10) 0) as [E|E]; cbn [andb]; [|repeat split; lia].
  destruct (Z.eqb_spec s 0) as [E0|E0]; cbn [negb]; [lia|].
  pose proof (Z.div_mod s 10 ltac:(lia)) as Hdm.
  assert (Hq : 0 < s / 10) by lia.
  specialize (IH (s / 10) (p + 1) Hq ltac:(lia)).
  destruct (strip_zeros fuel (s / 10) (p + 1)) as [s' p'].
  destruct IH as (H1 & H2 & H3). repeat split; try assumption.
  rewrite H3, Z.pow_add_r by lia. lia.
Qed.

Lemma binary_round_sign (s : bool) (m : positive) (e : Z) :
  binary_round prec emax s m e =
  (if s then SFopp else fun x => x) (binary_round prec emax false m e).
Proof.
  unfold binary_round, binary_round_aux.
  destruct (shl_align m e _) as [mz ez].
  destruct (shr_fexp prec emax (Z.pos mz) ez loc_Exact) as [mrs' e'].
  destruct (shr_fexp prec emax _ e' loc_Exact) as [mrs'' e''].
  destruct (shr_m mrs'') as [|q|q]; destruct s; try reflexivity;
    destruct (e'' <=? emax - prec); reflexivity.
Qed.

(** Equal magnitudes read as equal Numbers whatever the sign. *)
Lemma Z2num_signed (neg : bool) (a b : Z) :
  0 < a -> 0 < b -> Z2num a = Z2num b ->
  binary_normalize prec emax (cond_Zopp neg a) 0 neg = Z2num (cond_Zopp neg b).
Proof.
  intros Ha Hb H. destruct neg; cbn [cond_Zopp]; [|exact H].
  destruct a as [|a|a], b as [|b|b]; try lia.
  unfold Z2num in *. cbn [Z.opp binary_normalize] in *.
  rewrite (binary_round_sign true a), (binary_round_sign true b). now rewrite H.
Qed.

Lemma toString_large_reads_back (neg : bool) (X : Z) :
  10 ^ 21 <= X ->
  parseFloat ((if neg then js "-" else []) ++ toString_large X) =
  Z2num (cond_Zopp neg X).
Proof.
  intros HX. unfold toString_large.
  assert (H0 : 0 <= X) by lia.
  destruct (decimal_spec X H0) as (_ & HallX & HvalX).
  pose proof (digits_value_bound _ HallX) as HbX. rewrite HvalX in HbX.
  assert (Hn : 17 <= Z.of_nat (length (decimal X))).
  { destruct (Z.le_gt_cases 17 (Z.of_nat (length (decimal X)))) as [|Hlt]; [assumption|].
    assert (10 ^ Z.of_nat (length (decimal X)) <= 10 ^ 21)
      by (apply Z.pow_le_mono_r; lia). lia. }
  pose proof (shortest_decimal_reads_back 17 1 (Z.of_nat (length (decimal X))) X
                ltac:(lia) ltac:(lia)) as Hsd.
  destruct (shortest_decimal 17 1 _ X) as [s0 p0]. destruct Hsd as (Hs0 & Hp0 & Hv0).
  pose proof (strip_zeros_value 17 s0 p0 Hs0 Hp0) as Hsz.
  destruct (strip_zeros 17 s0 p0) as [s p]. destruct Hsz as (Hs & Hp & Hv).
  rewrite <- Hv in Hv0. clear Hv Hs0 Hp0 s0 p0.
  destruct (decimal_spec s ltac:(lia)) as (Hne & Hall & Hval).
  assert (Hres : round_decimal neg s p = Z2num (cond_Zopp neg X)).
  { unfold round_decimal. rewrite (proj2 (Z.eqb_neq s 0)) by lia.
    rewrite (proj2 (Z.leb_le 0 p)) by lia.
    apply Z2num_signed; [apply Z.mul_pos_pos; [lia|apply Z.pow_pos_nonneg; lia]|lia|].
    exact Hv0. }
  rewrite <- Hres. cbv zeta.
  destruct (decimal s) as [|d [|d' rest]] eqn:Eds; [congruence| |].
  - assert (Hd : is_digit d = true) by (inversion Hall; assumption).
    rewrite (parseFloat_signed neg d _ Hd).
    change (d :: js "e+" ++ decimal (Z.of_nat (length [d]) + p - 1))
      with ([d] ++ js "e+" ++ decimal (Z.of_nat (length [d]) + p - 1)).
    rewrite unsigned_decimal_integer; [|discriminate|exact Hall|].
    + rewrite exponent_part_plus by (cbn [length]; lia). rewrite Hval.
      f_equal. cbn [length]. lia.
    + split; [reflexivity|discriminate].
  - assert (Hd : is_digit d = true) by (inversion Hall; assumption).
    rewrite (parseFloat_signed neg d _ Hd).
    set (e := Z.of_nat (length (d :: d' :: rest)) + p - 1).
    change (d :: 46%N :: (d' :: rest) ++ js "e+" ++ decimal e)
      with ([d] ++ 46%N :: (d' :: rest) ++ js "e+" ++ decimal e).
    pose proof (Forall_inv_tail Hall) as Hrest.
    rewrite unsigned_decimal_point;
      [|discriminate|now constructor|exact Hrest|reflexivity].
    rewrite exponent_part_plus by (unfold e; cbn [length]; lia).
    change ([d] ++ d' :: rest) with (d :: d' :: rest). rewrite Hval.
    f_equal. unfold e. cbn [length]. lia.
Qed.

(** ** Integers as Numbers *)

Lemma digits2_pos_bounds (p : positive) :
  2 ^ (Z.pos (digits2_pos p) - 1) <= Z.pos p < 2 ^ Z.pos (digits2_pos p).
Proof.
  induction p as [p IH|p IH|]; cbn [digits2_pos]; [| |cbn; lia];
    rewrite Pos2Z.inj_succ;
    replace (Z.succ (Z.pos (digits2_pos p)) - 1)
      with (Z.succ (Z.pos (digits2_pos p) - 1)) by lia;
    rewrite !Z.pow_succ_r by lia; lia.
Qed.

Lemma digits2_pos_le (p : positive) (k : Z) :
  Z.pos p < 2 ^ k -> Z.pos (digits2_pos p) <= k.
Proof.
  intros H. destruct (Z.le_gt_cases (Z.pos (digits2_pos p)) k) as [|Hgt]; [assumption|].
  pose proof (digits2_pos_bounds p) as [Hlo _].
  assert (2 ^ k <= 2 ^ (Z.pos (digits2_pos p) - 1)).
  { destruct (Z.le_gt_cases 0 k); [apply Z.pow_le_mono_r; lia|].
    rewrite (Z.pow_neg_r 2 k) by lia. apply Z.pow_nonneg. lia. }
  lia.
Qed.

Lemma iter_xO_digits (p k : positive) :
  digits2_pos (Pos.iter xO p k) = (digits2_pos p + k)%positive.
Proof.
  induction k as [|k IH] using Pos.peano_ind.
  - cbn. lia.
  - rewrite Pos.iter_succ. cbn [digits2_pos]. rewrite IH. lia.
Qed.

Lemma iter_xO_value (p k : positive) :
  Z.pos (Pos.iter xO p k) = Z.pos p * 2 ^ Z.pos k.
Proof.
  induction k as [|k IH] using Pos.peano_ind.
  - cbn. lia.
  - rewrite Pos.iter_succ, Pos2Z.inj_xO, IH, Pos2Z.inj_succ, Z.pow_succ_r; lia.
Qed.

(** A mantissa of 53 bits with an exponent in range is not rounded. *)
Lemma binary_round_aux_exact (s : bool) (m : positive) (e : Z) :
  Z.pos (digits2_pos m) = 53 -> -1074 <= e <= 971 ->
  binary_round_aux prec emax s (Z.pos m) e loc_Exact = S754_finite s m e.
Proof.
  intros Hd He.
  assert (Hf : fexp prec emax (Zdigits2 (Z.pos m) + e) - e = 0).
  { cbn [Zdigits2]. rewrite Hd. unfold fexp, emin, prec, emax. lia. }
  unfold binary_round_aux, shr_fexp. rewrite Hf. cbn [shr shr_record_of_loc].
  cbn [shr_m loc_of_shr_record round_nearest_even].
  rewrite Hf. cbn [shr shr_m shr_record_of_loc].
  unfold prec, emax. now rewrite (proj2 (Z.leb_le e (1024 - 53))) by lia.
Qed.

(** An integer below [2^53] in magnitude is a Number. *)
Lemma Z2num_exact (n : Z) :
  n <> 0 -> Z.abs n < 2 ^ 53 -> is_integer (Z2num n) n.
Proof.
  intros Hz Hb.
  assert (H : forall (s : bool) (p : positive),
             Z.pos p < 2 ^ 53 ->
             is_integer (binary_round prec emax s p 0) (cond_Zopp s (Z.pos p))).
  { intros s p Hp. pose proof (digits2_pos_le p 53 Hp) as Hd.
    pose proof (Pos2Z.is_pos (digits2_pos p)) as Hd0.
    unfold binary_round.
    assert (Hf : fexp prec emax (Z.pos (digits2_pos p) + 0) = Z.pos (digits2_pos p) - 53)
      by (unfold fexp, emin, prec, emax; lia).
    rewrite Hf. unfold shl_align.
    destruct (Z.pos (digits2_pos p) - 53 - 0) as [|k|k] eqn:Ek; [|lia|].
    - rewrite binary_round_aux_exact by lia.
      unfold is_integer, numerator, denominator. cbn. destruct s; cbn; lia.
    - assert (Hk : Z.pos k = 53 - Z.pos (digits2_pos p)) by lia.
      rewrite binary_round_aux_exact;
        [|rewrite iter_xO_digits, Pos2Z.inj_add; lia|lia].
      unfold is_integer, numerator, denominator.
      rewrite iter_xO_value, Z.max_r, Z.max_l by lia.
      replace (- (Z.pos (digits2_pos p) - 53)) with (Z.pos k) by lia.
      destruct s; cbn [cond_Zopp]; lia. }
  unfold Z2num. destruct n as [|p|p]; [congruence| |].
  - exact (H false p Hb).
  - exact (H true p Hb).
Qed.

(** ** The composed record *)

Lemma valid_mantissa (s : bool) (m : positive) (e : Z) :
  valid_binary prec emax (S754_finite s m e) = true -> Z.pos m < 2 ^ 53.
Proof.
  cbn [valid_binary]. unfold bounded, canonical_mantissa. intros H.
  apply andb_prop in H. destruct H as [H _]. apply Z.eqb_eq in H.
  pose proof (digits2_pos_bounds m) as [_ Hm].
  assert (Hd : Z.pos (digits2_pos m) <= 53)
    by (unfold fexp, emin, prec, emax in H; lia).
  assert (2 ^ Z.pos (digits2_pos m) <= 2 ^ 53) by (apply Z.pow_le_mono_r; lia).
  lia.
Qed.

(** [Math.round] gives the nearest integer, the larger one at a tie. *)
Lemma Math_round_nearest (x : number) :
  valid_binary prec emax x = true -> rounded_to_integer x (Math_round x).
Proof.
  destruct x as [s|s| |s m e]; try reflexivity. intros Hv.
  pose proof (valid_mantissa _ _ _ Hv) as Hm.
  cbn [rounded_to_integer Math_round].
  destruct (Z.leb_spec 0 e) as [He|He].
  - exists (numerator s m e). unfold nearest_integer, is_integer, denominator.
    rewrite Z.max_r by lia. cbn. lia.
  - pose proof (denominator_pos e) as Hd.
    pose proof (round_half_up_nearest (numerator s m e) (denominator e) Hd) as Hn.
    exists (round_half_up (numerator s m e) (denominator e)).
    split; [exact Hn|].
    destruct (Z.eqb_spec (round_half_up (numerator s m e) (denominator e)) 0) as [E|E];
      [exact E|].
    apply Z2num_exact; [exact E|].
    assert (Hden : 2 <= denominator e).
    { unfold denominator. rewrite Z.max_l by lia.
      replace (- e) with (Z.succ (- e - 1)) by lia.
      rewrite Z.pow_succ_r by lia.
      pose proof (Z.pow_pos_nonneg 2 (- e - 1) ltac:(lia) ltac:(lia)). lia. }
    assert (Hnum : Z.abs (numerator s m e) < 2 ^ 53).
    { unfold numerator. rewrite Z.max_r by lia. destruct s; cbn [cond_Zopp]; lia. }
    revert Hn Hnum Hden. generalize (round_half_up (numerator s m e) (denominator e)).
    generalize (numerator s m e), (denominator e). clear. intros num den n Hn Hnum Hden.
    change (2 ^ 53) with 9007199254740992 in *. nia.
Qed.

(** [parseFloat(x.toFixed(2))] is [x] rounded to two decimals. *)
Lemma toFixed2_rounds (x : number) : rounded_to_cents x (parseFloat (toFixed2 x)).
Proof.
  destruct x as [s|s| |s m e]; cbn [rounded_to_cents toFixed2].
  - reflexivity.
  - destruct s; reflexivity.
  - reflexivity.
  - pose proof (denominator_pos e) as Hd.
    assert (Hnum : 0 < numerator false m e).
    { unfold numerator. cbn [cond_Zopp]. apply Z.mul_pos_pos; [lia|].
      apply Z.pow_pos_nonneg; lia. }
    destruct (Z.leb_spec (10 ^ 21 * denominator e) (numerator false m e)) as [H|H].
    + apply toString_large_reads_back. apply Z.div_le_lower_bound; lia.
    + exists (round_half_up (100 * numerator false m e) (denominator e)). split.
      * apply round_half_up_nearest. exact Hd.
      * apply parseFloat_fixed2. apply round_half_up_nonneg; lia.
Qed.

(** C3: the record holds the sessions rounded to the nearest integer, the
    order count as it is, the sales rounded to two decimals, the conversion
    rate times 100 rounded to two decimals, and [null] in the four delta
    fields and the two series fields. *)
Theorem compose_rounds (shopify : Shopify.result) (ga : GA.result) :
  valid_binary prec emax (GA.sessions ga) = true ->
  let output := compose shopify ga in
  rounded_to_integer (GA.sessions ga) (Output.sessions output)
  /\ Output.orders output = Shopify.orders shopify
  /\ rounded_to_cents (Shopify.sales shopify) (Output.sales output)
  /\ rounded_to_cents (Number_mul (GA.conversionRate ga) (Z2num 100))
                      (Output.conversionRate output)
  /\ Output.sessionsDelta output = None
  /\ Output.ordersDelta output = None
  /\ Output.salesDelta output = None
  /\ Output.conversionRateDelta output = None
  /\ Output.labels output = None
  /\ Output.series output = None.
Proof.
  intros Hv output. subst output. cbn [compose Output.sessions Output.orders
    Output.sales Output.conversionRate Output.sessionsDelta Output.ordersDelta
    Output.salesDelta Output.conversionRateDelta Output.labels Output.series].
  split; [now apply Math_round_nearest|].
  split; [reflexivity|].
  split; [apply toFixed2_rounds|].
  split; [apply toFixed2_rounds|].
  repeat split.
Qed.

(** The example of the specification: 500 sessions, 10 orders, 200.00 of
    sales and a rate of 3.33. *)
Lemma compose_rounds_witness :
  valid_binary prec emax (GA.sessions analytics_example) = true
  /\ rounded_to_integer (GA.sessions analytics_example) (Z2num 500)
  /\ rounded_to_cents (Shopify.sales shopify_example) (Z2num 200)
  /\ compose shopify_example analytics_example =
     {| Output.sessions := Z2num 500;
        Output.orders := 10;
        Output.sales := Z2num 200;
        Output.conversionRate := parseFloat (js "3.33");
        Output.sessionsDelta := None;
        Output.ordersDelta := None;
        Output.salesDelta := None;
        Output.conversionRateDelta := None;
        Output.labels := None;
        Output.series := None |}.
Proof.
  assert (Hv : valid_binary prec emax (GA.sessions analytics_example) = true)
    by (vm_compute; reflexivity).
  assert (Hc : compose shopify_example analytics_example =
               {| Output.sessions := Z2num 500;
                  Output.orders := 10;
                  Output.sales := Z2num 200;
                  Output.conversionRate := parseFloat (js "3.33");
                  Output.sessionsDelta := None;
                  Output.ordersDelta := None;
                  Output.salesDelta := None;
                  Output.conversionRateDelta := None;
                  Output.labels := None;
                  Output.series := None |})
    by (vm_compute; reflexivity).
  destruct (compose_rounds shopify_example analytics_example Hv) as (H1 & _ & H3 & _).
  rewrite Hc in H1, H3. cbn [Output.sessions Output.sales] in H1, H3.
  repeat split; assumption.
Defined.

(* ================================================================== *)
(** * Further properties *)

(** ** Percent-encoding and decoding *)

Ltac N_cases :=
  repeat match goal with
         | |- context [(?a <? ?b)%N] => destruct (N.ltb_spec a b)
         | |- context [(?a <=? ?b)%N] => destruct (N.leb_spec a b)
         | |- context [(?a =? ?b)%N] => destruct (N.eqb_spec a b)
         end.

Ltac N_div := zify; Z.to_euclidean_division_equations; lia.

Lemma hex_digit_char (d : N) : (d < 16)%N -> hex_digit (hex_char d) = Some d.
Proof.
  intros Hd. unfold hex_digit, hex_char. destruct (N.ltb_spec d 10).
  - N_cases; cbn [andb]; try lia. f_equal. lia.
  - N_cases; cbn [andb]; try lia. f_equal. lia.
Qed.

Lemma ParseHexOctet_percent (b : N) :
  (b < 256)%N -> ParseHexOctet (hex_char (b / 16)) (hex_char (b mod 16)) = Some b.
Proof.
  intros Hb. unfold ParseHexOctet.
  rewrite !hex_digit_char by N_div. f_equal. N_div.
Qed.

Lemma escape_octet_percent (b : N) :
  (b < 256)%N -> escape_octet 37 (hex_char (b / 16)) (hex_char (b mod 16)) = Some b.
Proof. intros Hb. unfold escape_octet. cbn [N.eqb Pos.eqb]. now apply ParseHexOctet_percent. Qed.

Lemma decode_percent1 (b : N) (t : jsstring) :
  (b < 128)%N ->
  decodeURIComponent (percent b ++ t) =
  bindC (decodeURIComponent t) (fun r => Return (b :: r)).
Proof.
  intros Hb. unfold percent. cbn [app decodeURIComponent N.eqb Pos.eqb].
  rewrite ParseHexOctet_percent by lia.
  unfold leading_ones. now rewrite (proj2 (N.ltb_lt b 128)) by exact Hb.
Qed.

Lemma leading_ones_lead (b : N) :
  (192 <= b < 248)%N ->
  leading_ones b = if (b <? 224)%N then 2%nat else if (b <? 240)%N then 3%nat else 4%nat.
Proof. intros Hb. unfold leading_ones. N_cases; try lia; reflexivity. Qed.

Lemma decode_percent2 (b0 b1 : N) (t : jsstring) :
  (192 <= b0 < 224)%N -> (b1 < 256)%N ->
  decodeURIComponent (percent b0 ++ percent b1 ++ t) =
  decoded [Some b0; Some b1] (decodeURIComponent t).
Proof.
  intros H0 H1. unfold percent. cbn [app decodeURIComponent N.eqb Pos.eqb].
  rewrite ParseHexOctet_percent, leading_ones_lead by lia.
  rewrite (proj2 (N.ltb_lt b0 224)) by lia.
  now rewrite escape_octet_percent by lia.
Qed.

Lemma decode_percent3 (b0 b1 b2 : N) (t : jsstring) :
  (224 <= b0 < 240)%N -> (b1 < 256)%N -> (b2 < 256)%N ->
  decodeURIComponent (percent b0 ++ percent b1 ++ percent b2 ++ t) =
  decoded [Some b0; Some b1; Some b2] (decodeURIComponent t).
Proof.
  intros H0 H1 H2. unfold percent. cbn [app decodeURIComponent N.eqb Pos.eqb].
  rewrite ParseHexOctet_percent, leading_ones_lead by lia.
  rewrite (proj2 (N.ltb_ge b0 224)), (proj2 (N.ltb_lt b0 240)) by lia.
  now rewrite !escape_octet_percent by lia.
Qed.

Lemma decode_percent4 (b0 b1 b2 b3 : N) (t : jsstring) :
  (240 <= b0 < 248)%N -> (b1 < 256)%N -> (b2 < 256)%N -> (b3 < 256)%N ->
  decodeURIComponent (percent b0 ++ percent b1 ++ percent b2 ++ percent b3 ++ t) =
  decoded [Some b0; Some b1; Some b2; Some b3] (decodeURIComponent t).
Proof.
  intros H0 H1 H2 H3. unfold percent. cbn [app decodeURIComponent N.eqb Pos.eqb].
  rewrite ParseHexOctet_percent, leading_ones_lead by lia.
  rewrite (proj2 (N.ltb_ge b0 224)), (proj2 (N.ltb_ge b0 240)) by lia.
  now rewrite !escape_octet_percent by lia.
Qed.

(** A code point that is no surrogate, percent-encoded, decodes to its
    UTF-16 form. *)
Lemma decode_percent_encode (cp : N) (t : jsstring) :
  (cp <= 1114111)%N -> ~ (55296 <= cp <= 57343)%N ->
  decodeURIComponent (percent_encode cp ++ t) =
  bindC (decodeURIComponent t) (fun r => Return (UTF16EncodeCodePoint cp ++ r)).
Proof.
  intros Hmax Hsur. unfold percent_encode, utf8_octets.
  destruct (N.ltb_spec cp 128) as [H1|H1]; [|destruct (N.ltb_spec cp 2048) as [H2|H2];
    [|destruct (N.ltb_spec cp 65536) as [H3|H3]]];
    cbn [map concat]; rewrite ?app_nil_r, <- ?app_assoc.
  - rewrite decode_percent1 by exact H1.
    unfold UTF16EncodeCodePoint. now rewrite (proj2 (N.ltb_lt cp 65536)) by lia.
  - rewrite decode_percent2 by N_div.
    unfold decoded. cbn [fold_right utf8_code_point]. unfold is_continuation.
    replace ((192 + cp / 64 - 192) * 64 + (128 + cp mod 64 - 128))%N with cp by N_div.
    rewrite (proj2 (N.leb_le 128 (128 + cp mod 64))) by N_div.
    rewrite (proj2 (N.ltb_lt (128 + cp mod 64) 192)) by N_div.
    rewrite (proj2 (N.leb_le 128 cp)) by lia. reflexivity.
  - rewrite decode_percent3 by N_div.
    unfold decoded. cbn [fold_right utf8_code_point]. unfold is_continuation.
    replace ((224 + cp / 4096 - 224) * 4096 + (128 + (cp / 64) mod 64 - 128) * 64
             + (128 + cp mod 64 - 128))%N with cp by N_div.
    rewrite (proj2 (N.leb_le 128 (128 + (cp / 64) mod 64))) by N_div.
    rewrite (proj2 (N.ltb_lt (128 + (cp / 64) mod 64) 192)) by N_div.
    rewrite (proj2 (N.leb_le 128 (128 + cp mod 64))) by N_div.
    rewrite (proj2 (N.ltb_lt (128 + cp mod 64) 192)) by N_div.
    rewrite (proj2 (N.leb_le 2048 cp)) by lia. cbn [andb].
    destruct (N.leb_spec 55296 cp), (N.leb_spec cp 57343); cbn [andb negb];
      try reflexivity. lia.
  - rewrite decode_percent4 by N_div.
    unfold decoded. cbn [fold_right utf8_code_point]. unfold is_continuation.
    replace ((240 + cp / 262144 - 240) * 262144 + (128 + (cp / 4096) mod 64 - 128) * 4096
             + (128 + (cp / 64) mod 64 - 128) * 64 + (128 + cp mod 64 - 128))%N
      with cp by N_div.
    rewrite (proj2 (N.leb_le 128 (128 + (cp / 4096) mod 64))) by N_div.
    rewrite (proj2 (N.ltb_lt (128 + (cp / 4096) mod 64) 192)) by N_div.
    rewrite (proj2 (N.leb_le 128 (128 + (cp / 64) mod 64))) by N_div.
    rewrite (proj2 (N.ltb_lt (128 + (cp / 64) mod 64) 192)) by N_div.
    rewrite (proj2 (N.leb_le 128 (128 + cp mod 64))) by N_div.
    rewrite (proj2 (N.ltb_lt (128 + cp mod 64) 192)) by N_div.
    rewrite (proj2 (N.leb_le 65536 cp)), (proj2 (N.leb_le cp 1114111)) by lia.
    reflexivity.
Qed.

Lemma unescaped_not_percent (c : N) : uri_unescaped c = true -> c <> 37%N.
Proof. intros H ->. discriminate H. Qed.

(** What [encodeURIComponent] produced decodes to the original string. *)
Ltac returned :=
  let H := fresh in
  intros H;
  match type of H with
  | Return ?x = Return ?q => assert (q = x) by congruence; subst q; clear H
  end.

Lemma decode_encode (s : jsstring) :
  forall q, well_formed s -> encodeURIComponent s = Return q ->
            decodeURIComponent q = Return s.
Proof.
  remember (length s) as n eqn:Hn. revert s Hn.
  induction n as [n IH] using lt_wf_ind. intros s -> q Hwf.
  assert (IH' : forall r t, (length r < length s)%nat -> well_formed r ->
                            encodeURIComponent r = Return t ->
                            decodeURIComponent t = Return r)
    by (intros r t Hr; exact (IH _ Hr r eq_refl t)).
  clear IH. destruct s as [|c r]; [intros [= <-]; reflexivity|].
  inversion Hwf as [|? ? Hc Hr]; subst. cbn [encodeURIComponent length] in *.
  destruct (uri_unescaped c) eqn:Eu.
  - destruct (encodeURIComponent r) as [t| |] eqn:Er; cbn [bindC]; try discriminate.
    returned. cbn [decodeURIComponent].
    rewrite (proj2 (N.eqb_neq c 37)) by now apply unescaped_not_percent.
    now rewrite (IH' r t ltac:(lia) Hr Er).
  - destruct (is_trail_surrogate c) eqn:Et; [discriminate|].
    destruct (is_lead_surrogate c) eqn:El.
    + unfold is_lead_surrogate in El. apply andb_prop in El. destruct El as [L1 L2].
      apply N.leb_le in L1, L2.
      destruct r as [|d r']; [discriminate|].
      destruct (is_trail_surrogate d) eqn:Ed; [|discriminate].
      unfold is_trail_surrogate in Ed. apply andb_prop in Ed. destruct Ed as [D1 D2].
      apply N.leb_le in D1, D2.
      inversion Hr as [|? ? Hd Hr']; subst.
      destruct (encodeURIComponent r') as [t| |] eqn:Er; cbn [bindC]; try discriminate.
      returned.
      rewrite decode_percent_encode by lia.
      rewrite (IH' r' t ltac:(cbn [length]; lia) Hr' Er). cbn [bindC].
      unfold UTF16EncodeCodePoint.
      rewrite (proj2 (N.ltb_ge _ 65536)) by lia. cbn [app]. do 3 f_equal; N_div.
    + assert (Hns : ~ (55296 <= c <= 57343)%N).
      { unfold is_trail_surrogate in Et. unfold is_lead_surrogate in El.
        apply andb_false_iff in Et, El. rewrite !N.leb_gt in Et, El. lia. }
      destruct (encodeURIComponent r) as [t| |] eqn:Er; cbn [bindC]; try discriminate.
      returned.
      rewrite decode_percent_encode by lia.
      rewrite (IH' r t ltac:(lia) Hr Er). cbn [bindC].
      unfold UTF16EncodeCodePoint. now rewrite (proj2 (N.ltb_lt c 65536)) by exact Hc.
Qed.

Lemma hex_char_safe (d : N) : (d < 16)%N -> uri_unescaped (hex_char d) = true.
Proof.
  intros Hd. unfold hex_char, uri_unescaped. destruct (N.ltb_spec d 10).
  - assert (H1 : ((48 <=? 48 + d) && (48 + d <=? 57))%N = true)
      by (apply andb_true_intro; split; apply N.leb_le; lia).
    rewrite H1, orb_true_r. reflexivity.
  - assert (H1 : ((65 <=? 55 + d) && (55 + d <=? 90))%N = true)
      by (apply andb_true_intro; split; apply N.leb_le; lia).
    rewrite H1. reflexivity.
Qed.

Lemma percent_safe (b : N) :
  (b < 256)%N -> Forall (fun c => url_safe c = true) (percent b).
Proof.
  intros Hb. unfold percent, url_safe.
  repeat constructor; rewrite ?hex_char_safe by N_div; reflexivity.
Qed.

Lemma percent_encode_safe (cp : N) :
  (cp <= 1114111)%N -> Forall (fun c => url_safe c = true) (percent_encode cp).
Proof.
  intros Hcp. unfold percent_encode, utf8_octets.
  N_cases; cbn [map concat]; rewrite ?app_nil_r;
    repeat (apply Forall_app; split); apply percent_safe; N_div.
Qed.

(** [encodeURIComponent] produces unreserved characters and percent signs
    only. *)
Lemma encodeURIComponent_safe (s : jsstring) :
  forall q, well_formed s -> encodeURIComponent s = Return q ->
            Forall (fun c => url_safe c = true) q.
Proof.
  remember (length s) as n eqn:Hn. revert s Hn.
  induction n as [n IH] using lt_wf_ind. intros s -> q Hwf.
  assert (IH' : forall r t, (length r < length s)%nat -> well_formed r ->
                            encodeURIComponent r = Return t ->
                            Forall (fun c => url_safe c = true) t)
    by (intros r t Hr; exact (IH _ Hr r eq_refl t)).
  clear IH. destruct s as [|c r]; [intros [= <-]; constructor|].
  inversion Hwf as [|? ? Hc Hr]; subst. cbn [encodeURIComponent length] in *.
  destruct (uri_unescaped c) eqn:Eu.
  - destruct (encodeURIComponent r) as [t| |] eqn:Er; cbn [bindC]; try discriminate.
    returned. constructor; [unfold url_safe; now rewrite Eu|].
    exact (IH' r t ltac:(lia) Hr Er).
  - destruct (is_trail_surrogate c) eqn:Et; [discriminate|].
    destruct (is_lead_surrogate c) eqn:El.
    + unfold is_lead_surrogate in El. apply andb_prop in El. destruct El as [L1 L2].
      apply N.leb_le in L1, L2.
      destruct r as [|d r']; [discriminate|].
      destruct (is_trail_surrogate d) eqn:Ed; [|discriminate].
      unfold is_trail_surrogate in Ed. apply andb_prop in Ed. destruct Ed as [D1 D2].
      apply N.leb_le in D1, D2.
      inversion Hr as [|? ? Hd Hr']; subst.
      destruct (encodeURIComponent r') as [t| |] eqn:Er; cbn [bindC]; try discriminate.
      returned. apply Forall_app. split; [apply percent_encode_safe; lia|].
      exact (IH' r' t ltac:(cbn [length]; lia) Hr' Er).
    + destruct (encodeURIComponent r) as [t| |] eqn:Er; cbn [bindC]; try discriminate.
      returned. apply Forall_app. split; [apply percent_encode_safe; lia|].
      exact (IH' r t ltac:(lia) Hr Er).
Qed.

Lemma url_safe_plain (c : N) :
  url_safe c = true ->
  cursor_char c = true /\ c <> 44%N /\ c <> 59%N /\ c <> 38%N /\ c <> 61%N
  /\ c <> 63%N /\ c <> 35%N /\ c <> 32%N.
Proof.
  intros H. repeat split; try (intros ->; discriminate H).
  unfold cursor_char.
  destruct (N.eqb_spec c 38) as [->|_]; [discriminate H|].
  destruct (N.eqb_spec c 62) as [->|_]; [discriminate H|]. reflexivity.
Qed.

(** ** Splitting and trimming *)

Lemma split_nonempty (sep : N) (s : jsstring) : split sep s <> [].
Proof.
  destruct s as [|c s]; cbn [split]; [discriminate|].
  destruct (c =? sep)%N; [discriminate|]. destruct (split sep s); discriminate.
Qed.

Lemma split_app_sep (sep : N) (a b : jsstring) :
  split sep (a ++ sep :: b) = split sep a ++ split sep b.
Proof.
  induction a as [|c a IH]; cbn [app split].
  - now rewrite N.eqb_refl.
  - destruct (c =? sep)%N; [now rewrite IH|]. rewrite IH.
    pose proof (split_nonempty sep a) as Hne.
    destruct (split sep a) as [|p ps]; [congruence|reflexivity].
Qed.

Lemma split_none (sep : N) (s : jsstring) :
  Forall (fun c => c <> sep) s -> split sep s = [s].
Proof.
  induction 1 as [|c s Hc Hs IH]; [reflexivity|]. cbn [split].
  rewrite (proj2 (N.eqb_neq c sep)) by exact Hc. now rewrite IH.
Qed.

(** A tail without separator joins the last part. *)
Lemma split_app_tail (sep : N) (a t : jsstring) :
  Forall (fun c => c <> sep) t ->
  exists init last,
    split sep a = init ++ [last] /\ split sep (a ++ t) = init ++ [last ++ t].
Proof.
  intros Ht. induction a as [|c a (init & last & E1 & E2)]; cbn [app split].
  - exists [], []. split; [reflexivity|]. now rewrite split_none.
  - destruct (c =? sep)%N.
    + exists ([] :: init), last. now rewrite E1, E2.
    + rewrite E1, E2. destruct init as [|p ps].
      * exists [], (c :: last). split; reflexivity.
      * exists ((c :: p) :: ps), last. split; reflexivity.
Qed.

Lemma split_parts (P : N -> Prop) (sep : N) (s : jsstring) :
  Forall P s -> Forall (Forall P) (split sep s).
Proof.
  induction 1 as [|c s Hc Hs IH]; cbn [split]; [repeat constructor|].
  destruct (c =? sep)%N; [constructor; [constructor|exact IH]|].
  destruct (split sep s) as [|p ps]; [repeat constructor; exact Hc|].
  inversion IH; subst. constructor; [now constructor|assumption].
Qed.

Lemma split_head_prefix (sep : N) (s p : jsstring) (ps : list jsstring) :
  split sep s = p :: ps -> exists post, s = p ++ post.
Proof.
  revert p ps. induction s as [|c s IH]; intros p ps; cbn [split].
  - intros [= <- <-]. now exists [].
  - destruct (c =? sep)%N; [intros [= <- <-]; now exists (c :: s)|].
    destruct (split sep s) as [|p' ps'] eqn:E.
    + now destruct (split_nonempty sep s).
    + intros [= <- <-]. destruct (IH p' ps' eq_refl) as [post ->].
      now exists post.
Qed.

(** Every part is a piece of the text. *)
Lemma split_part_inside (sep : N) (s x : jsstring) :
  In x (split sep s) -> exists pre post, s = pre ++ x ++ post.
Proof.
  revert x. induction s as [|c s IH]; intros x; cbn [split].
  - intros [<-|[]]. now exists [], [].
  - destruct (c =? sep)%N.
    + intros [<-|H]; [now exists [], (c :: s)|].
      destruct (IH x H) as (pre & post & ->). now exists (c :: pre), post.
    + destruct (split sep s) as [|p ps] eqn:E.
      * now destruct (split_nonempty sep s).
      * intros [<-|H].
        -- destruct (split_head_prefix _ _ _ _ E) as [post ->].
           now exists [], post.
        -- destruct (IH x (or_intror H)) as (pre & post & ->).
           now exists (c :: pre), post.
Qed.

Lemma trimStart_app (a t : jsstring) (c : N) :
  is_space c = false -> trimStart (a ++ c :: t) = trimStart a ++ c :: t.
Proof.
  intros Hc. induction a as [|d a IH]; cbn [app trimStart].
  - now rewrite Hc.
  - now destruct (is_space d).
Qed.

Lemma trimStart_suffix (s : jsstring) : exists sp, s = sp ++ trimStart s.
Proof.
  induction s as [|c s [sp IH]]; [now exists []|]. cbn [trimStart].
  destruct (is_space c); [exists (c :: sp); cbn; now rewrite <- IH|now exists []].
Qed.

Lemma trimStart_idem (s : jsstring) : trimStart (trimStart s) = trimStart s.
Proof.
  induction s as [|c s IH]; [reflexivity|]. cbn [trimStart].
  destruct (is_space c) eqn:E; [exact IH|]. cbn [trimStart]. now rewrite E.
Qed.

Lemma trimEnd_app (a t : jsstring) (c : N) :
  is_space c = false -> trimEnd (a ++ c :: t) = a ++ c :: trimEnd t.
Proof.
  intros Hc. unfold trimEnd. rewrite rev_app_distr. cbn [rev].
  rewrite <- app_assoc. cbn [app]. rewrite trimStart_app by exact Hc.
  rewrite rev_app_distr. cbn [rev]. rewrite rev_involutive.
  now rewrite <- app_assoc.
Qed.

Lemma trimStart_Forall (P : N -> Prop) (s : jsstring) :
  Forall P s -> Forall P (trimStart s).
Proof.
  induction 1 as [|c s Hc Hs IH]; [constructor|]. cbn [trimStart].
  destruct (is_space c); [exact IH|now constructor].
Qed.

Lemma trim_Forall (P : N -> Prop) (s : jsstring) :
  Forall P s -> Forall P (trim s).
Proof.
  intros H. unfold trim, trimEnd. apply Forall_rev, trimStart_Forall, Forall_rev.
  now apply trimStart_Forall.
Qed.

Local Open Scope N_scope.

(** ** The paginator, from the request URL to the cursor *)

Lemma strip_prefix_app (p a b r : jsstring) :
  strip_prefix p a = Some r -> strip_prefix p (a ++ b) = Some (r ++ b).
Proof.
  revert a. induction p as [|x p IH]; intros a; cbn [strip_prefix].
  - now intros [= <-].
  - destruct a as [|y a]; [discriminate|]. cbn [app].
    destruct (x =? y)%N; [apply IH|discriminate].
Qed.

Lemma strip_prefix_app_none (p a t : jsstring) (x : N) :
  strip_prefix p a = None -> ~ In x p -> strip_prefix p (a ++ x :: t) = None.
Proof.
  revert a. induction p as [|y p IH]; intros a; cbn [strip_prefix].
  - discriminate.
  - intros Ha Hx. destruct a as [|z a]; cbn [app].
    + destruct (N.eqb_spec y x) as [->|_]; [elim Hx; now left|reflexivity].
    + destruct (y =? z)%N; [|reflexivity].
      apply IH; [exact Ha|]. intros Hin. apply Hx. now right.
Qed.

Lemma contains_false (p s : jsstring) :
  contains p s = false ->
  strip_prefix p s = None
  /\ match s with [] => True | _ :: s' => contains p s' = false end.
Proof.
  destruct s as [|c s]; cbn [contains];
    destruct (strip_prefix p _); try discriminate; now split.
Qed.

Lemma contains_app_l (p a b : jsstring) :
  contains p (a ++ b) = false -> contains p a = false.
Proof.
  induction a as [|c a IH]; intros H.
  - destruct p as [|x p]; [destruct b; discriminate H|reflexivity].
  - destruct (contains_false _ _ H) as [H1 H2]. cbn [app] in H2.
    cbn [contains].
    destruct (strip_prefix p (c :: a)) as [r|] eqn:E.
    + rewrite (strip_prefix_app _ _ b _ E) in H1. discriminate.
    + now apply IH.
Qed.

Lemma contains_app_r (p a b : jsstring) :
  contains p (a ++ b) = false -> contains p b = false.
Proof.
  induction a as [|c a IH]; intros H; [exact H|].
  apply IH. now destruct (contains_false _ _ H).
Qed.

Lemma contains_part (p : jsstring) (c : N) (s x : jsstring) :
  contains p s = false -> In x (split c s) -> contains p (trimStart x) = false.
Proof.
  intros H Hin. destruct (split_part_inside _ _ _ Hin) as (pre & post & ->).
  apply contains_app_r, contains_app_l in H.
  destruct (trimStart_suffix x) as [sp Hx]. rewrite Hx in H.
  now apply contains_app_r in H.
Qed.

Lemma page_info_chars (x : N) :
  In x (js "page_info=") -> cursor_char x = true /\ is_space x = false.
Proof.
  cbn. intros H. repeat destruct H as [<-|H]; try (split; reflexivity). elim H.
Qed.

Lemma match_here_none (s : jsstring) :
  strip_prefix (js "page_info=") s = None -> match_here s = None.
Proof. intros H. unfold match_here. now rewrite H. Qed.

(** The text in front of the first [page_info=] does not matter. *)
Lemma match_page_info_after (l q post : jsstring) :
  contains (js "page_info=") l = false ->
  q <> [] -> Forall (fun c => cursor_char c = true) q -> stops post ->
  match_page_info (l ++ 38 :: js "page_info=" ++ q ++ post) = Some q.
Proof.
  intros Hl Hq Hall Hstop.
  assert (Hamp : ~ In 38 (js "page_info="))
    by (intros H; apply page_info_chars in H; destruct H; discriminate).
  induction l as [|c l IH].
  - cbn [app]. cbn [match_page_info].
    replace (match_here (38 :: js "page_info=" ++ q ++ post)) with (@None jsstring)
      by reflexivity.
    assert (E : match_here (js "page_info=" ++ q ++ post) = Some q)
      by (apply match_here_spec; exists post; repeat split; assumption).
    destruct (js "page_info=" ++ q ++ post); cbn [match_page_info]; now rewrite E.
  - destruct (contains_false _ _ Hl) as [H1 H2].
    cbn [app match_page_info].
    rewrite match_here_none by (exact (strip_prefix_app_none _ (c :: l) _ _ H1 Hamp)).
    now apply IH.
Qed.

(** A URL without [page_info=] has no cursor, whatever single character
    outside the literal follows it. *)
Lemma match_page_info_absent (l : jsstring) (x : N) :
  contains (js "page_info=") l = false -> ~ In x (js "page_info=") ->
  match_page_info (l ++ [x]) = None.
Proof.
  intros Hl Hx. induction l as [|c l IH].
  - cbn [app match_page_info].
    assert (E : match_here [x] = None).
    { apply match_here_none. cbn [js map list_ascii_of_string strip_prefix].
      destruct (N.eqb_spec (N_of_ascii "p") x) as [<-|_]; [|reflexivity].
      elim Hx. now left. }
    now rewrite E.
  - destruct (contains_false _ _ Hl) as [H1 H2].
    cbn [app match_page_info].
    rewrite match_here_none by (exact (strip_prefix_app_none _ (c :: l) _ _ H1 Hx)).
    now apply IH.
Qed.

Lemma is_next_no_semicolon (x : jsstring) :
  Forall (fun c => c <> 59) x -> is_next (trim x) = false.
Proof.
  intros H. unfold is_next, rel_part.
  now rewrite (split_none 59 (trim x)) by now apply trim_Forall.
Qed.

Lemma trim_keeps (a t : jsstring) (c d : N) :
  is_space c = false -> is_space d = false ->
  trim (a ++ c :: t ++ [d]) = trimStart a ++ c :: t ++ [d].
Proof.
  intros Hc Hd. unfold trim. rewrite trimStart_app by exact Hc.
  replace (trimStart a ++ c :: t ++ [d]) with ((trimStart a ++ c :: t) ++ d :: [])
    by (now rewrite <- app_assoc).
  now rewrite trimEnd_app.
Qed.

Lemma trim_trimmed (a t : jsstring) (c d : N) :
  is_space c = false -> is_space d = false ->
  trim (trimStart a ++ c :: t ++ [d]) = trimStart a ++ c :: t ++ [d].
Proof. intros Hc Hd. now rewrite trim_keeps, trimStart_idem. Qed.

Lemma Forall_neq_dec (k : N) (s : jsstring) :
  forallb (fun x => negb (x =? k)) s = true -> Forall (fun x => x <> k) s.
Proof.
  intros H. apply Forall_forall. intros x Hx Hk.
  rewrite forallb_forall in H. specialize (H x Hx).
  apply negb_true_iff, N.eqb_neq in H. contradiction.
Qed.

Lemma well_formed_dec (s : jsstring) :
  forallb (fun x => x <? 65536) s = true -> well_formed s.
Proof.
  intros H. apply Forall_forall. intros x Hx.
  rewrite forallb_forall in H. now apply N.ltb_lt, H.
Qed.

(** The last part of a header decides when the parts in front of it hold
    no semicolon. *)
Lemma last_part_decides (pre : list jsstring) (s : jsstring) :
  Forall (Forall (fun x => x <> 59)) pre -> is_next (trim s) = true ->
  next_in_parts (map trim (pre ++ [s])) =
  match match_page_info (url_part (trim s)) with
  | Some tok => bindC (decodeURIComponent tok) (fun t => Return (Some t))
  | None => Return None
  end.
Proof.
  intros Hpre Hs. rewrite next_in_parts_find, map_app. cbn [map].
  rewrite (find_first _ (map trim pre) [] (trim s)); try reflexivity; [|exact Hs].
  apply Forall_map. revert Hpre. apply Forall_impl. apply is_next_no_semicolon.
Qed.

(** A trimmed URL piece in front of [; rel="next"] makes a next segment. *)
Lemma next_segment (u : jsstring) :
  Forall (fun x => x <> 59) u -> trim u = u ->
  is_next (u ++ 59 :: rel_tail) = true /\ url_part (u ++ 59 :: rel_tail) = u.
Proof.
  intros Hu Ht. unfold is_next, rel_part, url_part.
  rewrite split_app_sep, (split_none 59 u) by exact Hu.
  cbn [app map hd nth_error]. rewrite Ht. split; [|reflexivity].
  vm_compute. reflexivity.
Qed.

Lemma trim_single (a : jsstring) (c : N) :
  is_space c = false -> trim (trimStart a ++ [c]) = trimStart a ++ [c].
Proof.
  intros Hc. unfold trim. rewrite trimStart_app, trimStart_idem by exact Hc.
  now rewrite trimEnd_app.
Qed.

Lemma truthy_app (a : jsstring) (c : N) (t : jsstring) : truthy (a ++ c :: t) = true.
Proof. now destruct a. Qed.

(** X1: a cursor that [encodeURIComponent] wrote into the [page_info]
    parameter at the end of the next link comes back unchanged, whatever
    text without semicolon and without [page_info=] stands in front of it. *)
Theorem getNextPage_round_trip (before c q : jsstring) :
  Forall (fun x => x <> 59) before ->
  contains (js "page_info=") before = false ->
  well_formed c -> c <> [] ->
  encodeURIComponent c = Return q ->
  getNextPage (Some (next_link before q)) = Return (Some c).
Proof.
  intros Hsemi Hcont Hwf Hne Henc.
  pose proof (decode_encode _ _ Hwf Henc) as Hdec.
  pose proof (encodeURIComponent_safe _ _ Hwf Henc) as Hsafe.
  assert (Hq : q <> []) by (intros ->; cbn in Hdec; congruence).
  assert (Hq44 : Forall (fun x => x <> 44) q)
    by (revert Hsafe; apply Forall_impl; intros x Hx; apply url_safe_plain, Hx).
  assert (Hq59 : Forall (fun x => x <> 59) q)
    by (revert Hsafe; apply Forall_impl; intros x Hx; apply url_safe_plain, Hx).
  assert (Hqc : Forall (fun x => cursor_char x = true) q)
    by (revert Hsafe; apply Forall_impl; intros x Hx; apply url_safe_plain, Hx).
  set (tail := js "&page_info=" ++ q ++ js ">; rel=" ++ quoted "next").
  assert (Htail : Forall (fun x => x <> 44) tail).
  { unfold tail. repeat (apply Forall_app; split); try exact Hq44;
      apply Forall_neq_dec; reflexivity. }
  destruct (split_app_tail 44 before tail Htail) as (init & last & E1 & E2).
  assert (Hparts : Forall (Forall (fun x => x <> 59)) (init ++ [last]))
    by (rewrite <- E1; now apply split_parts).
  apply Forall_app in Hparts. destruct Hparts as [Hinit Hlast].
  apply Forall_inv in Hlast.
  assert (Hin : In last (split 44 before))
    by (rewrite E1; apply in_or_app; right; now left).
  pose proof (contains_part _ _ _ _ Hcont Hin) as Hl.
  set (u := trimStart last ++ 38 :: (js "page_info=" ++ q) ++ [62]).
  assert (Eseg : trim (last ++ tail) = u ++ 59 :: rel_tail).
  { unfold tail, u.
    replace (js "&page_info=" ++ q ++ js ">; rel=" ++ quoted "next")
      with (38 :: (js "page_info=" ++ q ++ js ">; rel=" ++ 34 :: js "next") ++ [34])
      by (cbn; rewrite <- !app_assoc; reflexivity).
    rewrite trim_keeps by reflexivity.
    rewrite <- !app_assoc. cbn. rewrite <- !app_assoc. reflexivity. }
  assert (Hu : Forall (fun x => x <> 59) u).
  { unfold u. apply Forall_app. split; [now apply trimStart_Forall|].
    constructor; [discriminate|].
    repeat (apply Forall_app; split); try exact Hq59;
      apply Forall_neq_dec; reflexivity. }
  assert (Htu : trim u = u) by (unfold u; now rewrite trim_trimmed).
  destruct (next_segment u Hu Htu) as [Hnext Hurl].
  unfold getNextPage, next_link. fold tail.
  replace (truthy (before ++ tail)) with true
    by (symmetry; unfold tail; apply (truthy_app before 38)).
  rewrite E2, last_part_decides by (rewrite ?Eseg; assumption).
  rewrite Eseg, Hurl. unfold u. rewrite <- app_assoc.
  rewrite match_page_info_after; try assumption; [|reflexivity].
  now rewrite Hdec.
Qed.

Lemma getNextPage_round_trip_witness :
  encodeURIComponent cursor_example = Return cursor_encoded
  /\ getNextPage (Some (next_link link_before cursor_encoded))
     = Return (Some cursor_example).
Proof.
  split; [vm_compute; reflexivity|].
  apply (getNextPage_round_trip link_before cursor_example cursor_encoded).
  - apply Forall_neq_dec. vm_compute; reflexivity.
  - vm_compute; reflexivity.
  - apply well_formed_dec. vm_compute; reflexivity.
  - discriminate.
  - vm_compute; reflexivity.
Defined.

(** X2: the header is cut at every comma before any URL is read, so of the
    next link only the text after its last comma is searched: when that
    text has no [page_info=], no cursor is found, whatever stands in front
    of the comma. *)
Theorem getNextPage_cuts_at_commas (a u : jsstring) :
  Forall (fun x => x <> 59) a ->
  Forall (fun x => x <> 44) u -> Forall (fun x => x <> 59) u ->
  contains (js "page_info=") u = false ->
  getNextPage (Some (a ++ 44 :: u ++ 62 :: 59 :: rel_tail)) = Return None.
Proof.
  intros Ha Hu44 Hu59 Hcont.
  assert (Htail : Forall (fun x => x <> 44) (u ++ 62 :: 59 :: rel_tail)).
  { apply Forall_app. split; [exact Hu44|]. apply Forall_neq_dec. reflexivity. }
  set (v := trimStart u ++ [62]).
  assert (Eseg : trim (u ++ 62 :: 59 :: rel_tail) = v ++ 59 :: rel_tail).
  { unfold v.
    replace (62 :: 59 :: rel_tail)
      with (62 :: (59 :: js " rel=" ++ 34 :: js "next") ++ [34]) by reflexivity.
    rewrite trim_keeps by reflexivity. rewrite <- app_assoc. reflexivity. }
  assert (Hv : Forall (fun x => x <> 59) v).
  { unfold v. apply Forall_app. split; [now apply trimStart_Forall|].
    constructor; [discriminate|constructor]. }
  assert (Htv : trim v = v) by (unfold v; now rewrite trim_single).
  destruct (next_segment v Hv Htv) as [Hnext Hurl].
  assert (Hl : contains (js "page_info=") (trimStart u) = false).
  { destruct (trimStart_suffix u) as [sp Hsp]. rewrite Hsp in Hcont.
    now apply contains_app_r in Hcont. }
  unfold getNextPage. rewrite truthy_app, split_app_sep.
  rewrite (split_none 44 (u ++ _)) by exact Htail.
  rewrite last_part_decides; rewrite ?Eseg; try assumption; [|now apply split_parts].
  rewrite Hurl. unfold v. rewrite match_page_info_absent; [reflexivity|exact Hl|].
  intros H. apply page_info_chars in H. destruct H; discriminate.
Qed.

Lemma getNextPage_cuts_at_commas_witness :
  match_page_info link_cursor_before_comma = Some (js "ABC")
  /\ getNextPage (Some (link_cursor_before_comma ++ 44 :: js "created_at"
                        ++ 62 :: 59 :: rel_tail)) = Return None.
Proof.
  split; [vm_compute; reflexivity|].
  apply (getNextPage_cuts_at_commas link_cursor_before_comma (js "created_at")).
  - apply Forall_neq_dec. vm_compute; reflexivity.
  - apply Forall_neq_dec. vm_compute; reflexivity.
  - apply Forall_neq_dec. vm_compute; reflexivity.
  - vm_compute; reflexivity.
Defined.

Lemma trim_between (u m r : jsstring) :
  trim (u ++ 59 :: m ++ 59 :: r) = trimStart u ++ 59 :: m ++ 59 :: trimEnd r.
Proof.
  unfold trim. rewrite trimStart_app by reflexivity.
  replace (trimStart u ++ 59 :: m ++ 59 :: r)
    with ((trimStart u ++ 59 :: m) ++ 59 :: r)
    by (now rewrite <- app_assoc).
  rewrite trimEnd_app by reflexivity. now rewrite <- app_assoc.
Qed.

(** X3: the relation is read from the piece after the first semicolon
    only: a link whose [rel="next"] comes after another parameter is not
    taken for the next link. *)
Theorem getNextPage_relation_second (u m r : jsstring) :
  Forall (fun x => x <> 44) (u ++ m ++ r) ->
  Forall (fun x => x <> 59) (u ++ m) ->
  trim m <> rel_next ->
  getNextPage (Some (u ++ 59 :: m ++ 59 :: r)) = Return None.
Proof.
  intros H44 H59 Hm.
  apply Forall_app in H59. destruct H59 as [Hu Hm59].
  apply Forall_app in H44. destruct H44 as [Hu44 H44].
  apply Forall_app in H44. destruct H44 as [Hm44 Hr44].
  unfold getNextPage. rewrite truthy_app.
  rewrite split_none.
  2:{ apply Forall_app. split; [exact Hu44|]. constructor; [discriminate|].
      apply Forall_app. split; [exact Hm44|]. constructor; [discriminate|exact Hr44]. }
  cbn [map]. rewrite next_in_parts_find. cbn [find].
  assert (E : is_next (trim (u ++ 59 :: m ++ 59 :: r)) = false).
  { rewrite trim_between. unfold is_next, rel_part.
    rewrite split_app_sep, split_app_sep.
    rewrite (split_none 59 (trimStart u)) by now apply trimStart_Forall.
    rewrite (split_none 59 m) by exact Hm59.
    cbn [app map nth_error]. unfold jseq.
    destruct (list_eq_dec N.eq_dec (trim m) rel_next); [contradiction|reflexivity]. }
  now rewrite E.
Qed.

Lemma getNextPage_relation_second_witness :
  match_page_info link_url = Some (js "ABC")
  /\ getNextPage (Some (link_url ++ 59 :: link_title ++ 59 :: rel_tail)) = Return None.
Proof.
  split; [vm_compute; reflexivity|].
  apply (getNextPage_relation_second link_url link_title rel_tail).
  - apply Forall_neq_dec. vm_compute; reflexivity.
  - apply Forall_neq_dec. vm_compute; reflexivity.
  - vm_compute. discriminate.
Defined.

(** ** The loop of [fetchShopify], turn by turn *)

Lemma encodeURIComponent_throws (s : jsstring) (e : js_error) :
  encodeURIComponent s = Throw e -> e = URIError.
Proof.
  remember (length s) as n eqn:Hn. revert s Hn.
  induction n as [n IH] using lt_wf_ind. intros s ->.
  assert (IH' : forall r, (length r < length s)%nat ->
                          encodeURIComponent r = Throw e -> e = URIError)
    by (intros r Hr; exact (IH _ Hr r eq_refl)).
  clear IH. destruct s as [|c r]; [discriminate|].
  cbn [encodeURIComponent length] in *.
  destruct (uri_unescaped c).
  - destruct (encodeURIComponent r) eqn:Er; cbn [bindC]; try discriminate.
    intros [= <-]. exact (IH' r ltac:(lia) Er).
  - destruct (is_trail_surrogate c); [congruence|].
    destruct (is_lead_surrogate c).
    + destruct r as [|d r']; [congruence|].
      destruct (is_trail_surrogate d); [|congruence].
      destruct (encodeURIComponent r') eqn:Er; cbn [bindC]; try discriminate.
      intros [= <-]. exact (IH' r' ltac:(cbn [length]; lia) Er).
    + destruct (encodeURIComponent r) eqn:Er; cbn [bindC]; try discriminate.
      intros [= <-]. exact (IH' r ltac:(lia) Er).
Qed.


Lemma getNextPage_settles (h : option jsstring) :
  (exists next, getNextPage h = Return next) \/ getNextPage h = Throw URIError.
Proof.
  destruct h as [h|]; [|left; now exists None]. unfold getNextPage.
  destruct (truthy h); [|left; now exists None]. rewrite next_in_parts_find.
  destruct (find is_next _) as [seg|]; [|left; now exists None].
  destruct (match_page_info (url_part seg)) as [tok|]; [|left; now exists None].
  destruct (decodeURIComponent_settled tok) as [[t ->]| ->]; cbn [bindC];
    [left; now exists (Some t)|now right].
Qed.

Lemma fetch_url_first (url : jsstring) : fetch_url url None = Return url.
Proof. reflexivity. Qed.

Lemma fetch_url_cursor (url c u : jsstring) :
  truthy c = true -> fetch_url url (Some c) = Return u ->
  exists q, encodeURIComponent c = Return q /\ u = url ++ js "&page_info=" ++ q.
Proof.
  unfold fetch_url. cbn [truthy_opt]. intros ->.
  destruct (encodeURIComponent c) as [q| |]; cbn [bindC]; try discriminate.
  intros [= <-]. now exists q.
Qed.

Lemma fetch_url_throws (url : jsstring) (pageInfo : option jsstring) (e : js_error) :
  fetch_url url pageInfo = Throw e ->
  e = URIError /\ exists c, pageInfo = Some c
                            /\ encodeURIComponent c = Throw URIError.
Proof.
  unfold fetch_url. destruct pageInfo as [c|]; cbn [truthy_opt]; [|discriminate].
  destruct (truthy c); [|discriminate].
  destruct (encodeURIComponent c) as [q|e'|] eqn:E; cbn [bindC]; try discriminate.
  intros [= <-]. pose proof (encodeURIComponent_throws _ _ E) as ->.
  split; [reflexivity|now exists c].
Qed.


Lemma sendable_fetch_url (url : jsstring) (pageInfo : option jsstring) :
  sendable pageInfo = true <-> exists u, fetch_url url pageInfo = Return u.
Proof.
  unfold sendable, fetch_url. destruct (truthy_opt pageInfo);
    [|split; [intros _; now exists url|reflexivity]].
  destruct (encodeURIComponent _) as [q| |]; cbn [bindC]; split;
    try discriminate; try reflexivity; try (intros [u Hu]; discriminate Hu).
  intros _. eexists. reflexivity.
Qed.

(** One turn of the loop: the request, then what the reply makes of it. *)
Lemma fetch_pages_turn (url token : jsstring) (net : list fetch_reply)
    (pageInfo : option jsstring) (orders : Z) (sales : number) :
  fetch_pages url token net pageInfo orders sales =
  match fetch_url url pageInfo with
  | Return u =>
      match net with
      | [] => ([Fetch u token], Pending)
      | Fails e :: _ => ([Fetch u token], Throw e)
      | Responds res :: net' =>
          match turn_of res with
          | Goes_on c l =>
              let acc := fold_left add_order l (orders, sales) in
              let rest := fetch_pages url token net' (Some c) (fst acc) (snd acc) in
              (Fetch u token :: fst rest, snd rest)
          | Stops l =>
              let acc := fold_left add_order l (orders, sales) in
              ([Fetch u token],
               Return {| Shopify.orders := fst acc; Shopify.sales := snd acc |})
          | Breaks e => ([Fetch u token], Throw e)
          | Hangs => ([Fetch u token], Pending)
          end
      end
  | Throw e => ([], Throw e)
  | Pending => ([], Pending)
  end.
Proof.
  destruct net as [|[res|e] net']; cbn [fetch_pages]; fold (fetch_url url pageInfo);
    destruct (fetch_url url pageInfo) as [u|e'|]; try reflexivity;
    autorewrite with js_monad; try reflexivity.
  unfold turn_of. destruct (ok res); [|reflexivity]. cbn [negb].
  destruct (json res) as [data|]; [|reflexivity]. rewrite bind_ret.
  destruct (Page.orders data) as [l|]; [|reflexivity]. rewrite bind_ret.
  destruct (getNextPage_settles (link res)) as [[next ->]| ->]; [|reflexivity].
  rewrite bind_lift_return. destruct next as [c|]; cbn [truthy_opt]; [|reflexivity].
  destruct (truthy c); reflexivity.
Qed.

Lemma turn_goes_on (res : response) (c : jsstring) (l : list order) :
  turn_of res = Goes_on c l ->
  successful res = true /\ getNextPage (link res) = Return (Some c)
  /\ truthy c = true /\ page_orders res = l.
Proof.
  unfold turn_of, successful, page_orders, orders_of.
  destruct (ok res); [|discriminate].
  destruct (json res) as [data|]; [|discriminate].
  destruct (Page.orders data) as [l'|]; [|discriminate].
  destruct (getNextPage (link res)) as [[c'|]| |]; try discriminate.
  destruct (truthy c') eqn:E; [|discriminate]. intros [= <- <-]. auto.
Qed.


(** X4: the first request goes to the request URL, and every later request
    goes to that URL with the [page_info] parameter set to the encoded
    cursor of the response to the request before it; all carry the access
    token. *)
Theorem requests_follow_cursors (env : environment) (w : window) (url : jsstring)
    (net : list fetch_reply) :
  shopify_credentials env -> request_url env w = Return url ->
  let token := match SHOPIFY_ADMIN_TOKEN env with Some s => s | None => [] end in
  let log := fst (fetchShopify env w net) in
  nth_error log 0 = Some (Fetch url token)
  /\ forall k ev, nth_error log (S k) = Some ev ->
       exists res c q,
         nth_error net k = Some (Responds res)
         /\ getNextPage (link res) = Return (Some c)
         /\ encodeURIComponent c = Return q
         /\ ev = Fetch (url ++ js "&page_info=" ++ q) token.
Proof.
  intros Hc Hu token log. subst log.
  rewrite (fetchShopify_with_credentials _ _ _ _ Hc Hu). fold token.
  assert (Hgen : forall net pageInfo orders sales k ev,
    nth_error (fst (fetch_pages url token net pageInfo orders sales)) k = Some ev ->
    match k with
    | O => exists u, fetch_url url pageInfo = Return u /\ ev = Fetch u token
    | S k' => exists res c q,
        nth_error net k' = Some (Responds res)
        /\ getNextPage (link res) = Return (Some c)
        /\ encodeURIComponent c = Return q
        /\ ev = Fetch (url ++ js "&page_info=" ++ q) token
    end).
  { clear. induction net as [|reply net' IH]; intros pageInfo orders sales k ev;
      rewrite fetch_pages_turn;
      destruct (fetch_url url pageInfo) as [u| |] eqn:Eu; cbn [fst];
      try (destruct k; discriminate).
    - destruct k as [|[|k]]; cbn [nth_error]; try discriminate.
      intros [= <-]. now exists u.
    - assert (Hone : nth_error [Fetch u token] k = Some ev ->
                     match k with
                     | O => exists u0, Return u = Return u0 /\ ev = Fetch u0 token
                     | S k' => exists res c q,
                         nth_error (reply :: net') k' = Some (Responds res)
                         /\ getNextPage (link res) = Return (Some c)
                         /\ encodeURIComponent c = Return q
                         /\ ev = Fetch (url ++ js "&page_info=" ++ q) token
                     end).
      { destruct k as [|[|k]]; cbn [nth_error]; try discriminate.
        intros [= <-]. now exists u. }
      destruct reply as [res|e]; [|exact Hone].
      destruct (turn_of res) as [c l| | |] eqn:Et; cbn [fst]; try exact Hone.
      clear Hone. destruct (turn_goes_on _ _ _ Et) as (_ & Hn & Htc & _).
      destruct k as [|k]; cbn [nth_error]; [intros [= <-]; now exists u|].
      intros H. apply IH in H. destruct k as [|k].
      + destruct H as (u' & Hu' & ->).
        destruct (fetch_url_cursor _ _ _ Htc Hu') as (q & Hq & ->).
        exists res, c, q. auto.
      + destruct H as (res' & c' & q & H1 & H2 & H3 & ->).
        exists res', c', q. auto. }
  split.
  - rewrite fetch_pages_turn, fetch_url_first.
    destruct net as [|[res|e] net']; try reflexivity.
    destruct (turn_of res); reflexivity.
  - intros k ev H. exact (Hgen _ _ _ _ _ _ H).
Qed.

Lemma requests_follow_cursors_witness :
  request_url env_full window_example = Return url_example
  /\ exists res c q,
       nth_error [Responds page_one; Responds page_two] 0 = Some (Responds res)
       /\ getNextPage (link res) = Return (Some c)
       /\ encodeURIComponent c = Return q
       /\ Fetch (url_example ++ js "&page_info=ABC") (js "shpat_token")
          = Fetch (url_example ++ js "&page_info=" ++ q) (js "shpat_token").
Proof.
  split; [vm_compute; reflexivity|].
  apply (proj2 (requests_follow_cursors env_full window_example url_example
                  [Responds page_one; Responds page_two]
                  (conj eq_refl eq_refl) ltac:(vm_compute; reflexivity)) 0%nat).
  vm_compute; reflexivity.
Defined.





Lemma request_url_throws (env : environment) (w : window) (e : js_error) :
  request_url env w = Throw e -> e = URIError.
Proof.
  unfold request_url. cbv zeta.
  destruct (encodeURIComponent (processed_at_min w)) as [lo|e1|] eqn:E1; cbn [bindC];
    [|intros [= <-]; exact (encodeURIComponent_throws _ _ E1)|discriminate].
  destruct (encodeURIComponent (processed_at_max w)) as [hi|e2|] eqn:E2; cbn [bindC];
    [|intros [= <-]; exact (encodeURIComponent_throws _ _ E2)|discriminate].
  set (queryString := match SEGMENT_SHOPIFY_QUERY env with Some q => q | None => [] end).
  destruct (truthy queryString); [|discriminate].
  destruct (encodeURIComponent queryString) as [q|e3|] eqn:E3; cbn [bindC];
    [discriminate|intros [= <-]; exact (encodeURIComponent_throws _ _ E3)|discriminate].
Qed.

(** X7: the request URL is the endpoint of the store followed by the two
    bounds of the window and, only when the query is not blank, the query;
    each value is written in URL-safe characters and decodes to the text it
    was made from. *)
Theorem request_url_parameters (env : environment) (w : window) (url : jsstring) :
  well_formed (processed_at_min w) -> well_formed (processed_at_max w) ->
  (forall q, SEGMENT_SHOPIFY_QUERY env = Some q -> well_formed q) ->
  request_url env w = Return url ->
  exists lo hi rest,
    url = orders_url (match SHOPIFY_STORE env with Some s => s | None => [] end)
          ++ js "&processed_at_min=" ++ lo ++ js "&processed_at_max=" ++ hi ++ rest
    /\ Forall (fun c => url_safe c = true) (lo ++ hi)
    /\ decodeURIComponent lo = Return (processed_at_min w)
    /\ decodeURIComponent hi = Return (processed_at_max w)
    /\ match SEGMENT_SHOPIFY_QUERY env with
       | Some (c :: s) =>
           exists q, rest = js "&query=" ++ q
                     /\ Forall (fun c => url_safe c = true) q
                     /\ decodeURIComponent q = Return (c :: s)
       | _ => rest = []
       end.
Proof.
  intros Hlo Hhi Hq. unfold request_url. cbv zeta.
  destruct (encodeURIComponent (processed_at_min w)) as [lo| |] eqn:E1; cbn [bindC];
    try discriminate.
  destruct (encodeURIComponent (processed_at_max w)) as [hi| |] eqn:E2; cbn [bindC];
    try discriminate.
  assert (Hsafe : Forall (fun c => url_safe c = true) (lo ++ hi))
    by (apply Forall_app; split;
        [exact (encodeURIComponent_safe _ _ Hlo E1)
        |exact (encodeURIComponent_safe _ _ Hhi E2)]).
  destruct (SEGMENT_SHOPIFY_QUERY env) as [[|c s]|] eqn:Eq; cbn [truthy].
  - returned. exists lo, hi, []. rewrite app_nil_r.
    repeat split; try assumption; now apply decode_encode.
  - destruct (encodeURIComponent (c :: s)) as [q| |] eqn:E3; cbn [bindC];
      try discriminate.
    returned. exists lo, hi, (js "&query=" ++ q). rewrite <- !app_assoc.
    split; [reflexivity|].
    repeat split; try assumption; try (now apply decode_encode).
    exists q. repeat split.
    + eapply encodeURIComponent_safe; [|exact E3]. now apply Hq.
    + apply decode_encode; [now apply Hq|exact E3].
  - returned. exists lo, hi, []. rewrite app_nil_r.
    repeat split; try assumption; now apply decode_encode.
Qed.

Lemma request_url_parameters_witness :
  request_url env_full window_example = Return url_example
  /\ exists lo hi rest,
       url_example = orders_url (js "example.myshopify.com")
                     ++ js "&processed_at_min=" ++ lo
                     ++ js "&processed_at_max=" ++ hi ++ rest
       /\ Forall (fun c => url_safe c = true) (lo ++ hi)
       /\ decodeURIComponent lo = Return (js "2024-01-02T03:04:05.678Z")
       /\ decodeURIComponent hi = Return (js "2024-03-31T03:04:05.678Z")
       /\ exists q, rest = js "&query=" ++ q
                    /\ Forall (fun c => url_safe c = true) q
                    /\ decodeURIComponent q = Return (js "tag:Wholesale").
Proof.
  split; [vm_compute; reflexivity|].
  apply (request_url_parameters env_full window_example url_example).
  - apply well_formed_dec. vm_compute; reflexivity.
  - apply well_formed_dec. vm_compute; reflexivity.
  - intros q [= <-]. apply well_formed_dec. vm_compute; reflexivity.
  - vm_compute; reflexivity.
Defined.

(** ** The analytics client, further *)

Lemma summary_silent (response : report) : fst (summary response) = [].
Proof.
  unfold summary. destruct (rows response) as [[|[mv] more]|]; try reflexivity.
  unfold metric. cbn [metricValues].
  destruct mv as [|v0 [|v1 others]]; reflexivity.
Qed.

Lemma summary_short_row (response : report) (row : report_row)
    (more : list report_row) :
  rows response = Some (row :: more) -> (length (metricValues row) < 2)%nat ->
  snd (summary response) = Throw TypeError.
Proof.
  unfold summary. intros -> H. unfold metric.
  destruct (metricValues row) as [|v0 [|v1 others]]; cbn in *; try reflexivity; lia.
Qed.

(** X8: with credentials the client calls [runReport] exactly once, as its
    last effect and after at most the one warning, with the client email
    and the key with its newlines unescaped; the request names the property,
    the fixed date range and the two metrics, and its dimension filter is
    what [JSON.parse] makes of a filter that is not blank, and is left out
    otherwise. *)
Theorem fetchGA4_request (env : environment) (ga : analytics) :
  ga4_credentials env ->
  exists email key request warnings,
    GA4_CLIENT_EMAIL env = Some email /\ GA4_PRIVATE_KEY env = Some key
    /\ fst (fetchGA4 env ga)
       = warnings ++ [RunReport email (unescape_newlines key) request]
    /\ (warnings = [] \/ warnings = [ConsoleWarn filter_warning])
    /\ property request
       = js "properties/" ++ match GA4_PROPERTY_ID env with Some s => s | None => [] end
    /\ dateRanges request = [(js "90daysAgo", js "today")]
    /\ metrics request = [js "sessions"; js "sessionConversionRate"]
    /\ dimensionFilter request
       = match SEGMENT_GA_FILTER env with
         | Some (c :: f) => JSON_parse ga (c :: f)
         | _ => None
         end.
Proof.
  intros Hc. pose proof Hc as (Hp & He & Hk).
  rewrite (fetchGA4_with_credentials _ _ Hc).
  destruct (GA4_CLIENT_EMAIL env) as [email|] eqn:Ee; [|discriminate He].
  unfold private_key.
  destruct (GA4_PRIVATE_KEY env) as [key|] eqn:Ek; [|discriminate Hk].
  cbn [truthy_opt] in Hk. rewrite Hk.
  assert (Hlog : forall request,
    fst (emit (RunReport email (unescape_newlines key) request) ;;
         response <- lift (runReport ga request) ;; summary response)
    = [RunReport email (unescape_newlines key) request]).
  { intros request. rewrite bind_emit. cbn [fst]. rewrite fst_bind.
    cbn [lift fst snd app]. destruct (runReport ga request); try reflexivity.
    now rewrite summary_silent. }
  unfold report_request_of.
  destruct (SEGMENT_GA_FILTER env) as [[|c f]|]; cbn [truthy_opt truthy].
  - rewrite bind_ret. eexists email, key, _, []. rewrite Hlog.
    repeat split; auto.
  - destruct (JSON_parse ga (c :: f)) as [v|] eqn:Ev.
    + rewrite bind_ret. eexists email, key, _, []. rewrite Hlog.
      repeat split; auto.
    + rewrite fst_bind, bind_emit. cbn [ret fst snd]. rewrite Hlog.
      eexists email, key, _, [ConsoleWarn filter_warning].
      repeat split; auto.
  - rewrite bind_ret. eexists email, key, _, []. rewrite Hlog.
    repeat split; auto.
Qed.

Lemma fetchGA4_request_witness :
  ga4_credentials env_filter_null
  /\ exists email key request warnings,
       GA4_CLIENT_EMAIL env_filter_null = Some email
       /\ GA4_PRIVATE_KEY env_filter_null = Some key
       /\ fst (fetchGA4 env_filter_null ga_example)
          = warnings ++ [RunReport email (unescape_newlines key) request]
       /\ (warnings = [] \/ warnings = [ConsoleWarn filter_warning])
       /\ property request = js "properties/" ++ js "123456"
       /\ dateRanges request = [(js "90daysAgo", js "today")]
       /\ metrics request = [js "sessions"; js "sessionConversionRate"]
       /\ dimensionFilter request = Some JNull.
Proof.
  split; [repeat split; reflexivity|].
  exact (fetchGA4_request env_filter_null ga_example
           (conj eq_refl (conj eq_refl eq_refl))).
Defined.

(** X9: once the request is made, a rejection of [runReport] is the
    rejection of the client, a report that never comes leaves it waiting,
    and a first row with fewer than the two metric values makes it throw
    TypeError. *)
Theorem fetchGA4_failures (env : environment) (ga : analytics)
    (request : report_request) :
  ga4_credentials env ->
  snd (report_request_of env ga) = Return request ->
  (forall e, runReport ga request = Throw e -> snd (fetchGA4 env ga) = Throw e)
  /\ (runReport ga request = Pending -> snd (fetchGA4 env ga) = Pending)
  /\ (forall response row more,
        runReport ga request = Return response ->
        rows response = Some (row :: more) ->
        (length (metricValues row) < 2)%nat ->
        snd (fetchGA4 env ga) = Throw TypeError).
Proof.
  intros Hc Hr. rewrite (fetchGA4_completion _ _ _ Hc Hr).
  split; [|split].
  - now intros e ->.
  - now intros ->.
  - intros response row more -> Hrows Hlen. cbn [bindC].
    exact (summary_short_row _ _ _ Hrows Hlen).
Qed.

Lemma fetchGA4_failures_witness :
  snd (fetchGA4 env_filter_null ga_short_row) = Throw TypeError.
Proof.
  apply (proj2 (proj2 (fetchGA4_failures env_filter_null ga_short_row
                         (with_filter (base_request (js "123456")) JNull)
                         (conj eq_refl (conj eq_refl eq_refl))
                         ltac:(vm_compute; reflexivity)))
           {| rows := Some [ {| metricValues := [js "1000"] |} ] |}
           {| metricValues := [js "1000"] |} []).
  - reflexivity.
  - reflexivity.
  - cbn. lia.
Defined.

(** ** The private key *)

Lemma unescape_newlines_cons (c : N) (s : jsstring) :
  unescape_newlines (c :: s) =
  match s with
  | d :: s' => if (c =? 92) && (d =? 110) then 10 :: unescape_newlines s'
               else c :: unescape_newlines s
  | [] => [c]
  end.
Proof.
  destruct s as [|d s']; cbn [unescape_newlines];
    repeat match goal with
           | |- context [match ?x with _ => _ end] => is_var x; destruct x
           end; reflexivity.
Qed.

Lemma contains_escaped (x : N) (t : jsstring) :
  contains escaped_newline (x :: t) =
  ((x =? 92) && match t with y :: _ => y =? 110 | [] => false end)
  || contains escaped_newline t.
Proof.
  unfold escaped_newline. cbn [contains strip_prefix].
  rewrite (N.eqb_sym 92 x). destruct (x =? 92); cbn [andb orb]; [|reflexivity].
  destruct t as [|y t']; [reflexivity|].
  rewrite (N.eqb_sym 110 y). destruct (y =? 110); reflexivity.
Qed.

Lemma unescape_newlines_head (s : jsstring) :
  match unescape_newlines s with y :: _ => y =? 110 | [] => false end
  = match s with y :: _ => y =? 110 | [] => false end.
Proof.
  destruct s as [|c s]; [reflexivity|]. rewrite unescape_newlines_cons.
  destruct s as [|d s']; [reflexivity|].
  destruct (N.eqb_spec c 92) as [->|_]; cbn [andb]; [|reflexivity].
  destruct (d =? 110); reflexivity.
Qed.

Lemma unescape_newlines_clean (k : jsstring) :
  contains escaped_newline (unescape_newlines k) = false.
Proof.
  remember (length k) as n eqn:Hn. revert k Hn.
  induction n as [n IH] using lt_wf_ind. intros k ->.
  assert (IH' : forall r, (length r < length k)%nat ->
                          contains escaped_newline (unescape_newlines r) = false)
    by (intros r Hr; exact (IH _ Hr r eq_refl)).
  clear IH. destruct k as [|c s]; [reflexivity|].
  rewrite unescape_newlines_cons. destruct s as [|d s'].
  - rewrite contains_escaped. now rewrite andb_false_r.
  - destruct ((c =? 92) && (d =? 110)) eqn:E; rewrite contains_escaped.
    + cbn [N.eqb Pos.eqb andb orb]. apply IH'. cbn [length]. lia.
    + rewrite unescape_newlines_head, E. cbn [orb]. apply IH'. cbn [length]. lia.
Qed.

Lemma unescape_newlines_fixed (k : jsstring) :
  contains escaped_newline k = false -> unescape_newlines k = k.
Proof.
  induction k as [|c s IH]; [reflexivity|].
  rewrite contains_escaped, unescape_newlines_cons. intros H.
  apply orb_false_iff in H. destruct H as [H1 H2].
  destruct s as [|d s']; [reflexivity|]. rewrite H1. now rewrite IH.
Qed.

(** X10: in the key that is handed to the client no backslash is followed
    by [n] any more; a key without such a pair is handed over as it is, so
    that unescaping twice is unescaping once. *)
Theorem unescape_newlines_complete (k : jsstring) :
  contains escaped_newline (unescape_newlines k) = false
  /\ (contains escaped_newline k = false -> unescape_newlines k = k)
  /\ unescape_newlines (unescape_newlines k) = unescape_newlines k.
Proof.
  split; [apply unescape_newlines_clean|split; [apply unescape_newlines_fixed|]].
  apply unescape_newlines_fixed, unescape_newlines_clean.
Qed.

Lemma unescape_newlines_complete_witness :
  contains escaped_newline (js "-----BEGIN KEY-----") = false
  /\ unescape_newlines (js "-----BEGIN KEY-----") = js "-----BEGIN KEY-----".
Proof.
  split; [vm_compute; reflexivity|].
  apply (proj1 (proj2 (unescape_newlines_complete (js "-----BEGIN KEY-----")))).
  vm_compute; reflexivity.
Defined.

(** ** The run, further *)

Lemma main_returned (fs : file_system) (first : side)
    (rs : Shopify.result) (rg : GA.result) :
  main fs first (Return rs) (Return rg) =
  match mkdirSync fs (dest_dir fs) with
  | Some e => ([], Throw e)
  | None =>
      match writeFileSync fs (dest fs) (compose rs rg) with
      | Some e => ([MkdirSync (dest_dir fs)], Throw e)
      | None => ([MkdirSync (dest_dir fs);
                  WriteFileSync (dest fs) (compose rs rg);
                  ConsoleLog (js "Updated") (dest fs)], Return tt)
      end
  end.
Proof.
  unfold main. cbn [Promise_all]. rewrite bind_lift_return. cbn [fst snd].
  destruct (mkdirSync fs (dest_dir fs)); [reflexivity|]. cbn [fs_call].
  rewrite bind_emit.
  destruct (writeFileSync fs (dest fs) (compose rs rg)); [reflexivity|].
  cbn [fs_call]. rewrite bind_emit. reflexivity.
Qed.

(** X11: the run ends with status 0 exactly when both fetches returned and
    both file operations succeeded, and what it then did is: make the
    directory, write the composed record to the destination, print the
    line; in that order and nothing else. *)
Theorem run_succeeds (w : world) :
  let shopify := snd (fetchShopify (env w) (clock w) (shopify_api w)) in
  let ga := snd (fetchGA4 (env w) (ga_api w)) in
  let fs := disk w in
  (exit_status (run w) = Some 0%Z
   <-> exists rs rg,
         shopify = Return rs /\ ga = Return rg
         /\ mkdirSync fs (dest_dir fs) = None
         /\ writeFileSync fs (dest fs) (compose rs rg) = None)
  /\ (forall rs rg,
        shopify = Return rs -> ga = Return rg ->
        mkdirSync fs (dest_dir fs) = None ->
        writeFileSync fs (dest fs) (compose rs rg) = None ->
        main_log (run w) = [MkdirSync (dest_dir fs);
                            WriteFileSync (dest fs) (compose rs rg);
                            ConsoleLog (js "Updated") (dest fs)]).
Proof.
  intros shopify ga fs. unfold run. cbn [exit_status main_log].
  fold shopify ga fs. split; [split|].
  - destruct shopify as [rs|e|] eqn:Es, ga as [rg|e'|] eqn:Eg;
      try (cbn [main Promise_all lift bind snd]; try destruct (settles_first w);
           discriminate).
    rewrite main_returned. intros H. exists rs, rg.
    destruct (mkdirSync fs (dest_dir fs)); [discriminate H|].
    destruct (writeFileSync fs (dest fs) (compose rs rg)); [discriminate H|]. auto.
  - intros (rs & rg & -> & -> & Hm & Hw). now rewrite main_returned, Hm, Hw.
  - intros rs rg -> -> Hm Hw. now rewrite main_returned, Hm, Hw.
Qed.

Lemma run_succeeds_witness :
  exit_status (run (world_on disk_example [Responds page_one; Responds page_two]))
  = Some 0%Z
  /\ exists o,
       main_log (run (world_on disk_example [Responds page_one; Responds page_two]))
       = [MkdirSync (js "/repo/public/data");
          WriteFileSync (js "/repo/public/data/segment.json") o;
          ConsoleLog (js "Updated") (js "/repo/public/data/segment.json")].
Proof.
  pose (w := world_on disk_example [Responds page_one; Responds page_two]).
  assert (Hs : exists rs, snd (fetchShopify (env w) (clock w) (shopify_api w)) = Return rs)
    by (vm_compute; eexists; reflexivity).
  assert (Hg : exists rg, snd (fetchGA4 (env w) (ga_api w)) = Return rg)
    by (vm_compute; eexists; reflexivity).
  destruct Hs as [rs Hs], Hg as [rg Hg].
  split.
  - apply (proj1 (run_succeeds w)). exists rs, rg. repeat split; assumption.
  - exists (compose rs rg).
    exact (proj2 (run_succeeds w) rs rg Hs Hg eq_refl eq_refl).
Defined.

(** X12: when both fetches returned, a failure of a file operation is
    printed and ends the run with status 1: nothing is written and nothing
    else is done when the directory cannot be made, and the line "Updated"
    is not printed when the file cannot be written. *)
Theorem file_errors_fail_the_run (w : world) (rs : Shopify.result) (rg : GA.result) :
  snd (fetchShopify (env w) (clock w) (shopify_api w)) = Return rs ->
  snd (fetchGA4 (env w) (ga_api w)) = Return rg ->
  let fs := disk w in
  (forall e, mkdirSync fs (dest_dir fs) = Some e ->
     main_log (run w) = [ConsoleError e; ProcessExit 1%Z]
     /\ exit_status (run w) = Some 1%Z)
  /\ (forall e, mkdirSync fs (dest_dir fs) = None ->
        writeFileSync fs (dest fs) (compose rs rg) = Some e ->
        main_log (run w) = [MkdirSync (dest_dir fs); ConsoleError e; ProcessExit 1%Z]
        /\ exit_status (run w) = Some 1%Z).
Proof.
  intros Hs Hg fs. unfold run. cbn [exit_status main_log]. fold fs.
  rewrite Hs, Hg, main_returned. fold fs. split.
  - intros e ->. split; reflexivity.
  - intros e -> ->. split; reflexivity.
Qed.

Lemma file_errors_fail_the_run_witness :
  main_log (run (world_on disk_no_directory [Responds page_one; Responds page_two]))
  = [ConsoleError (Error (js "EACCES")); ProcessExit 1%Z]
  /\ main_log (run (world_on disk_full [Responds page_one; Responds page_two]))
     = [MkdirSync (js "/repo/public/data"); ConsoleError (Error (js "ENOSPC"));
        ProcessExit 1%Z].
Proof.
  pose (net := [Responds page_one; Responds page_two]).
  assert (Hs : exists rs, snd (fetchShopify env_full window_example net) = Return rs)
    by (vm_compute; eexists; reflexivity).
  assert (Hg : exists rg, snd (fetchGA4 env_full ga_example) = Return rg)
    by (vm_compute; eexists; reflexivity).
  destruct Hs as [rs Hs], Hg as [rg Hg]. split.
  - exact (proj1 (proj1 (file_errors_fail_the_run (world_on disk_no_directory net)
                           rs rg Hs Hg) (Error (js "EACCES")) eq_refl)).
  - exact (proj1 (proj2 (file_errors_fail_the_run (world_on disk_full net)
                           rs rg Hs Hg) (Error (js "ENOSPC")) eq_refl eq_refl)).
Defined.

(** X13: the process never ends exactly when no fetch rejects and one of
    them never settles; it has then done nothing beyond the requests of
    the fetches. *)
Theorem run_waits (w : world) :
  let shopify := snd (fetchShopify (env w) (clock w) (shopify_api w)) in
  let ga := snd (fetchGA4 (env w) (ga_api w)) in
  (exit_status (run w) = None
   <-> (shopify = Pending \/ ga = Pending)
       /\ (forall e, shopify <> Throw e) /\ (forall e, ga <> Throw e))
  /\ (exit_status (run w) = None -> main_log (run w) = []).
Proof.
  intros shopify ga. unfold run. cbn [exit_status main_log]. fold shopify ga.
  destruct shopify as [rs|e|], ga as [rg|e'|].
  - rewrite main_returned. split; [split|].
    + destruct (mkdirSync _ _); [discriminate|].
      destruct (writeFileSync _ _ _); discriminate.
    + intros [[H|H] _]; discriminate H.
    + destruct (mkdirSync _ _); [discriminate|].
      destruct (writeFileSync _ _ _); discriminate.
  - split; [split|]; try discriminate. intros (_ & _ & H). now elim (H e').
  - split; [split|]; try reflexivity. intros _. repeat split; auto; discriminate.
  - split; [split|]; try discriminate. intros (_ & H & _). now elim (H e).
  - split; [split|]; try (destruct (settles_first w); discriminate).
    intros (_ & H & _). now elim (H e).
  - split; [split|]; try discriminate. intros (_ & H & _). now elim (H e).
  - split; [split|]; try reflexivity. intros _. repeat split; auto; discriminate.
  - split; [split|]; try discriminate. intros (_ & _ & H). now elim (H e').
  - split; [split|]; try reflexivity. intros _. repeat split; auto; discriminate.
Qed.

Lemma run_waits_witness :
  exit_status (run (world_on disk_example [Responds page_one])) = None
  /\ main_log (run (world_on disk_example [Responds page_one])) = [].
Proof.
  assert (H : exit_status (run (world_on disk_example [Responds page_one])) = None).
  { apply (proj1 (run_waits (world_on disk_example [Responds page_one]))).
    split; [left; vm_compute; reflexivity|].
    split; intros e; vm_compute; discriminate. }
  split; [exact H|].
  exact (proj2 (run_waits (world_on disk_example [Responds page_one])) H).
Defined.

(** * Order pages of any shape *)

(** ** Reading the orders *)

Lemma json_value_induction (P : json_value -> Prop) :
  P JNull -> (forall b, P (JBool b)) -> (forall x, P (JNumber x)) ->
  (forall s, P (JString s)) ->
  (forall items, Forall P items -> P (JArray items)) ->
  (forall members, P (JObject members)) ->
  forall v, P v.
Proof.
  intros HN HB HX HS HA HO. fix IH 1.
  intros [ |b|x|s|items|members];
    [apply HN|apply HB|apply HX|apply HS| |apply HO].
  apply HA. revert items. fix IHl 1. intros [|x rest]; constructor.
  - apply IH.
  - apply IHl.
Qed.

Lemma ToString_settles (v : json_value) :
  (exists s, ToString v = Return s) \/ ToString v = Throw TypeError.
Proof.
  induction v as [ |b|x|s|items IH|members] using json_value_induction;
    cbn [ToString]; try (left; eexists; reflexivity).
  - induction IH as [|x rest Hx _ IHrest]; [left; now exists []|].
    assert (Hx' : (exists s, match x with JNull => Return [] | _ => ToString x end
                             = Return s)
                  \/ match x with JNull => Return [] | _ => ToString x end
                     = Throw TypeError)
      by (destruct x; try (left; eexists; reflexivity); exact Hx).
    destruct Hx' as [[s ->]| ->]; cbn [bindC]; [|now right].
    destruct rest as [|y rest']; [left; now exists s|].
    destruct IHrest as [[t ->]| ->]; cbn [bindC]; [left; eexists; reflexivity|now right].
  - destruct (lookup (js "toString") members); [now right|left; eexists; reflexivity].
Qed.

Lemma get_settles (v : json_value) (key : jsstring) :
  (exists p, get v key = Return p) \/ (v = JNull /\ get v key = Throw TypeError).
Proof. destruct v; cbn [get]; try (left; eexists; reflexivity). now right. Qed.

Lemma price_settles (o : json_value) :
  (exists x, price o = Return x) \/ price o = Throw TypeError.
Proof.
  unfold price. destruct (get_settles o (js "total_price")) as [[p ->]|[_ ->]];
    cbn [bindC]; [|now right].
  match goal with |- context [ToString ?v] => destruct (ToString_settles v) as [[s ->]| ->] end;
    cbn [bindC]; [left; eexists; reflexivity|now right].
Qed.

Lemma readable_price (o : json_value) :
  readable o = true -> price o = Return (price_of o).
Proof. unfold readable, price_of. destruct (price o); congruence. Qed.

Lemma unreadable_price (o : json_value) :
  readable o = false -> price o = Throw TypeError.
Proof.
  unfold readable. destruct (price_settles o) as [[x ->]| ->]; congruence.
Qed.

Lemma iterate_iterable (v : option json_value) :
  (iterable v = true /\ exists l, iterate v = Return l)
  \/ (iterable v = false /\ iterate v = Throw TypeError).
Proof.
  destruct v as [[ | | | | | ]|]; cbn [iterate iterable];
    try (right; now split); left; split; try reflexivity; eexists; reflexivity.
Qed.

Lemma tally_app (a b : list json_value) (acc : Z * number) :
  tally (a ++ b) acc = tally b (tally a acc).
Proof. unfold tally. apply fold_left_app. Qed.

Lemma add_orders_tally (l : list json_value) :
  forall acc, forallb readable l = true -> Raw.add_orders l acc = Return (tally l acc).
Proof.
  induction l as [|o l IH]; intros acc H; [reflexivity|].
  cbn [forallb] in H. apply andb_prop in H. destruct H as [Ho Hl].
  cbn [Raw.add_orders]. unfold Raw.add_order.
  rewrite (readable_price _ Ho). cbn [bindC]. now rewrite IH.
Qed.

Lemma add_orders_settles (l : list json_value) :
  forall acc,
    (forallb readable l = true /\ Raw.add_orders l acc = Return (tally l acc))
    \/ (Exists (fun o => readable o = false) l
        /\ Raw.add_orders l acc = Throw TypeError).
Proof.
  induction l as [|o l IH]; intros acc; [left; now split|].
  cbn [Raw.add_orders forallb]. unfold Raw.add_order.
  destruct (readable o) eqn:Ho.
  - rewrite (readable_price _ Ho). cbn [bindC andb].
    destruct (IH (increment (fst acc), Number_add (snd acc) (price_of o)))
      as [[H1 H2]|[H1 H2]].
    + left. split; [exact H1|]. rewrite H2. reflexivity.
    + right. split; [now apply Exists_cons_tl|exact H2].
  - rewrite (unreadable_price _ Ho). right. split; [now apply Exists_cons_hd|reflexivity].
Qed.

(** ** The loop, turn by turn *)

Lemma raw_fetch_pages_turn (url token : jsstring) (net : list Raw.reply)
    (pageInfo : option jsstring) (orders : Z) (sales : number) :
  Raw.fetch_pages url token net pageInfo orders sales =
  match fetch_url url pageInfo with
  | Return u =>
      match net with
      | [] => ([Fetch u token], Pending)
      | Raw.Fails e :: _ => ([Fetch u token], Throw e)
      | Raw.Responds res :: net' =>
          match Raw.turn_of res (orders, sales) with
          | Raw.Goes_on c acc =>
              let rest := Raw.fetch_pages url token net' (Some c) (fst acc) (snd acc) in
              (Fetch u token :: fst rest, snd rest)
          | Raw.Stops acc =>
              ([Fetch u token],
               Return {| Shopify.orders := fst acc; Shopify.sales := snd acc |})
          | Raw.Breaks e => ([Fetch u token], Throw e)
          | Raw.Hangs => ([Fetch u token], Pending)
          end
      end
  | Throw e => ([], Throw e)
  | Pending => ([], Pending)
  end.
Proof.
  destruct net as [|[res|e] net']; cbn [Raw.fetch_pages];
    destruct (fetch_url url pageInfo) as [u|e'|]; try reflexivity;
    autorewrite with js_monad; try reflexivity.
  unfold Raw.turn_of, Raw.orders_of, Raw.orders_value.
  destruct (Raw.ok res); cbn [negb].
  - destruct (Raw.json res) as [data| |]; try reflexivity.
    rewrite bind_lift_return. cbn [bindC].
    destruct (bindC (get data (js "orders")) iterate) as [l| |]; try reflexivity.
    rewrite bind_lift_return. cbn [bindC].
    destruct (Raw.add_orders l (orders, sales)) as [acc| |]; try reflexivity.
    rewrite bind_lift_return.
    destruct (getNextPage (Raw.link res)) as [next| |]; try reflexivity.
    rewrite bind_lift_return. destruct next as [c|]; cbn [truthy_opt]; [|reflexivity].
    destruct (truthy c); reflexivity.
  - destruct (Raw.text res) as [body| |]; try reflexivity.
Qed.

Lemma raw_turn_goes_on (res : Raw.response) (acc acc' : Z * number) (c : jsstring) :
  Raw.turn_of res acc = Raw.Goes_on c acc' ->
  Raw.successful res = true /\ getNextPage (Raw.link res) = Return (Some c)
  /\ truthy c = true /\ acc' = tally (Raw.page_orders res) acc.
Proof.
  unfold Raw.turn_of, Raw.successful, Raw.page_orders.
  destruct (Raw.ok res); [|destruct (Raw.text res); discriminate].
  destruct (Raw.orders_of res) as [l| |]; cbn [bindC]; try discriminate.
  destruct (add_orders_settles l acc) as [[H1 ->]|[_ ->]]; [|discriminate].
  destruct (getNextPage (Raw.link res)) as [[c'|]| |]; try discriminate.
  destruct (truthy c') eqn:E; [|discriminate]. intros [= <- <-]. auto.
Qed.

Lemma raw_turn_stops (res : Raw.response) (acc acc' : Z * number) :
  Raw.turn_of res acc = Raw.Stops acc' ->
  Raw.successful res = true /\ Raw.last_page res = true
  /\ acc' = tally (Raw.page_orders res) acc.
Proof.
  unfold Raw.turn_of, Raw.successful, Raw.page_orders, Raw.last_page.
  destruct (Raw.ok res); [|destruct (Raw.text res); discriminate].
  destruct (Raw.orders_of res) as [l| |]; cbn [bindC]; try discriminate.
  destruct (add_orders_settles l acc) as [[H1 ->]|[_ ->]]; [|discriminate].
  destruct (getNextPage (Raw.link res)) as [[c'|]| |] eqn:En; try discriminate.
  - destruct (truthy c') eqn:E; [discriminate|].
    apply getNextPage_truthy in En. congruence.
  - intros [= <-]. auto.
Qed.

Lemma raw_successful_turn (res : Raw.response) (acc : Z * number) :
  Raw.successful res = true ->
  Raw.turn_of res acc =
  match getNextPage (Raw.link res) with
  | Return (Some c) => Raw.Goes_on c (tally (Raw.page_orders res) acc)
  | Return None => Raw.Stops (tally (Raw.page_orders res) acc)
  | Throw e => Raw.Breaks e
  | Pending => Raw.Hangs
  end.
Proof.
  unfold Raw.successful, Raw.turn_of, Raw.page_orders. intros H.
  apply andb_prop in H. destruct H as [-> H].
  destruct (Raw.orders_of res) as [l| |]; try discriminate. cbn [bindC].
  rewrite (add_orders_tally _ _ H).
  destruct (getNextPage (Raw.link res)) as [[c|]| |] eqn:En; try reflexivity.
  now rewrite (getNextPage_truthy _ _ En).
Qed.

Lemma raw_has_cursor_next (res : Raw.response) :
  Raw.has_cursor res = true ->
  exists c, getNextPage (Raw.link res) = Return (Some c) /\ sendable (Some c) = true.
Proof.
  unfold Raw.has_cursor.
  destruct (getNextPage (Raw.link res)) as [[c|]| |] eqn:E; try discriminate.
  destruct (encodeURIComponent c) eqn:Ec; try discriminate. intros _.
  exists c. split; [reflexivity|]. unfold sendable. cbn [truthy_opt].
  now rewrite (getNextPage_truthy _ _ E), Ec.
Qed.

(** The loop over a chain of pages goes on with their orders counted. *)
Lemma raw_fetch_pages_chained (url token : jsstring) (pre : list Raw.response) :
  Raw.chained pre = true ->
  forall pageInfo, sendable pageInfo = true ->
  exists next log,
    sendable next = true /\ length log = length pre
    /\ forall net orders sales,
         let acc := tally (Raw.all_orders pre) (orders, sales) in
         Raw.fetch_pages url token (map Raw.Responds pre ++ net) pageInfo orders sales =
         (log ++ fst (Raw.fetch_pages url token net next (fst acc) (snd acc)),
          snd (Raw.fetch_pages url token net next (fst acc) (snd acc))).
Proof.
  induction pre as [|res pre IH]; intros Hch pageInfo Hs.
  - exists pageInfo, []. repeat split; [exact Hs|].
    intros net orders sales. cbn. now destruct (Raw.fetch_pages _ _ _ _ _ _).
  - change (Raw.chained (res :: pre))
      with ((Raw.successful res && Raw.has_cursor res) && Raw.chained pre) in Hch.
    apply andb_prop in Hch. destruct Hch as [Hres Hch].
    apply andb_prop in Hres. destruct Hres as [Hok Hc].
    destruct (raw_has_cursor_next _ Hc) as (c & Hn & Hsc).
    destruct (IH Hch (Some c) Hsc) as (next & log & Hsn & Hlen & Hrest).
    apply (sendable_fetch_url url) in Hs. destruct Hs as [u Hu].
    exists next, (Fetch u token :: log).
    repeat split; [exact Hsn|simpl; now rewrite Hlen|].
    intros net orders sales. cbn [map app].
    rewrite raw_fetch_pages_turn, Hu, (raw_successful_turn _ _ Hok), Hn.
    cbv zeta. rewrite Hrest. unfold Raw.all_orders. cbn [map concat].
    rewrite !tally_app.
    now destruct (tally (Raw.page_orders res) (orders, sales)).
Qed.

Lemma raw_fetchShopify_with_credentials (env : environment) (w : window)
    (url : jsstring) (net : list Raw.reply) :
  shopify_credentials env -> request_url env w = Return url ->
  Raw.fetchShopify env w net =
  Raw.fetch_pages url (match SHOPIFY_ADMIN_TOKEN env with Some s => s | None => [] end)
                  net None 0%Z (S754_zero false).
Proof.
  intros [Hs Ht] Hu. unfold Raw.fetchShopify. rewrite Hs, Ht, Hu. cbn [negb orb].
  now rewrite bind_lift_return.
Qed.

(** After a chain of pages, the turn on the next response decides. *)
Lemma raw_fetch_after_chain (env : environment) (w : window) (url : jsstring)
    (pre : list Raw.response) (res : Raw.response) (rest : list Raw.reply) :
  shopify_credentials env -> request_url env w = Return url ->
  Raw.chained pre = true ->
  snd (Raw.fetchShopify env w (map Raw.Responds pre ++ Raw.Responds res :: rest)) =
  match Raw.turn_of res (tally (Raw.all_orders pre) (0%Z, S754_zero false)) with
  | Raw.Goes_on c acc =>
      snd (Raw.fetch_pages url
             (match SHOPIFY_ADMIN_TOKEN env with Some s => s | None => [] end)
             rest (Some c) (fst acc) (snd acc))
  | Raw.Stops acc => Return {| Shopify.orders := fst acc; Shopify.sales := snd acc |}
  | Raw.Breaks e => Throw e
  | Raw.Hangs => Pending
  end.
Proof.
  intros Hc Hu Hch. rewrite (raw_fetchShopify_with_credentials _ _ _ _ Hc Hu).
  destruct (raw_fetch_pages_chained url
              (match SHOPIFY_ADMIN_TOKEN env with Some s => s | None => [] end)
              pre Hch None eq_refl) as (next & log & Hn & _ & H).
  rewrite H. cbn [snd]. rewrite raw_fetch_pages_turn.
  apply (sendable_fetch_url url) in Hn. destruct Hn as [u ->].
  cbn [fst snd]. rewrite <- surjective_pairing.
  now destruct (Raw.turn_of res _).
Qed.

Lemma raw_turn_not_iterable (res : Raw.response) (acc : Z * number) :
  Raw.ok res = true ->
  Raw.json res = Return JNull
  \/ (exists v, Raw.orders_value res = Return v /\ iterable v = false) ->
  Raw.turn_of res acc = Raw.Breaks TypeError.
Proof.
  intros Hok H. unfold Raw.turn_of, Raw.orders_of. rewrite Hok.
  destruct H as [H|(v & Hv & Hi)].
  - unfold Raw.orders_value. now rewrite H.
  - rewrite Hv. cbn [bindC].
    destruct (iterate_iterable v) as [[Hi' _]|[_ ->]]; [congruence|reflexivity].
Qed.

Lemma raw_turn_null_element (res : Raw.response) (acc : Z * number)
    (items : list json_value) :
  Raw.ok res = true -> Raw.orders_of res = Return items -> In JNull items ->
  Raw.turn_of res acc = Raw.Breaks TypeError.
Proof.
  intros Hok Hitems Hin. unfold Raw.turn_of. rewrite Hok, Hitems. cbn [bindC].
  destruct (add_orders_settles items acc) as [[H _]|[_ ->]]; [|reflexivity].
  rewrite forallb_forall in H. specialize (H _ Hin). discriminate H.
Qed.

Lemma price_of_character (c : jsstring) :
  readable (JString c) = true /\ price_of (JString c) = S754_zero false.
Proof. split; reflexivity. Qed.

Lemma tally_zeros (l : list json_value) :
  Forall (fun o => price_of o = S754_zero false) l ->
  forall n, (0 <= n)%Z -> (n + Z.of_nat (length l) <= 2 ^ 53)%Z ->
  tally l (n, S754_zero false) = ((n + Z.of_nat (length l))%Z, S754_zero false).
Proof.
  induction 1 as [|o l Ho Hl IH]; intros n Hn Hb.
  - cbn. f_equal. lia.
  - cbn [length] in Hb. unfold tally in *. cbn [fold_left fst snd]. rewrite Ho.
    rewrite increment_exact by lia.
    change (Number_add (S754_zero false) (S754_zero false)) with (S754_zero false).
    rewrite IH by lia. f_equal. cbn [length]. lia.
Qed.

Lemma raw_successful_iterable (res : Raw.response) :
  Raw.successful res = true ->
  exists v, Raw.orders_value res = Return v /\ iterable v = true.
Proof.
  unfold Raw.successful, Raw.orders_of. intros H. apply andb_prop in H.
  destruct H as [_ H].
  destruct (Raw.orders_value res) as [v| |]; cbn [bindC] in H; try discriminate.
  exists v. split; [reflexivity|].
  destruct (iterate_iterable v) as [[Hi _]|[_ Hi]]; [exact Hi|].
  rewrite Hi in H. discriminate.
Qed.

(** A loop that returns has consumed a sequence of paged successes. *)
Lemma raw_fetch_pages_return_paged (url token : jsstring) (net : list Raw.reply) :
  forall pageInfo orders sales r,
    snd (Raw.fetch_pages url token net pageInfo orders sales) = Return r ->
    exists pages rest, net = map Raw.Responds pages ++ rest /\ Raw.paged pages = true.
Proof.
  induction net as [|reply net IH]; intros pageInfo orders sales r;
    rewrite raw_fetch_pages_turn;
    destruct (fetch_url url pageInfo) as [u| |]; cbn [snd]; try discriminate.
  destruct reply as [res|e]; [|discriminate].
  destruct (Raw.turn_of res (orders, sales)) as [c acc|acc| |] eqn:Et;
    cbn [snd]; try discriminate.
  - destruct (raw_turn_goes_on _ _ _ _ Et) as (Hs & Hn & Htc & _).
    intros H. pose proof H as H'. apply IH in H'.
    destruct H' as (pages & rest & -> & Hp).
    exists (res :: pages), rest. split; [reflexivity|].
    cbn [Raw.paged]. rewrite Hs, Hp.
    assert (Hc : Raw.has_cursor res = true).
    { unfold Raw.has_cursor. rewrite Hn. revert H. rewrite raw_fetch_pages_turn.
      unfold fetch_url. cbn [truthy_opt]. rewrite Htc.
      destruct (encodeURIComponent c); cbn [bindC snd]; try discriminate; reflexivity. }
    rewrite Hc. destruct pages; [discriminate|reflexivity].
  - destruct (raw_turn_stops _ _ _ Et) as (Hs & Hl & _). intros _.
    exists [res], net. split; [reflexivity|]. cbn [Raw.paged]. now rewrite Hs, Hl.
Qed.

Lemma raw_paged_successful (pages : list Raw.response) :
  Raw.paged pages = true -> Forall (fun res => Raw.successful res = true) pages.
Proof.
  induction pages as [|res pages IH]; [discriminate|]. cbn [Raw.paged].
  intros H. apply andb_prop in H. destruct H as [Hs H]. constructor; [exact Hs|].
  destruct pages as [|res' pages']; [constructor|].
  apply andb_prop in H. destruct H as [_ H]. now apply IH.
Qed.

(** C10, amended: the iteration over [data.orders] is unguarded. After any
    chain of pages, a success whose [orders] is missing, [null], a Boolean, a
    Number or an object, or whose body is [null], makes the fetch throw
    TypeError, and so does an [orders] array with a [null] element. An
    [orders] value without elements counts no orders; a String in the place
    of the array is run over code point by code point, each one counted as
    an order of price 0. A fetch that returns has only met successes whose
    [orders] is an Array or a String. *)
Theorem orders_iteration_is_unguarded (env : environment) (w : window)
    (url : jsstring) :
  shopify_credentials env -> request_url env w = Return url ->
  (forall (pre : list Raw.response) (bad : Raw.response) (rest : list Raw.reply),
      Raw.chained pre = true -> Raw.ok bad = true ->
      Raw.json bad = Return JNull
      \/ (exists v, Raw.orders_value bad = Return v /\ iterable v = false) ->
      snd (Raw.fetchShopify env w (map Raw.Responds pre ++ Raw.Responds bad :: rest))
      = Throw TypeError)
  /\ (forall (pre : list Raw.response) (bad : Raw.response) (rest : list Raw.reply)
             (items : list json_value),
        Raw.chained pre = true -> Raw.ok bad = true ->
        Raw.orders_of bad = Return items -> In JNull items ->
        snd (Raw.fetchShopify env w (map Raw.Responds pre ++ Raw.Responds bad :: rest))
        = Throw TypeError)
  /\ (forall (pre : list Raw.response) (empty : Raw.response) (rest : list Raw.reply),
        Raw.chained pre = true -> Raw.ok empty = true ->
        Raw.orders_of empty = Return [] -> Raw.last_page empty = true ->
        snd (Raw.fetchShopify env w (map Raw.Responds pre ++ Raw.Responds empty :: rest))
        = Return {| Shopify.orders :=
                      fst (tally (Raw.all_orders pre) (0%Z, S754_zero false));
                    Shopify.sales :=
                      snd (tally (Raw.all_orders pre) (0%Z, S754_zero false)) |})
  /\ (forall (page : Raw.response) (rest : list Raw.reply) (s : jsstring),
        Raw.ok page = true ->
        Raw.orders_value page = Return (Some (JString s)) ->
        Raw.last_page page = true ->
        (Z.of_nat (length (code_points s)) <= 2 ^ 53)%Z ->
        snd (Raw.fetchShopify env w (Raw.Responds page :: rest))
        = Return {| Shopify.orders := Z.of_nat (length (code_points s));
                    Shopify.sales := S754_zero false |})
  /\ (forall (net : list Raw.reply) r,
        snd (Raw.fetchShopify env w net) = Return r ->
        exists pages rest,
          net = map Raw.Responds pages ++ rest /\ Raw.paged pages = true
          /\ Forall (fun res => exists v, Raw.orders_value res = Return v
                                          /\ iterable v = true) pages).
Proof.
  intros Hc Hu. split; [|split; [|split; [|split]]].
  - intros pre bad rest Hch Hok H.
    rewrite (raw_fetch_after_chain _ _ _ _ _ _ Hc Hu Hch).
    now rewrite (raw_turn_not_iterable _ _ Hok H).
  - intros pre bad rest items Hch Hok Hitems Hin.
    rewrite (raw_fetch_after_chain _ _ _ _ _ _ Hc Hu Hch).
    now rewrite (raw_turn_null_element _ _ _ Hok Hitems Hin).
  - intros pre empty rest Hch Hok Hitems Hl.
    rewrite (raw_fetch_after_chain _ _ _ _ _ _ Hc Hu Hch).
    assert (Hs : Raw.successful empty = true)
      by (unfold Raw.successful; now rewrite Hok, Hitems).
    rewrite (raw_successful_turn _ _ Hs). unfold Raw.last_page in Hl.
    destruct (getNextPage (Raw.link empty)) as [[c|]| |]; try discriminate.
    unfold Raw.page_orders. rewrite Hitems. reflexivity.
  - intros page rest s Hok Hv Hl Hb.
    change (Raw.Responds page :: rest)
      with (map Raw.Responds [] ++ Raw.Responds page :: rest).
    rewrite (raw_fetch_after_chain _ _ _ [] page rest Hc Hu eq_refl).
    assert (Hitems : Raw.orders_of page = Return (map JString (code_points s)))
      by (unfold Raw.orders_of; now rewrite Hv).
    assert (Hs : Raw.successful page = true).
    { unfold Raw.successful. rewrite Hok, Hitems. cbn [andb].
      apply forallb_forall. intros o Ho. apply in_map_iff in Ho.
      destruct Ho as (c & <- & _). reflexivity. }
    rewrite (raw_successful_turn _ _ Hs). unfold Raw.last_page in Hl.
    destruct (getNextPage (Raw.link page)) as [[c|]| |]; try discriminate.
    unfold Raw.page_orders. rewrite Hitems. cbn [Raw.all_orders map concat tally fold_left].
    rewrite tally_zeros; [|apply Forall_forall; intros o Ho; apply in_map_iff in Ho;
                            destruct Ho as (c & <- & _); reflexivity|lia|].
    + cbn [fst snd]. now rewrite length_map.
    + rewrite length_map. lia.
  - intros net r H. rewrite (raw_fetchShopify_with_credentials _ _ _ _ Hc Hu) in H.
    destruct (raw_fetch_pages_return_paged _ _ _ _ _ _ _ H) as (pages & rest & -> & Hp).
    exists pages, rest. repeat split; [exact Hp|].
    pose proof (raw_paged_successful _ Hp) as Hall. revert Hall.
    apply Forall_impl. apply raw_successful_iterable.
Qed.

Lemma orders_iteration_is_unguarded_witness :
  request_url env_full window_example = Return url_example
  /\ Raw.chained [raw_response page_one] = true
  /\ snd (Raw.fetchShopify env_full window_example
            [Raw.Responds (raw_response page_one); Raw.Responds (page_with orders_null)])
     = Throw TypeError
  /\ snd (Raw.fetchShopify env_full window_example
            [Raw.Responds (raw_response page_one);
             Raw.Responds (page_with orders_null_element)])
     = Throw TypeError.
Proof.
  assert (Hu : request_url env_full window_example = Return url_example)
    by (vm_compute; reflexivity).
  assert (Hch : Raw.chained [raw_response page_one] = true)
    by (vm_compute; reflexivity).
  pose proof (orders_iteration_is_unguarded env_full window_example url_example
                (conj eq_refl eq_refl) Hu) as (H1 & H2 & _).
  split; [exact Hu|split; [exact Hch|split]].
  - apply (H1 [raw_response page_one] (page_with orders_null) [] Hch eq_refl).
    right. exists (Some JNull). split; reflexivity.
  - apply (H2 [raw_response page_one] (page_with orders_null_element) [] [JNull]
              Hch eq_refl eq_refl). now left.
Defined.

(** C10 as stated fails: a success whose [orders] is a String carries no
    orders array, and the fetch does not throw: it counts the code points of
    the String as orders, none for the empty String. *)
Lemma string_orders_are_counted :
  snd (Raw.fetchShopify env_full window_example
         [Raw.Responds (page_with orders_empty_string)])
  = Return {| Shopify.orders := 0%Z; Shopify.sales := S754_zero false |}
  /\ snd (Raw.fetchShopify env_full window_example
            [Raw.Responds (page_with orders_string)])
     = Return {| Shopify.orders := 2%Z; Shopify.sales := S754_zero false |}
  /\ ~ (forall res : Raw.response,
          Raw.ok res = true ->
          (forall items, Raw.orders_value res <> Return (Some (JArray items))) ->
          exists e, snd (Raw.fetchShopify env_full window_example [Raw.Responds res])
                    = Throw e).
Proof.
  assert (H0 : snd (Raw.fetchShopify env_full window_example
                      [Raw.Responds (page_with orders_empty_string)])
               = Return {| Shopify.orders := 0%Z; Shopify.sales := S754_zero false |})
    by (vm_compute; reflexivity).
  split; [exact H0|split; [vm_compute; reflexivity|]].
  intros H. destruct (H (page_with orders_empty_string) eq_refl) as [e He].
  - intros items. discriminate.
  - rewrite H0 in He. discriminate He.
Qed.

(** ** Why the fetch fails *)

Lemma raw_turn_breaks (res : Raw.response) (acc : Z * number) (e : js_error) :
  Raw.turn_of res acc = Raw.Breaks e -> Raw.page_failure res e.
Proof.
  unfold Raw.turn_of, Raw.page_failure, Raw.successful, Raw.orders_of,
    Raw.orders_value.
  destruct (Raw.ok res).
  - destruct (Raw.json res) as [data|e'|]; cbn [bindC];
      [|intros [= <-]; right; left; auto|discriminate].
    destruct (get_settles data (js "orders")) as [[v Hv]|[_ Hv]]; rewrite Hv;
      cbn [bindC];
      [|intros [= <-]; right; right; left; repeat split; exists data; auto].
    destruct (iterate_iterable v) as [[Hi [items Hit]]|[Hi Hit]]; rewrite Hit;
      cbn [bindC];
      [|intros [= <-]; right; right; left; repeat split; exists data;
        split; [reflexivity|]; right; left; now exists v].
    destruct (add_orders_settles items acc) as [[Hr ->]|[Hex ->]].
    + destruct (getNextPage_settles (Raw.link res)) as [[next E]|E]; rewrite E.
      * destruct next as [c|]; [destruct (truthy c)|]; discriminate.
      * intros [= <-]. right; right; right. rewrite Hr. auto.
    + intros [= <-]. right; right; left. repeat split. exists data.
      split; [reflexivity|]. right; right. now exists items.
  - destruct (Raw.text res) as [body|e'|]; [| |discriminate]; intros [= <-]; left;
      split; auto. left. now exists body.
Qed.

Lemma raw_fetch_pages_failures (url token : jsstring) (e : js_error)
    (net : list Raw.reply) :
  forall pageInfo orders sales,
    snd (Raw.fetch_pages url token net pageInfo orders sales) = Throw e ->
    fetch_url url pageInfo = Throw e
    \/ In (Raw.Fails e) net
    \/ exists res, In (Raw.Responds res) net /\ Raw.page_failure res e.
Proof.
  induction net as [|reply net' IH]; intros pageInfo orders sales;
    rewrite raw_fetch_pages_turn;
    destruct (fetch_url url pageInfo) as [u|e'|]; cbn [snd];
    try discriminate; try (intros [= <-]; now left).
  destruct reply as [res|e'']; [|intros [= <-]; right; left; now left].
  destruct (Raw.turn_of res (orders, sales)) as [c acc|acc|e''|] eqn:Et; cbn [snd];
    try discriminate.
  - destruct (raw_turn_goes_on _ _ _ _ Et) as (Hs & Hn & Htc & _).
    intros H. apply IH in H. destruct H as [H|[H|(res' & Hin & Hf)]].
    + destruct (fetch_url_throws _ _ _ H) as (-> & c' & [= <-] & Hc').
      right; right. exists res. split; [now left|].
      right; right; right. repeat split; [exact Hs|]. right. now exists c.
    + right; left. now right.
    + right; right. exists res'. split; [now right|exact Hf].
  - intros [= <-]. right; right. exists res. split; [now left|].
    exact (raw_turn_breaks _ _ _ Et).
Qed.

(** X6: the fetch fails for these reasons only: a credential is missing; a
    text of the request URL cannot be encoded; a call of [fetch] rejected,
    with its reason; or a response was an error status (or its body could
    not be read), had a body that cannot be read as JSON, had an [orders]
    that cannot be read or run over or an order whose price cannot be read,
    or named a next page whose cursor cannot be decoded or encoded. *)
Theorem fetchShopify_failures (env : environment) (w : window)
    (net : list Raw.reply) (e : js_error) :
  snd (Raw.fetchShopify env w net) = Throw e ->
  ((absent (SHOPIFY_STORE env) \/ absent (SHOPIFY_ADMIN_TOKEN env))
   /\ e = Error missing_shopify)
  \/ (request_url env w = Throw URIError /\ e = URIError)
  \/ In (Raw.Fails e) net
  \/ exists res, In (Raw.Responds res) net /\ Raw.page_failure res e.
Proof.
  unfold Raw.fetchShopify, absent.
  destruct (truthy_opt (SHOPIFY_STORE env)); cbn [negb orb];
    [|intros [= <-]; left; auto].
  destruct (truthy_opt (SHOPIFY_ADMIN_TOKEN env)); cbn [negb];
    [|intros [= <-]; left; auto].
  destruct (request_url env w) as [url|e'|] eqn:Eu.
  - rewrite bind_lift_return. intros H. apply raw_fetch_pages_failures in H.
    destruct H as [H|H]; [discriminate H|]. right; right. exact H.
  - intros [= <-]. pose proof (request_url_throws _ _ _ Eu) as ->.
    right; left. auto.
  - discriminate.
Qed.

Lemma fetchShopify_failures_witness :
  snd (Raw.fetchShopify env_full window_example
         [Raw.Responds (raw_response page_one);
          Raw.Responds (page_with orders_null_element);
          Raw.Responds (raw_response page_two)])
  = Throw TypeError
  /\ exists res, In (Raw.Responds res)
                   [Raw.Responds (raw_response page_one);
                    Raw.Responds (page_with orders_null_element);
                    Raw.Responds (raw_response page_two)]
                 /\ Raw.page_failure res TypeError.
Proof.
  assert (H : snd (Raw.fetchShopify env_full window_example
                     [Raw.Responds (raw_response page_one);
                      Raw.Responds (page_with orders_null_element);
                      Raw.Responds (raw_response page_two)])
              = Throw TypeError) by (vm_compute; reflexivity).
  split; [exact H|].
  destruct (fetchShopify_failures _ _ _ _ H) as [[_ F]|[[_ F]|[F|F]]].
  - discriminate F.
  - discriminate F.
  - exfalso. cbn in F. destruct F as [F|[F|[F|[]]]]; discriminate F.
  - exact F.
Defined.

(** ** Pages of the Admin API *)

Lemma price_order_json (o : order) (acc : Z * number) :
  Raw.add_order acc (order_json o) = Return (add_order acc o).
Proof.
  unfold Raw.add_order, add_order, price, order_json.
  destruct (total_price o) as [s|], (created_at o) as [t|]; cbn [app get bindC];
    try reflexivity.
  - change (lookup (js "total_price")
              [(js "total_price", JString s); (js "created_at", JString t)])
      with (Some (JString s)).
    cbn [truthy_value]. destruct (truthy s); reflexivity.
  - change (lookup (js "total_price") [(js "total_price", JString s)])
      with (Some (JString s)).
    cbn [truthy_value]. destruct (truthy s); reflexivity.
Qed.

Lemma add_orders_order_json (l : list order) :
  forall acc, Raw.add_orders (map order_json l) acc = Return (fold_left add_order l acc).
Proof.
  induction l as [|o l IH]; intros acc; [reflexivity|].
  cbn [map Raw.add_orders fold_left]. rewrite price_order_json. cbn [bindC]. apply IH.
Qed.

Lemma raw_turn_typed (res : response) (acc : Z * number) :
  Raw.turn_of (raw_response res) acc =
  match turn_of res with
  | Goes_on c l => Raw.Goes_on c (fold_left add_order l acc)
  | Stops l => Raw.Stops (fold_left add_order l acc)
  | Breaks e => Raw.Breaks e
  | Hangs => Raw.Hangs
  end.
Proof.
  unfold Raw.turn_of, turn_of, Raw.orders_of, Raw.orders_value.
  change (Raw.ok (raw_response res)) with (ok res).
  unfold raw_response. cbn [Raw.link Raw.text Raw.json].
  destruct (ok res); [|reflexivity].
  destruct (json res) as [data|]; [|reflexivity]. cbn [bindC]. unfold page_json.
  destruct (Page.orders data) as [l|]; [|reflexivity]. cbn [get].
  change (lookup (js "orders") [(js "orders", JArray (map order_json l))])
    with (Some (JArray (map order_json l))).
  cbn [bindC iterate]. rewrite add_orders_order_json.
  destruct (getNextPage (link res)) as [[c|]| |]; try reflexivity.
  destruct (truthy c); reflexivity.
Qed.

(** On pages of the Admin API the loop over bodies of any shape is the loop
    over typed pages. *)
Lemma raw_fetch_pages_typed (url token : jsstring) (net : list fetch_reply) :
  forall pageInfo orders sales,
    Raw.fetch_pages url token (map raw_reply net) pageInfo orders sales
    = fetch_pages url token net pageInfo orders sales.
Proof.
  induction net as [|reply net IH]; intros pageInfo orders sales;
    rewrite raw_fetch_pages_turn, fetch_pages_turn;
    destruct (fetch_url url pageInfo) as [u| |]; try reflexivity.
  destruct reply as [res|e]; [|reflexivity]. cbn [map raw_reply].
  rewrite raw_turn_typed. destruct (turn_of res) as [c l| | |]; try reflexivity.
  cbv zeta. now rewrite IH.
Qed.

Lemma raw_fetchShopify_typed (env : environment) (w : window) (net : list fetch_reply) :
  Raw.fetchShopify env w (map raw_reply net) = fetchShopify env w net.
Proof.
  unfold Raw.fetchShopify, fetchShopify.
  destruct (_ || _); [reflexivity|].
  destruct (request_url env w); try reflexivity.
  rewrite !bind_lift_return. apply raw_fetch_pages_typed.
Qed.
